(** * static-assets: manifest generation and the asset browser's query layer

    A shallow embedding of
      - [scripts/generate-assets.js]: [processRasterImage], [processBrand],
        [generateManifest], [main];
      - [app/main.js]: the flattening of the manifest in [init], the
        comparator of [filterAndRender], the preview choice of
        [createAssetCard] and the file lookup of [updateModalUrls];
      - [lib/types/manifest.ts]: the shape of [Asset] and [AssetFile],
    followed by the properties of the specification, each stated on these
    definitions.

    Conventions.  JavaScript strings are modelled by [string], a sequence of
    8-bit code units: the names the pipeline produces are ASCII (kebab-case
    stems, decimal sizes, lower-case extensions), and case mapping leaves
    every code unit outside [A-Za-z] alone.  JavaScript numbers that count
    pixels are modelled by [N] and sort keys by [Z]; both agree with IEEE
    doubles on integers below 2^53.  Code that can throw returns [result]. *)

From Stdlib Require Import NArith ZArith Ascii String DecimalString.
From Stdlib Require OrderedTypeEx DecimalN.
From stdpp Require Import base decidable option numbers list sorting strings.

Local Open Scope N_scope.

(* ------------------------------------------------------------------------- *)
(** ** Exceptions and logging *)

Inductive result (A : Type) : Type :=
  | Ok (a : A)
  | Throw (msg : string).
Arguments Ok {A} a.
Arguments Throw {A} msg.

Definition bind {A B} (r : result A) (k : A -> result B) : result B :=
  match r with
  | Ok a => k a
  | Throw e => Throw e
  end.

Notation "'let!' x ':=' r 'in' k" := (bind r (fun x => k))
  (at level 10, x name, r at level 100, k at level 200).

Definition is_ok {A} (r : result A) : bool :=
  match r with Ok _ => true | Throw _ => false end.

(** [log(message, level)]: the levels of the prefix table.  Messages are
    given without their pictographs and line breaks. *)
Inductive Level := info | success | warn | error.

Record LogEntry := { le_level : Level; le_message : string }.

(* ------------------------------------------------------------------------- *)
(** ** String primitives of the host language *)

Module Js.

Definition is_upper (c : ascii) : bool :=
  (65 <=? N_of_ascii c) && (N_of_ascii c <=? 90).
Definition is_lower (c : ascii) : bool :=
  (97 <=? N_of_ascii c) && (N_of_ascii c <=? 122).
Definition is_digit (c : ascii) : bool :=
  (48 <=? N_of_ascii c) && (N_of_ascii c <=? 57).

Definition lower_char (c : ascii) : ascii :=
  if is_upper c then ascii_of_N (N_of_ascii c + 32) else c.
Definition upper_char (c : ascii) : ascii :=
  if is_lower c then ascii_of_N (N_of_ascii c - 32) else c.

(** [s.toLowerCase()] *)
Fixpoint toLowerCase (s : string) : string :=
  match s with
  | EmptyString => EmptyString
  | String c r => String (lower_char c) (toLowerCase r)
  end.

(** [w.charAt(0).toUpperCase() + w.slice(1)] *)
Definition capitalize (w : string) : string :=
  match w with
  | EmptyString => EmptyString
  | String c r => String (upper_char c) r
  end.

(** [s.split(sep)] for a one-character separator: never the empty list. *)
Fixpoint split (sep : ascii) (s : string) : list string :=
  match s with
  | EmptyString => [EmptyString]
  | String c r =>
      if Ascii.eqb c sep then EmptyString :: split sep r
      else match split sep r with
           | w :: ws => String c w :: ws
           | [] => [String c EmptyString]
           end
  end.

(** [parts.join(sep)] *)
Definition join (sep : string) (parts : list string) : string :=
  String.concat sep parts.

(** [s.slice(1)] *)
Definition slice1 (s : string) : string :=
  match s with
  | EmptyString => EmptyString
  | String _ r => r
  end.

Definition to_list (s : string) : list ascii := list_ascii_of_string s.
Definition of_list (l : list ascii) : string := string_of_list_ascii l.

(** [s.endsWith(t)], used to strip a suffix. *)
Definition strip_suffix (suffix s : string) : option string :=
  let n := String.length s in
  let k := String.length suffix in
  if (k <=? n)%nat
  then if String.eqb (String.substring (n - k) k s) suffix
       then Some (String.substring 0 (n - k) s)
       else None
  else None.

(** [parseInt(digits, 10)] on a run of decimal digits. *)
Definition digit_value (c : ascii) : N := N_of_ascii c - 48.
Definition parseInt (digits : string) : N :=
  fold_left (fun acc c => 10 * acc + digit_value c) (to_list digits) 0.

(** [a || b] on strings that may be [undefined]: the empty string and
    [undefined] are falsy. *)
Definition truthy (s : option string) : bool :=
  match s with
  | Some EmptyString | None => false
  | Some _ => true
  end.
Definition or_else (a b : option string) : option string :=
  if truthy a then a else b.

(** [String(v)] *)
Definition String_of (v : option string) : string :=
  match v with Some s => s | None => "undefined" end.

End Js.

(** Title case of an id: [id.split('-').map(w => w.charAt(0).toUpperCase()
    + w.slice(1)).join(' ')]. *)
Definition titleCase (id : string) : string :=
  Js.join " " (map Js.capitalize (Js.split "-" id)).

(* ------------------------------------------------------------------------- *)
(** ** [path.extname] and [path.basename] of Node, on the bare names that
    [fs.readdir] returns (a directory entry's name holds no ['/']) *)

Module Path.

(** Position of the last ['.'] of a name, if any. *)
Fixpoint last_dot_from (i : nat) (s : string) (acc : option nat) : option nat :=
  match s with
  | EmptyString => acc
  | String c r =>
      last_dot_from (S i) r (if Ascii.eqb c "." then Some i else acc)
  end.
Definition last_dot (s : string) : option nat := last_dot_from 0 s None.

(** [path.extname(name)]: from the last dot to the end; empty when there
    is no dot, when the only dot leads the name (a dot file), and for
    [".."]. *)
Definition extname (name : string) : string :=
  match last_dot name with
  | None => ""
  | Some O => ""
  | Some i =>
      if String.eqb name ".." then ""
      else String.substring i (String.length name - i) name
  end.

(** [path.basename(name, ext)]: the name without [ext] when it ends with
    exactly [ext] and is longer than it; the whole name when the suffix
    does not match (the comparison is case-sensitive); the empty string
    when the name is [ext] itself. *)
Definition basename (name ext : string) : string :=
  if String.eqb ext "" then name
  else if String.eqb ext name then ""
  else match Js.strip_suffix ext name with
       | Some stem => stem
       | None => name
       end.

End Path.

(* ------------------------------------------------------------------------- *)
(** ** The manifest's data, after [lib/types/manifest.ts] *)

Record AssetFile := {
  file : string;
  format : string;
  size : option N;          (* [null] for the original *)
  path : string
}.

Record Asset := {
  id : string;
  name : string;
  displayName : option string;
  description : option string;
  usage : option string;
  tags : option (list string);
  aliases : option (list string);
  sortKey : option Z;
  type : string;
  basePath : string;
  sizes : list N;
  formats : list string;
  files : list AssetFile
}.

Record AssetTypeGroup := {
  atg_type : string;
  atg_assets : list Asset
}.

Record Brand := {
  b_id : string;
  b_name : string;
  b_tags : option (list string);
  b_aliases : option (list string);
  b_assetTypes : list AssetTypeGroup
}.

Record Manifest := {
  generated : string;
  version : string;
  baseUrls : list (string * string);
  brands : list Brand
}.

(* ------------------------------------------------------------------------- *)
(** ** Containers of the host language *)

(** A [Set]: its elements in insertion order, without repetition. *)
Definition set_add {A} `{EqDecision A} (s : list A) (x : A) : list A :=
  if decide (x ∈ s) then s else s ++ [x].

Definition set_of {A} `{EqDecision A} (l : list A) : list A :=
  fold_left set_add l [].

(** A plain object used as a map: its own properties in insertion order.
    [Object.prototype] is on the prototype chain of every object literal, so
    reading one of these keys from an object that does not own it yields the
    inherited member, which is truthy. *)
Definition objectPrototypeKeys : list string :=
  [ "constructor"; "__defineGetter__"; "__defineSetter__"; "hasOwnProperty";
    "__lookupGetter__"; "__lookupSetter__"; "isPrototypeOf";
    "propertyIsEnumerable"; "toString"; "valueOf"; "__proto__";
    "toLocaleString" ].

Definition includes (l : list string) (s : string) : bool :=
  existsb (String.eqb s) l.

Fixpoint own {V} (props : list (string * V)) (k : string) : option V :=
  match props with
  | [] => None
  | (k', v) :: rest => if String.eqb k' k then Some v else own rest k
  end.

Fixpoint update {V} (props : list (string * V)) (k : string) (f : V -> V)
  : list (string * V) :=
  match props with
  | [] => []
  | (k', v) :: rest =>
      if String.eqb k' k then (k', f v) :: rest else (k', v) :: update rest k f
  end.

(** A key is an array index when it is the canonical decimal form of an
    integer below 2^32 - 1. *)
Definition isArrayIndex (k : string) : bool :=
  match k with
  | EmptyString => false
  | String c r =>
      forallb Js.is_digit (Js.to_list k)
      && (negb (Ascii.eqb c "0") || String.eqb r "")
      && (Js.parseInt k <? 4294967295)
  end.

Definition index_le (a b : string) : Prop := Js.parseInt a <= Js.parseInt b.

#[global] Instance index_le_dec (a b : string) : Decision (index_le a b) :=
  decide (Js.parseInt a <= Js.parseInt b).

(** The order in which the own keys of an object are enumerated: the array
    indices in ascending numeric order, then the other keys in the order in
    which they were created. *)
Definition ownKeys (keys : list string) : list string :=
  merge_sort index_le (List.filter isArrayIndex keys)
  ++ List.filter (fun k => negb (isArrayIndex k)) keys.

(** [Object.values(o)] and [Object.entries(o)] *)
Definition Object_values {V} (props : list (string * V)) : list V :=
  omap (own props) (ownKeys (map fst props)).

Definition Object_entries {V} (props : list (string * V)) : list (string * V) :=
  omap (fun k => match own props k with Some v => Some (k, v) | None => None end)
       (ownKeys (map fst props)).

Definition string_le (a b : string) : Prop := String.leb a b = true.

#[global] Instance string_le_dec (a b : string) : Decision (string_le a b) :=
  decide (String.leb a b = true).

(** [Array.from(set).sort((a, b) => a - b)] and [Array.from(set).sort()]:
    ascending numbers, and strings in the order of their code units.  The
    elements of a set are distinct, so the sorted array does not depend on
    the sorting algorithm. *)
Definition sort_numbers (l : list N) : list N := merge_sort N.le l.
Definition sort_strings (l : list string) : list string := merge_sort string_le l.

(* ------------------------------------------------------------------------- *)
(** ** [generateManifest]: the body of the loop over one directory *)

Definition knownExtensions : list string :=
  [".svg"; ".png"; ".jpg"; ".jpeg"; ".webp"; ".avif"].

Definition is_line_terminator (c : ascii) : bool :=
  (N_of_ascii c =? 10) || (N_of_ascii c =? 13).

Fixpoint span_digits (l : list ascii) : list ascii * list ascii :=
  match l with
  | c :: r =>
      if Js.is_digit c
      then let '(ds, rest) := span_digits r in (c :: ds, rest)
      else ([], l)
  | [] => ([], [])
  end.

(** [baseName.match(/^(.+?)-(\d+)$/)]: the two groups.  The digits are the
    maximal run that ends the name, the hyphen stands right before it, and
    the first group is what precedes the hyphen: it is not empty, and [.]
    matches no line terminator. *)
Definition sizeMatch (baseName : string) : option (string * string) :=
  let '(ds, rest) := span_digits (rev (Js.to_list baseName)) in
  match ds, rest with
  | _ :: _, dash :: ((_ :: _) as stem) =>
      if Ascii.eqb dash "-" && forallb (fun c => negb (is_line_terminator c)) stem
      then Some (Js.of_list (rev stem), Js.of_list (rev ds))
      else None
  | _, _ => None
  end.

Record Parsed := {
  p_file : string;
  p_assetName : string;
  p_size : option N;
  p_ext : string
}.

(** Lines 273-289: [None] is the [continue] of an unknown extension. *)
Definition parseFile (file : string) : option Parsed :=
  let ext := Js.toLowerCase (Path.extname file) in
  if negb (includes knownExtensions ext) then None
  else
    let baseName := Path.basename file ext in
    match sizeMatch baseName with
    | Some (stem, digits) =>
        Some {| p_file := file; p_assetName := stem;
                p_size := Some (Js.parseInt digits); p_ext := ext |}
    | None =>
        Some {| p_file := file; p_assetName := baseName;
                p_size := None; p_ext := ext |}
    end.

(** The value of [assetGroups[assetName]] while the loop runs: the sets are
    still sets. *)
Record Group := {
  g_id : string;
  g_name : string;
  g_type : string;
  g_basePath : string;
  g_sizes : list N;
  g_formats : list string;
  g_files : list AssetFile
}.

Section Directory.

Variables brandId assetType : string.

Definition dirPath : string :=
  "v1/brands/" +:+ brandId +:+ "/" +:+ assetType +:+ "/".

Definition newGroup (assetName : string) : Group :=
  {| g_id := assetName;
     g_name := titleCase assetName;
     g_type := assetType;
     g_basePath := dirPath +:+ assetName;
     g_sizes := [];
     g_formats := [];
     g_files := [] |}.

Definition fileRecord (p : Parsed) : AssetFile :=
  {| file := p_file p;
     format := Js.slice1 (p_ext p);
     size := p_size p;
     path := dirPath +:+ p_file p |}.

(** [if (size)]: [null] and [0] are falsy. *)
Definition truthy_size (s : option N) : option N :=
  match s with
  | Some 0 | None => None
  | Some n => Some n
  end.

(** Lines 303-311 on the group of the file. *)
Definition addTo (p : Parsed) (g : Group) : Group :=
  {| g_id := g_id g;
     g_name := g_name g;
     g_type := g_type g;
     g_basePath := g_basePath g;
     g_sizes := match truthy_size (p_size p) with
                | Some n => set_add (g_sizes g) n
                | None => g_sizes g
                end;
     g_formats := set_add (g_formats g) (format (fileRecord p));
     g_files := g_files g ++ [fileRecord p] |}.

(** One turn of [for (const file of files)]. *)
Definition addFile (assetGroups : list (string * Group)) (file : string)
  : result (list (string * Group)) :=
  match parseFile file with
  | None => Ok assetGroups
  | Some p =>
      match own assetGroups (p_assetName p) with
      | Some _ => Ok (update assetGroups (p_assetName p) (addTo p))
      | None =>
          if includes objectPrototypeKeys (p_assetName p)
          then Throw "TypeError: Cannot read properties of undefined (reading 'add')"
          else Ok (assetGroups ++ [(p_assetName p, addTo p (newGroup (p_assetName p)))])
      end
  end.

Fixpoint addFiles (assetGroups : list (string * Group)) (files : list string)
  : result (list (string * Group)) :=
  match files with
  | [] => Ok assetGroups
  | f :: rest =>
      let! groups := addFile assetGroups f in addFiles groups rest
  end.

(** Lines 315-319: the spread of the group with its sets turned into
    sorted arrays.  The object literal of lines 292-300 has none of the
    optional members of [Asset]. *)
Definition toAsset (g : Group) : Asset :=
  {| id := g_id g;
     name := g_name g;
     displayName := None;
     description := None;
     usage := None;
     tags := None;
     aliases := None;
     sortKey := None;
     type := g_type g;
     basePath := g_basePath g;
     sizes := sort_numbers (g_sizes g);
     formats := sort_strings (g_formats g);
     files := g_files g |}.

(** Lines 270-319 for one listing of a type directory. *)
Definition groupAssets (files : list string) : result (list Asset) :=
  let! groups := addFiles [] files in
  Ok (map toAsset (Object_values groups)).

End Directory.

(* ------------------------------------------------------------------------- *)
(** ** [generateManifest]: the walk over the output tree *)

(** What [fs.readdir] reports: the entries of [brands/] with their kind, for
    each of them the entries of the brand directory with their kind, and for
    each of those the names it holds, all in the order of the listing. *)
Record TypeEntry := {
  te_name : string;
  te_isDirectory : bool;
  te_files : list string
}.

Record BrandEntry := {
  be_name : string;
  be_isDirectory : bool;
  be_entries : list TypeEntry
}.

(** [for (const typeEntry of assetTypeDirs)] *)
Fixpoint scanTypes (brandId : string) (entries : list TypeEntry)
  : result (list AssetTypeGroup) :=
  match entries with
  | [] => Ok []
  | typeEntry :: rest =>
      if negb (te_isDirectory typeEntry) then scanTypes brandId rest
      else
        let! assets := groupAssets brandId (te_name typeEntry) (te_files typeEntry) in
        let! later := scanTypes brandId rest in
        Ok (if (0 <? length assets)%nat
            then {| atg_type := te_name typeEntry; atg_assets := assets |} :: later
            else later)
  end.

(** [for (const brandEntry of brandDirs)] *)
Fixpoint scanBrands (brandDirs : list BrandEntry) : result (list Brand) :=
  match brandDirs with
  | [] => Ok []
  | brandEntry :: rest =>
      if negb (be_isDirectory brandEntry) then scanBrands rest
      else
        let brandId := be_name brandEntry in
        let! assetTypes := scanTypes brandId (be_entries brandEntry) in
        let! later := scanBrands rest in
        Ok (if (0 <? length assetTypes)%nat
            then {| b_id := brandId; b_name := titleCase brandId;
                    b_tags := None; b_aliases := None;
                    b_assetTypes := assetTypes |} :: later
            else later)
  end.

(** [generateManifest(config)], given the time of the run and the listings
    of the output tree: the document it writes to [assets-manifest.json] and
    what it logs once the document is written. *)
Definition generateManifest (now : string) (brandDirs : list BrandEntry)
  : result (Manifest * list LogEntry) :=
  let! brands := scanBrands brandDirs in
  Ok ({| generated := now;
         version := "v1";
         baseUrls :=
           [ ("github", "https://codefuturist.github.io/static-assets/");
             ("jsdelivr",
              "https://cdn.jsdelivr.net/gh/codefuturist/static-assets@main/assets/") ];
         brands := brands |},
      [ {| le_level := success; le_message := "Generated assets-manifest.json" |} ]).

(** The file records of a manifest, and its assets with their brand. *)
Definition assetsOf (m : Manifest) : list Asset :=
  b ← brands m; g ← b_assetTypes b; atg_assets g.

Definition filesOf (m : Manifest) : list AssetFile :=
  a ← assetsOf m; files a.

(* ------------------------------------------------------------------------- *)
(** ** [app/main.js]: the catalogue of the browser *)

(** An element of [allAssets]: the asset with the context of its brand. *)
Record FlatAsset := {
  fa_asset : Asset;
  fa_brandId : string;
  fa_brandName : string;
  fa_brandTags : list string;
  fa_brandAliases : list string;
  fa_assetType : string
}.

(** [init]: the three nested loops over the manifest. *)
Definition flatten (m : Manifest) : list FlatAsset :=
  b ← brands m; g ← b_assetTypes b;
  map (fun a => {| fa_asset := a;
                   fa_brandId := b_id b;
                   fa_brandName := b_name b;
                   fa_brandTags := default [] (b_tags b);
                   fa_brandAliases := default [] (b_aliases b);
                   fa_assetType := atg_type g |})
      (atg_assets g).

(** [asset.displayName || asset.name], the title of a card and of the
    modal. *)
Definition title (a : Asset) : string :=
  Js.String_of (Js.or_else (displayName a) (Some (name a))).

(** [a.displayName || a.name || a.id] *)
Definition sortName (a : Asset) : string :=
  Js.String_of (Js.or_else (Js.or_else (displayName a) (Some (name a))) (Some (id a))).

(** [typeof a.sortKey === 'number' ? a.sortKey : 9999] *)
Definition effectiveSortKey (a : Asset) : Z :=
  match sortKey a with
  | Some k => k
  | None => 9999%Z
  end.

(** [array.sort(compare)]: a stable sort; an element moves ahead of those
    the comparator puts strictly after it. *)
Fixpoint insertBy {A} (compare : A -> A -> Z) (x : A) (l : list A) : list A :=
  match l with
  | [] => [x]
  | y :: rest =>
      if (compare x y <=? 0)%Z then x :: l else y :: insertBy compare x rest
  end.

Definition sortBy {A} (compare : A -> A -> Z) (l : list A) : list A :=
  foldr (insertBy compare) [] l.

(** The comparator does not put [x] after [y]. *)
Definition notAfter {A} (compare : A -> A -> Z) (x y : A) : Prop :=
  (compare x y <= 0)%Z.

Section Catalogue.

(** [String.prototype.localeCompare], the collation of the host. *)
Variable localeCompare : string -> string -> Z.

(** The comparator handed to [filteredAssets.sort]. *)
Definition compareAssets (a b : FlatAsset) : Z :=
  let brandCmp := localeCompare (fa_brandName a) (fa_brandName b) in
  if negb (brandCmp =? 0)%Z then brandCmp
  else
    let typeCmp := localeCompare (fa_assetType a) (fa_assetType b) in
    if negb (typeCmp =? 0)%Z then typeCmp
    else
      let aKey := effectiveSortKey (fa_asset a) in
      let bKey := effectiveSortKey (fa_asset b) in
      if negb (aKey =? bKey)%Z then (aKey - bKey)%Z
      else localeCompare (sortName (fa_asset a)) (sortName (fa_asset b)).

(** The fuzzy search of the browser, [fuse.search(query).map(r => r.item)]. *)
Variable search : string -> list FlatAsset.

(** [filterAndRender]: the list handed to [renderAssets], given the trimmed
    text of the search box and the selected chips. *)
Definition filterAndRender (allAssets : list FlatAsset) (query : string)
    (selectedBrands selectedTypes : list string) : list FlatAsset :=
  let found := if String.eqb query "" then allAssets else search query in
  let ofBrands :=
    if (0 <? length selectedBrands)%nat
    then List.filter (fun a => includes selectedBrands (fa_brandId a)) found
    else found in
  let ofTypes :=
    if (0 <? length selectedTypes)%nat
    then List.filter (fun a => includes selectedTypes (fa_assetType a)) ofBrands
    else ofBrands in
  sortBy compareAssets ofTypes.

End Catalogue.

(** [updateModalUrls]: the file whose path is written into the URL fields
    for the chosen format and size ([None]: the fields are left as they
    were).  The size is [null] for the option ['original']. *)
Definition resolve (a : Asset) (fmt : string) (sz : option N) : option AssetFile :=
  match List.find (fun f => String.eqb (format f) fmt
                            && bool_decide (size f = sz)) (files a) with
  | Some f => Some f
  | None => List.find (fun f => String.eqb (format f) fmt) (files a)
  end.

(** [createAssetCard]: the file shown on the card. *)
Definition previewFile (a : Asset) : option AssetFile :=
  match List.find (fun f => String.eqb (format f) "svg") (files a) with
  | Some f => Some f
  | None =>
      match List.find (fun f => String.eqb (format f) "png"
                                && bool_decide (size f = Some 128)) (files a) with
      | Some f => Some f
      | None =>
          match List.find (fun f => String.eqb (format f) "png") (files a) with
          | Some f => Some f
          | None => head (files a)
          end
      end
  end.

(* ------------------------------------------------------------------------- *)
(** ** [scripts/generate-assets.js]: the conversion pipeline and [main] *)

Module Pipeline.

(** What a run leaves behind, in order: lines on the console and files in
    the output tree.  A file is an event once the run has seen its write
    complete; what a conversion that has not settled when the process ends
    may have put in the output tree is none. *)
Inductive Event :=
  | Logged (entry : LogEntry)
  | Wrote (outputPath : string)
  | WroteManifest (document : Manifest).

(** An [async] function: the events it caused, and whether its promise
    was fulfilled or rejected. *)
Definition M (A : Type) : Type := (list Event * result A)%type.

Definition ret {A} (a : A) : M A := ([], Ok a).
Definition lift {A} (r : result A) : M A := ([], r).
Definition log (message : string) (level : Level) : M unit :=
  ([Logged {| le_level := level; le_message := message |}], Ok tt).
Definition wrote (outputPath : string) : M unit :=
  ([Wrote outputPath], Ok tt).

Definition bindM {A B} (m : M A) (k : A -> M B) : M B :=
  match m with
  | (evs, Ok a) => let '(evs', r) := k a in (evs ++ evs', r)
  | (evs, Throw e) => (evs, Throw e)
  end.

Notation "'let*' x ':=' m 'in' k" := (bindM m (fun x => k))
  (at level 10, x name, m at level 100, k at level 200).

(** A promise that is rejected. *)
Definition rejected {A} (m : M A) : Prop := ∃ e, m.2 = Throw e.

(** No manifest is written among the events. *)
Definition writesNoManifest {A} (m : M A) : Prop :=
  Forall (fun ev => match ev with WroteManifest _ => False | _ => True end) m.1.

(** [for (const x of xs) await body(x)] *)
Fixpoint forM {A} (xs : list A) (body : A -> M unit) : M unit :=
  match xs with
  | [] => ret tt
  | x :: rest => let* _ := body x in forM rest body
  end.

Definition writtenBy {A} (m : M A) : list string :=
  omap (fun ev => match ev with Wrote p => Some p | _ => None end) m.1.

Definition loggedBy {A} (m : M A) : list LogEntry :=
  omap (fun ev => match ev with Logged e => Some e | _ => None end) m.1.

(** The manifest on disk after the events: the last one written. *)
Definition manifestBy {A} (m : M A) : option Manifest :=
  last (omap (fun ev => match ev with WroteManifest d => Some d | _ => None end) m.1).

(** The generation configuration, [assets.config.json]. *)
Record SizeConfig := {
  sc_name : option string;
  sc_width : N;
  sc_height : option N
}.

Record AssetConfig := {
  ac_sizes : option (list SizeConfig);
  ac_formats : option (list string);
  ac_generateRetina : bool
}.

Record Config := {
  sourceDir : string;
  outputDir : string;
  cfg_brands : list (string * list (string * AssetConfig));
  defaults_sizes : option (list SizeConfig);
  defaults_formats : option (list string)
}.

(** One closure pushed on [tasks]: a resize to [t_width] x [t_height] of
    [t_input], encoded as [t_format], written to [t_outputPath]. *)
Record Task := {
  t_input : string;
  t_width : N;
  t_height : option N;
  t_format : string;
  t_outputName : string;
  t_outputPath : string
}.

(** [path.join] of two segments, and the last segment of a path. *)
Definition join (dir name : string) : string := dir +:+ "/" +:+ name.

Fixpoint lastSegment_from (s acc : string) : string :=
  match s with
  | EmptyString => acc
  | String c r =>
      if Ascii.eqb c "/" then lastSegment_from r r
      else lastSegment_from r acc
  end.
Definition lastSegment (p : string) : string := lastSegment_from p p.

Fixpoint dirname_chars (l : list ascii) : list ascii :=
  match l with
  | [] => []
  | c :: r => if Ascii.eqb c "/" then r else dirname_chars r
  end.
Definition dirname (p : string) : string :=
  Js.of_list (rev (dirname_chars (rev (Js.to_list p)))).

(** [getBaseName(filePath)] *)
Definition getBaseName (filePath : string) : string :=
  Path.basename (lastSegment filePath) (Path.extname (lastSegment filePath)).

Definition decimal (n : N) : string :=
  NilEmpty.string_of_uint (N.to_uint n).

(** The collaborators of the pipeline: the file system, the image engine,
    the SVG optimiser and the clock.  The conversions of a batch run at the
    same time; [settleTime] is the time at which the engine settles each,
    whether it succeeds or fails. *)
Record World := {
  rootDir : string;
  readConfig : result Config;
  mkdir : string -> result unit;
  access : string -> bool;
  listFiles : string -> list string -> result (list string);
  optimizeSvg : string -> result string;
  writeFile : string -> result unit;
  metadataWidth : string -> result N;
  toFile : Task -> result unit;
  settleTime : Task -> N;
  now : string;
  readOutput : list string -> list BrandEntry
}.

Section Run.

Variable w : World.

(** [ensureDir(dirPath)] *)
Definition ensureDir (dirPath : string) : M unit := lift (mkdir w dirPath).

(** [processSvg(inputPath, outputPath, config)]; [optimizeSvg] reads and
    optimises the source and yields the percentage that is logged. *)
Definition processSvg (inputPath outputPath : string) : M unit :=
  let* savings := lift (optimizeSvg w inputPath) in
  let* _ := ensureDir (dirname outputPath) in
  let* _ := lift (writeFile w outputPath) in
  let* _ := wrote outputPath in
  log (lastSegment outputPath +:+ " (" +:+ savings +:+ "% smaller)") success.

(** The three nested loops of [processRasterImage] that fill [tasks]:
    the warnings they log and the tasks, both in order. *)
Definition variantTasks (inputPath outputDir baseName inputExt : string)
    (formats : list string) (generateRetina : bool) (metaWidth : N)
    (sizeConfig : SizeConfig) : list LogEntry * list Task :=
  let width := sc_width sizeConfig in
  let sizeSuffix :=
    if Js.truthy (sc_name sizeConfig)
    then "-" +:+ Js.String_of (sc_name sizeConfig) else "" in
  if metaWidth <? width
  then ([ {| le_level := warn;
             le_message := "Skipping " +:+ baseName +:+ sizeSuffix
                           +:+ " (source too small)" |} ], [])
  else
    let retinaMultipliers :=
      if generateRetina && (width * 2 <=? metaWidth) then [1; 2] else [1] in
    ([], multiplier ← retinaMultipliers;
         let actualWidth := width * multiplier in
         let actualHeight :=
           match sc_height sizeConfig with
           | Some 0 | None => None
           | Some h => Some (h * multiplier)
           end in
         let retinaSuffix :=
           if 1 <? multiplier then "@" +:+ decimal multiplier +:+ "x" else "" in
         map (fun fmt =>
                let outputFormat :=
                  if String.eqb fmt "original" then inputExt else fmt in
                let outputName :=
                  baseName +:+ sizeSuffix +:+ retinaSuffix +:+ "." +:+ outputFormat in
                {| t_input := inputPath;
                   t_width := actualWidth;
                   t_height := actualHeight;
                   t_format := outputFormat;
                   t_outputName := outputName;
                   t_outputPath := join outputDir outputName |})
             formats).

Definition planTasks (inputPath outputDir : string) (assetConfig : AssetConfig)
    (globalConfig : Config) (metaWidth : N) : list LogEntry * list Task :=
  let sizes :=
    match ac_sizes assetConfig, defaults_sizes globalConfig with
    | Some l, _ => l
    | None, Some l => l
    | None, None => []
    end in
  let formats :=
    match ac_formats assetConfig, defaults_formats globalConfig with
    | Some l, _ => l
    | None, Some l => l
    | None, None => ["original"]
    end in
  let sizeVariants :=
    if (0 <? length sizes)%nat then sizes
    else [ {| sc_name := None; sc_width := metaWidth; sc_height := None |} ] in
  let planned :=
    map (variantTasks inputPath outputDir (getBaseName inputPath)
           (Js.slice1 (Js.toLowerCase (Path.extname (lastSegment inputPath))))
           formats (ac_generateRetina assetConfig) metaWidth)
        sizeVariants in
  (planned ≫= fst, planned ≫= snd).

(** One task: the pipeline up to [toFile], then the line on the
    console. *)
Definition runTask (t : Task) : M unit :=
  let* _ := lift (toFile w t) in
  let* _ := wrote (t_outputPath t) in
  log (t_outputName t) success.

(** The order in which the conversions of a batch settle: by the time the
    world gives each, those of equal time in the order of the batch. *)
Definition settleOrder (batch : list Task) : list Task :=
  sortBy (fun a b => (Z.of_N (settleTime w a) - Z.of_N (settleTime w b))%Z) batch.

(** [await Promise.all(batch.map(fn => fn()))]: every task of the batch is
    started at once, and the tasks settle in an order that the timing
    decides.  A task that settles fulfilled has written its file and logs
    its line.  The first task that settles rejected rejects the promise of
    the batch; nothing catches the rejection before [main().catch], whose
    handler ends the process before another task settles, so that the
    tasks that have not settled by then leave no line on the console. *)
Definition promiseAll (batch : list Task) : M unit :=
  forM (settleOrder batch) runTask.

(** [for (let i = 0; i < tasks.length; i += concurrency)] *)
Definition concurrency : nat := 4.

Fixpoint runBatches (turns : nat) (tasks : list Task) : M unit :=
  match turns, tasks with
  | S turns', _ :: _ =>
      let* _ := promiseAll (take concurrency tasks) in
      runBatches turns' (drop concurrency tasks)
  | _, _ => ret tt
  end.

(** [processRasterImage(inputPath, outputDir, assetConfig, globalConfig)] *)
Definition processRasterImage (inputPath outputDir : string)
    (assetConfig : AssetConfig) (globalConfig : Config) : M unit :=
  let* metaWidth := lift (metadataWidth w inputPath) in
  let* _ := ensureDir outputDir in
  let '(warnings, tasks) :=
    planTasks inputPath outputDir assetConfig globalConfig metaWidth in
  let* _ := (map Logged warnings, Ok tt) in
  runBatches (length tasks) tasks.

(** The body of the loop of [processBrand] over the asset types. *)
Definition processType (sourceDir outputDir : string) (config : Config)
    (entry : string * AssetConfig) : M unit :=
  let '(assetType, assetConfig) := entry in
  let assetSourceDir := join sourceDir assetType in
  let assetOutputDir := join outputDir assetType in
  if negb (access w assetSourceDir)
  then log ("No source directory: " +:+ assetType +:+ "/") warn
  else
    let* _ := log (assetType +:+ "/") info in
    let* svgFiles := lift (listFiles w assetSourceDir [".svg"]) in
    let* _ :=
      forM svgFiles (fun relativePath =>
        let svgFile := join assetSourceDir relativePath in
        let* _ := processSvg svgFile (join assetOutputDir relativePath) in
        processRasterImage svgFile assetOutputDir assetConfig config) in
    let* rasterFiles :=
      lift (listFiles w assetSourceDir [".jpg"; ".jpeg"; ".png"; ".gif"]) in
    forM rasterFiles (fun relativePath =>
      processRasterImage (join assetSourceDir relativePath) assetOutputDir
                         assetConfig config).

(** [processBrand(brandName, brandConfig, config)] *)
Definition processBrand (brandName : string)
    (brandConfig : list (string * AssetConfig)) (config : Config) : M unit :=
  let sourceDir := join (join (join (rootDir w) (sourceDir config)) "brands") brandName in
  let outputDir := join (join (join (rootDir w) (outputDir config)) "brands") brandName in
  let* _ := log ("Processing brand: " +:+ brandName) info in
  forM (Object_entries brandConfig)
       (processType sourceDir outputDir config).

(** [args.includes('--brand') ? args[args.indexOf('--brand') + 1] : null] *)
Fixpoint brandFilter (args : list string) : option string :=
  match args with
  | [] => None
  | a :: rest => if String.eqb a "--brand" then head rest else brandFilter rest
  end.

(** The body of [main] before the manifest. *)
Definition convertAll (args : list string) : M Config :=
  let* _ := log "Asset Generation Pipeline" info in
  let* config := lift (readConfig w) in
  let* _ := ensureDir (join (join (rootDir w) (outputDir config)) "brands") in
  let* _ := ensureDir (join (join (rootDir w) (outputDir config)) "shared") in
  let* _ :=
    forM (Object_entries (cfg_brands config))
         (fun entry =>
            if Js.truthy (brandFilter args)
               && negb (String.eqb entry.1 (Js.String_of (brandFilter args)))
            then ret tt
            else processBrand entry.1 entry.2 config) in
  ret config.

(** [main()]: the manifest is generated from the output tree as the
    conversions left it. *)
Definition main (args : list string) : M Manifest :=
  let conversions := convertAll args in
  let* _ := conversions in
  let* _ := log "Generating asset manifest..." info in
  let* generated :=
    lift (generateManifest (now w) (readOutput w (writtenBy conversions))) in
  let* _ :=
    lift (writeFile w (join (join (rootDir w) "assets") "assets-manifest.json")) in
  let* _ := ([WroteManifest generated.1], Ok tt) in
  let* _ := (map Logged generated.2, Ok tt) in
  let* _ := log "Asset generation complete!" info in
  ret generated.1.

(** The process: [main().catch(err => { log(err.message, 'error');
    process.exit(1) })]. *)
Record Outcome := {
  exitCode : nat;
  console : list LogEntry;
  outputs : list string;
  manifest : option Manifest
}.

(** The conversions a run starts when none fails: for every brand that
    passes the filter, every asset type whose source directory exists and
    every source image of it, the planned tasks. *)
Definition listed (dir : string) (extensions : list string) : list string :=
  match listFiles w dir extensions with
  | Ok files => files
  | Throw _ => []
  end.

Definition plannedFor (inputPath outputDir : string) (assetConfig : AssetConfig)
    (globalConfig : Config) : list Task :=
  match metadataWidth w inputPath with
  | Ok metaWidth =>
      (planTasks inputPath outputDir assetConfig globalConfig metaWidth).2
  | Throw _ => []
  end.

Definition passesFilter (args : list string) (brandName : string) : bool :=
  negb (Js.truthy (brandFilter args)
        && negb (String.eqb brandName (Js.String_of (brandFilter args)))).

Definition plannedConversions (args : list string) : list Task :=
  match readConfig w with
  | Throw _ => []
  | Ok config =>
      brand ← List.filter (fun entry => passesFilter args entry.1)
                          (Object_entries (cfg_brands config));
      entry ← Object_entries brand.2;
      let assetSourceDir :=
        join (join (join (join (rootDir w) (sourceDir config)) "brands") brand.1)
             entry.1 in
      let assetOutputDir :=
        join (join (join (join (rootDir w) (outputDir config)) "brands") brand.1)
             entry.1 in
      if access w assetSourceDir
      then
        relativePath ← listed assetSourceDir [".svg"]
                       ++ listed assetSourceDir [".jpg"; ".jpeg"; ".png"; ".gif"];
        plannedFor (join assetSourceDir relativePath) assetOutputDir entry.2 config
      else []
  end.

Definition run (args : list string) : Outcome :=
  let m := main args in
  match m.2 with
  | Ok _ =>
      {| exitCode := 0; console := loggedBy m; outputs := writtenBy m;
         manifest := manifestBy m |}
  | Throw message =>
      {| exitCode := 1;
         console := loggedBy m ++ [ {| le_level := error; le_message := message |} ];
         outputs := writtenBy m;
         manifest := manifestBy m |}
  end.

End Run.

End Pipeline.

Definition fmap_ids (r : result (list Asset)) : result (list string) :=
  let! assets := r in Ok (map id assets).

(* ------------------------------------------------------------------------- *)
(** ** The grouping, read off the listing

    What the loop of [generateManifest] computes for one directory, written
    as functions of the listing; [addFiles_groupsOf] below proves that the
    loop computes exactly this. *)

(** The files of the listing that pass the extension test, parsed. *)
Definition parsedList (files : list string) : list Parsed := omap parseFile files.

Definition named (k : string) (p : Parsed) : bool := String.eqb (p_assetName p) k.

(** An asset name for which [assetGroups[assetName]] finds a member of
    [Object.prototype]. *)
Definition inherited (p : Parsed) : bool :=
  includes objectPrototypeKeys (p_assetName p).

Definition typeErrorMessage : string :=
  "TypeError: Cannot read properties of undefined (reading 'add')".

Section Grouping.

Variables brandId assetType : string.

Definition buildGroup (k : string) (entries : list Parsed) : Group :=
  fold_left (fun g p => addTo brandId assetType p g) entries
            (newGroup brandId assetType k).

Definition groupsOf (ps : list Parsed) : list (string * Group) :=
  map (fun k => (k, buildGroup k (List.filter (named k) ps)))
      (set_of (map p_assetName ps)).

End Grouping.

(* ------------------------------------------------------------------------- *)
(** ** Declared vocabularies and the inputs of the examples *)

(** [AssetFormat] and [AssetType] of [lib/types/manifest.ts]. *)
Definition AssetFormat : list string := ["svg"; "png"; "webp"; "avif"; "jpg"].
Definition AssetType : list string := ["logos"; "icons"; "images"].

Definition hasKnownExtension (file : string) : bool :=
  includes knownExtensions (Js.toLowerCase (Path.extname file)).

(** The names of a listing that the loop files under the asset [k]. *)
Definition filedUnder (k : string) (file : string) : bool :=
  match parseFile file with
  | Some p => named k p
  | None => false
  end.

(** Two assets that differ at most in the order of their [files]. *)
Definition asset_eqv (a a' : Asset) : Prop :=
  id a = id a' ∧ name a = name a' ∧ displayName a = displayName a'
  ∧ description a = description a' ∧ usage a = usage a' ∧ tags a = tags a'
  ∧ aliases a = aliases a' ∧ sortKey a = sortKey a' ∧ type a = type a'
  ∧ basePath a = basePath a' ∧ sizes a = sizes a' ∧ formats a = formats a'
  ∧ files a ≡ₚ files a'.

Definition dir (name : string) (files : list string) : TypeEntry :=
  {| te_name := name; te_isDirectory := true; te_files := files |}.

Definition brandDir (name : string) (entries : list TypeEntry) : BrandEntry :=
  {| be_name := name; be_isDirectory := true; be_entries := entries |}.

Definition emptyManifest : Manifest :=
  {| generated := ""; version := ""; baseUrls := []; brands := [] |}.

(** The manifest of a tree, for the examples ([emptyManifest] when the walk
    throws). *)
Definition manifestOf (now : string) (brandDirs : list BrandEntry) : Manifest :=
  match generateManifest now brandDirs with
  | Ok (m, _) => m
  | Throw _ => emptyManifest
  end.

Definition epoch : string := "1970-01-01T00:00:00.000Z".

(** The end-to-end scenario: brand [acme], type [logos]. *)
Definition scenarioTree : list BrandEntry :=
  [ brandDir "acme"
      [ dir "logos" ["logo.svg"; "logo-32.png"; "logo-64.png"; "logo-64.webp"] ] ].

Definition scenarioLogo : Asset :=
  {| id := "logo"; name := "Logo"; displayName := None; description := None;
     usage := None; tags := None; aliases := None; sortKey := None;
     type := "logos"; basePath := "v1/brands/acme/logos/logo";
     sizes := [32; 64]; formats := ["png"; "svg"; "webp"];
     files :=
       [ {| file := "logo.svg"; format := "svg"; size := None;
            path := "v1/brands/acme/logos/logo.svg" |};
         {| file := "logo-32.png"; format := "png"; size := Some 32;
            path := "v1/brands/acme/logos/logo-32.png" |};
         {| file := "logo-64.png"; format := "png"; size := Some 64;
            path := "v1/brands/acme/logos/logo-64.png" |};
         {| file := "logo-64.webp"; format := "webp"; size := Some 64;
            path := "v1/brands/acme/logos/logo-64.webp" |} ] |}.

Definition scenarioManifest : Manifest :=
  {| generated := epoch;
     version := "v1";
     baseUrls :=
       [ ("github", "https://codefuturist.github.io/static-assets/");
         ("jsdelivr",
          "https://cdn.jsdelivr.net/gh/codefuturist/static-assets@main/assets/") ];
     brands :=
       [ {| b_id := "acme"; b_name := "Acme"; b_tags := None; b_aliases := None;
            b_assetTypes :=
              [ {| atg_type := "logos"; atg_assets := [scenarioLogo] |} ] |} ] |}.

Definition generatedLog : list LogEntry :=
  [ {| le_level := success; le_message := "Generated assets-manifest.json" |} ].

(** The type directories of a brand that yield a type group. *)
Definition yieldsGroup (brandId : string) (te : TypeEntry) : bool :=
  te_isDirectory te
  && match groupAssets brandId (te_name te) (te_files te) with
     | Ok (_ :: _) => true
     | _ => false
     end.

(** A brand directory none of whose type directories holds a name with an
    accepted extension. *)
Definition barren (be : BrandEntry) : Prop :=
  ∀ te f, te ∈ be_entries be → f ∈ te_files te → hasKnownExtension f = false.

(** A listing in which two names denote the same variant of [logo], one
    with a [.jpeg] source kept in its original format and a stray text
    file, and one whose names are not in alphabetical order. *)
Definition clashTree : list BrandEntry :=
  [ brandDir "acme" [ dir "logos" ["logo-32.png"; "logo-032.png"] ] ].

Definition jpegTree : list BrandEntry :=
  [ brandDir "acme" [ dir "images" ["photo.jpeg"; "notes.txt"] ] ].

Definition unsortedTree : list BrandEntry :=
  [ brandDir "acme" [ dir "icons" ["b.png"; "a.png"] ] ].

Definition resortedTree : list BrandEntry :=
  [ brandDir "acme" [ dir "icons" ["a.png"; "b.png"] ] ].

Definition typesTree : list BrandEntry :=
  [ brandDir "acme"
      [ dir "images" ["photo.jpg"]; dir "fonts" ["specimen.png"];
        dir "logos" ["logo.svg"] ] ].

Definition barrenTree : list BrandEntry :=
  [ brandDir "ghost" [ dir "logos" ["README.md"]; dir "icons" [] ];
    brandDir "acme" [ dir "logos" ["logo.svg"] ] ].

Definition emptyBrand : Brand :=
  {| b_id := ""; b_name := ""; b_tags := None; b_aliases := None;
     b_assetTypes := [] |}.

Definition barrenManifest : Manifest :=
  Eval vm_compute in manifestOf epoch barrenTree.

Definition acmeBrand : Brand :=
  Eval vm_compute in hd emptyBrand (brands barrenManifest).

(** Assets as a directory listing that is not in alphabetical order gives
    them: the widest PNG first, in one case with the original among them. *)
Definition emptyAsset : Asset :=
  {| id := ""; name := ""; displayName := None; description := None;
     usage := None; tags := None; aliases := None; sortKey := None;
     type := ""; basePath := ""; sizes := []; formats := []; files := [] |}.

Definition assetOf (brandId assetType : string) (files : list string) : Asset :=
  match groupAssets brandId assetType files with
  | Ok (a :: _) => a
  | _ => emptyAsset
  end.

Definition widestFirst : Asset :=
  Eval vm_compute in
    assetOf "acme" "icons" ["mark-64.png"; "mark-32.png"; "mark-16.webp"].

Definition originalLater : Asset :=
  Eval vm_compute in
    assetOf "acme" "icons" ["mark-64.png"; "mark.png"; "mark-16.webp"].

(** Two assets of one brand and type, one with a sort key above the
    stand-in for a missing one. *)
Definition withSortKey (k : option Z) (a : Asset) : Asset :=
  {| id := id a; name := name a; displayName := displayName a;
     description := description a; usage := usage a; tags := tags a;
     aliases := aliases a; sortKey := k; type := type a;
     basePath := basePath a; sizes := sizes a; formats := formats a;
     files := files a |}.

Definition inAcmeLogos (a : Asset) : FlatAsset :=
  {| fa_asset := a; fa_brandId := "acme"; fa_brandName := "Acme";
     fa_brandTags := []; fa_brandAliases := []; fa_assetType := "logos" |}.

Definition keyedLate : FlatAsset :=
  inAcmeLogos (withSortKey (Some 10000%Z) scenarioLogo).

Definition unkeyed : FlatAsset := inAcmeLogos scenarioLogo.

(** A collation for the examples: the order of the code units. *)
Definition codeUnitCompare (s t : string) : Z :=
  match String.compare s t with
  | Eq => 0%Z
  | Lt => (-1)%Z
  | Gt => 1%Z
  end.

(** A run of the pipeline: one brand, one asset type, one source image of
    width 512, three sizes in two formats, and an encoder that fails on the
    output named [failing].  The encoder is quick to fail, quicker on a
    small PNG, and slowest on WebP. *)
Definition demoSizes : list Pipeline.SizeConfig :=
  [ {| Pipeline.sc_name := Some "32"; Pipeline.sc_width := 32;
       Pipeline.sc_height := None |};
    {| Pipeline.sc_name := Some "64"; Pipeline.sc_width := 64;
       Pipeline.sc_height := None |};
    {| Pipeline.sc_name := Some "128"; Pipeline.sc_width := 128;
       Pipeline.sc_height := None |} ].

Definition demoConfig : Pipeline.Config :=
  {| Pipeline.sourceDir := "_source";
     Pipeline.outputDir := "assets/v1";
     Pipeline.cfg_brands :=
       [ ("acme",
          [ ("logos",
             {| Pipeline.ac_sizes := Some demoSizes;
                Pipeline.ac_formats := Some ["png"; "webp"];
                Pipeline.ac_generateRetina := false |}) ]) ];
     Pipeline.defaults_sizes := None;
     Pipeline.defaults_formats := None |}.

Definition demoWorld (failing : string) : Pipeline.World :=
  {| Pipeline.rootDir := "/repo";
     Pipeline.readConfig := Ok demoConfig;
     Pipeline.mkdir := fun _ => Ok tt;
     Pipeline.access := fun _ => true;
     Pipeline.listFiles := fun _ extensions =>
       if includes extensions ".png" then Ok ["logo.png"] else Ok [];
     Pipeline.optimizeSvg := fun _ => Ok "10.0";
     Pipeline.writeFile := fun _ => Ok tt;
     Pipeline.metadataWidth := fun _ => Ok 512;
     Pipeline.toFile := fun t =>
       if String.eqb (Pipeline.t_outputName t) failing
       then Throw "Input buffer contains unsupported image format"
       else Ok tt;
     Pipeline.settleTime := fun t =>
       if String.eqb (Pipeline.t_outputName t) failing then 1
       else if String.eqb (Pipeline.t_format t) "webp" then 3
       else if Pipeline.t_width t <=? 32 then 0 else 2;
     Pipeline.now := epoch;
     Pipeline.readOutput := fun written =>
       [ brandDir "acme" [ dir "logos" (map Pipeline.lastSegment written) ] ] |}.

Definition failingTask : Pipeline.Task :=
  {| Pipeline.t_input := "/repo/_source/brands/acme/logos/logo.png";
     Pipeline.t_width := 32;
     Pipeline.t_height := None;
     Pipeline.t_format := "webp";
     Pipeline.t_outputName := "logo-32.webp";
     Pipeline.t_outputPath := "/repo/assets/v1/brands/acme/logos/logo-32.webp" |}.

(** The group and the brand of the end-to-end scenario. *)
Definition scenarioGroup : AssetTypeGroup :=
  {| atg_type := "logos"; atg_assets := [scenarioLogo] |}.

Definition scenarioBrand : Brand :=
  {| b_id := "acme"; b_name := "Acme"; b_tags := None; b_aliases := None;
     b_assetTypes := [scenarioGroup] |}.

(** No name of any type directory of any brand directory parses to an id
    that [Object.prototype] holds. *)
Definition noInheritedId (brandDirs : list BrandEntry) : Prop :=
  ∀ be te f p,
    be ∈ brandDirs → be_isDirectory be = true →
    te ∈ be_entries be → te_isDirectory te = true →
    f ∈ te_files te → parseFile f = Some p → inherited p = false.

(** The doubled variant of width 32 of the source of [failingTask]. *)
Definition retinaTask : Pipeline.Task :=
  {| Pipeline.t_input := "/repo/_source/brands/acme/logos/logo.png";
     Pipeline.t_width := 64;
     Pipeline.t_height := None;
     Pipeline.t_format := "png";
     Pipeline.t_outputName := "logo-32@2x.png";
     Pipeline.t_outputPath := "/repo/assets/v1/brands/acme/logos/logo-32@2x.png" |}.

(** The events of a conversion that succeeds: the file, then the line on
    the console. *)
Definition taskEvents (t : Pipeline.Task) : list Pipeline.Event :=
  [ Pipeline.Wrote (Pipeline.t_outputPath t);
    Pipeline.Logged {| le_level := success;
                       le_message := Pipeline.t_outputName t |} ].

Definition converts (w : Pipeline.World) (t : Pipeline.Task) : bool :=
  is_ok (Pipeline.toFile w t).

(** [meta.json], the metadata of a brand, as [scripts/new-brand] writes it
    and the contributing guide describes it: the entries of the assets
    stand under [assets.<type>.<id>]. *)
Record AssetMeta := {
  am_displayName : option string;
  am_description : option string;
  am_usage : option string;
  am_tags : option (list string);
  am_aliases : option (list string);
  am_sortKey : option Z
}.

Record BrandMeta := {
  bm_displayName : option string;
  bm_description : option string;
  bm_tags : option (list string);
  bm_aliases : option (list string)
}.

Record MetaDocument := {
  md_brand : option BrandMeta;
  md_assets : list (string * list (string * AssetMeta))
}.

(** The metadata entry of an asset, where [sourceMeta brandId] is the
    document of [_source/brands/<brandId>/meta.json], if the brand has
    one. *)
Definition metadataEntry (sourceMeta : string -> option MetaDocument)
    (brandId assetType assetId : string) : option AssetMeta :=
  match sourceMeta brandId with
  | None => None
  | Some document =>
      match own (md_assets document) assetType with
      | None => None
      | Some entries => own entries assetId
      end
  end.

(** The metadata that [scripts/new-brand] writes for a new brand. *)
Definition starterMeta (brandTitle : string) : MetaDocument :=
  {| md_brand :=
       Some {| bm_displayName := Some brandTitle; bm_description := Some "";
               bm_tags := Some []; bm_aliases := Some [] |};
     md_assets :=
       [ ("logos",
          [ ("logo",
             {| am_displayName := Some "Primary Logo"; am_description := None;
                am_usage := None; am_tags := Some ["primary"];
                am_aliases := Some ["logo"]; am_sortKey := Some 10%Z |});
            ("logo-on-brand",
             {| am_displayName := Some "Logo (On Brand)"; am_description := None;
                am_usage := None; am_tags := Some ["on-brand"];
                am_aliases := Some ["logo on brand"]; am_sortKey := Some 20%Z |}) ]);
         ("icons",
          [ ("icon",
             {| am_displayName := Some "App Icon"; am_description := None;
                am_usage := None; am_tags := Some ["icon"];
                am_aliases := Some ["favicon"]; am_sortKey := Some 10%Z |}) ]) ] |}.

(** A source tree in which only the brand [initech] has metadata. *)
Definition initechMeta (brandId : string) : option MetaDocument :=
  if String.eqb brandId "initech" then Some (starterMeta "Initech") else None.

(** The failures of the collaborators: a message with which the
    configuration, the file system, the optimiser or the image engine
    answers some request. *)
Definition thrownBy (w : Pipeline.World) (message : string) : Prop :=
  Pipeline.readConfig w = Throw message
  ∨ (∃ dirPath, Pipeline.mkdir w dirPath = Throw message)
  ∨ (∃ dir extensions, Pipeline.listFiles w dir extensions = Throw message)
  ∨ (∃ inputPath, Pipeline.optimizeSvg w inputPath = Throw message)
  ∨ (∃ outputPath, Pipeline.writeFile w outputPath = Throw message)
  ∨ (∃ inputPath, Pipeline.metadataWidth w inputPath = Throw message)
  ∨ (∃ t, Pipeline.toFile w t = Throw message).

(** A promise that is rejected, if at all, with a failure of a
    collaborator. *)
Definition rejectsAsWorld (w : Pipeline.World) {A} (m : Pipeline.M A) : Prop :=
  ∀ message, m.2 = Throw message → thrownBy w message.

(* ------------------------------------------------------------------------- *)
(** ** [app/main.js]: the chips, the modal and the helpers *)

(** [set.delete(value)] *)
Definition set_delete (s : list string) (x : string) : list string :=
  List.filter (fun y => negb (String.eqb y x)) s.

(** The click handler of a chip made by [createFilterChip]:
    [set.has(value) ? set.delete(value) : set.add(value)]. *)
Definition toggleChip (selected : list string) (value : string) : list string :=
  if includes selected value then set_delete selected value
  else set_add selected value.

(** [setupFilters]: the values of the type chips,
    [[...new Set(allAssets.map(a => a.assetType))].sort()], and the values
    of the brand chips, one for each brand of the manifest. *)
Definition typeChips (allAssets : list FlatAsset) : list string :=
  sort_strings (set_of (map fa_assetType allAssets)).

Definition brandChips (m : Manifest) : list string := map b_id (brands m).

(** [openModal(brandId, assetType, assetId)]: the asset that becomes
    [currentAsset], [undefined] when none has the three ids. *)
Definition openModal (allAssets : list FlatAsset)
    (brandId assetType assetId : string) : option FlatAsset :=
  List.find (fun a => String.eqb (fa_brandId a) brandId
                      && String.eqb (fa_assetType a) assetType
                      && String.eqb (id (fa_asset a)) assetId) allAssets.

(** [openModal]: the sizes behind the options of the size dropdown,
    [sizes.length > 0 ? sizes : [null]], and the value of an option,
    [s || 'original'] in a template literal. *)
Definition sizeOptions (a : Asset) : list (option N) :=
  if (0 <? length (sizes a))%nat then map Some (sizes a) else [None].

Definition sizeOptionValue (s : option N) : string :=
  match s with
  | Some 0 | None => "original"
  | Some n => Pipeline.decimal n
  end.

(** [updateModalUrls]: [sizeVal === 'original' ? null : parseInt(sizeVal, 10)],
    on the value of an option: ['original'] or a run of digits. *)
Definition selectedSize (sizeVal : string) : option N :=
  if String.eqb sizeVal "original" then None else Some (Js.parseInt sizeVal).

(** [createAssetCard]: the two sizes named on the card,
    [sizes[0]] and [sizes[sizes.length - 1]]; none for the text ['Vector']
    of an asset without sizes. *)
Definition sizeRange (a : Asset) : option (N * N) :=
  match sizes a with
  | [] => None
  | first :: _ => Some (first, default first (last (sizes a)))
  end.

(** [BASE_URLS.github + file.path], the value of the first URL field. *)
Definition githubUrl (f : AssetFile) : string :=
  "https://codefuturist.github.io/static-assets/" +:+ path f.

(** [downloadAsset]: [url.split('/').pop()] *)
Definition downloadName (url : string) : string :=
  default "" (last (Js.split "/" url)).

(** [str.replaceAll(pattern, replacement)] for a one-character pattern. *)
Fixpoint replaceAll (pattern : ascii) (replacement : string) (s : string) : string :=
  match s with
  | EmptyString => EmptyString
  | String c r =>
      if Ascii.eqb c pattern
      then replacement +:+ replaceAll pattern replacement r
      else String c (replaceAll pattern replacement r)
  end.

(** [escapeHtml(str)]: the five replacements, in the order of the source. *)
Definition escapeHtml (str : string) : string :=
  replaceAll "'" "&#39;"
    (replaceAll "034" "&quot;"
       (replaceAll ">" "&gt;"
          (replaceAll "<" "&lt;"
             (replaceAll "&" "&amp;" str)))).

(** The characters that open or close markup or an attribute value. *)
Definition markup (c : ascii) : bool :=
  Ascii.eqb c "<" || Ascii.eqb c ">" || Ascii.eqb c "034" || Ascii.eqb c "'".

(** What [escapeHtml] puts for one character. *)
Definition escaped (c : ascii) : string :=
  if Ascii.eqb c "&" then "&amp;"
  else if Ascii.eqb c "<" then "&lt;"
  else if Ascii.eqb c ">" then "&gt;"
  else if Ascii.eqb c "034" then "&quot;"
  else if Ascii.eqb c "'" then "&#39;"
  else String c "".

(** [order.indexOf(x)], [-1] when [x] is not in [order]. *)
Fixpoint indexOf (l : list string) (x : string) : Z :=
  match l with
  | [] => (-1)%Z
  | y :: rest =>
      if String.eqb y x then 0%Z
      else let i := indexOf rest x in
           if (i =? -1)%Z then (-1)%Z else (i + 1)%Z
  end.

(** [cyclePreviewBg]: the next value of [previewBg]. *)
Definition previewOrder : list string := ["checkerboard"; "light"; "dark"].

Definition cyclePreviewBg (previewBg : string) : string :=
  let idx := indexOf previewOrder previewBg in
  nth (Z.to_nat ((idx + 1) mod Z.of_nat (length previewOrder))%Z)
      previewOrder "undefined".

(** [getPreviewBgClass()] *)
Definition getPreviewBgClass (previewBg : string) : string :=
  if String.eqb previewBg "light" then "bg-white"
  else if String.eqb previewBg "dark" then "bg-gray-900"
  else "checkerboard".

(** The trees whose directories hold each name once, as a file system
    has it. *)
Definition distinctNames (brandDirs : list BrandEntry) : Prop :=
  NoDup (map be_name brandDirs)
  ∧ ∀ be, be ∈ brandDirs → NoDup (map te_name (be_entries be)).

(* ========================================================================= *)
(** * Sanity checks of the embedding on concrete inputs *)

Example titleCase_logo_on_brand : titleCase "logo-on-brand" = "Logo On Brand".
Proof. reflexivity. Qed.

Example extname_examples :
  map Path.extname ["logo-128.png"; "logo.PNG"; ".png"; "README"; "a.b.svg"; ".."; "x."]
  = [".png"; ".PNG"; ""; ""; ".svg"; ""; "."].
Proof. reflexivity. Qed.

Example basename_examples :
  map (fun f => Path.basename f (Js.toLowerCase (Path.extname f)))
      ["logo-128.png"; "logo-12.PNG"; "a.b.svg"]
  = ["logo-128"; "logo-12.PNG"; "a.b"].
Proof. reflexivity. Qed.

Example sizeMatch_examples :
  map sizeMatch ["logo-on-brand-128"; "logo-128"; "logo"; "-128"; "logo-"; "icon-2024"; "a-1-2"]
  = [Some ("logo-on-brand", "128"); Some ("logo", "128"); None; None; None;
     Some ("icon", "2024"); Some ("a-1", "2")].
Proof. reflexivity. Qed.

Example groupAssets_scenario :
  groupAssets "acme" "logos" ["logo.svg"; "logo-32.png"; "logo-64.png"; "logo-64.webp"; "notes.txt"]
  = Ok [ {| id := "logo"; name := "Logo"; displayName := None; description := None;
            usage := None; tags := None; aliases := None; sortKey := None;
            type := "logos"; basePath := "v1/brands/acme/logos/logo";
            sizes := [32; 64]; formats := ["png"; "svg"; "webp"];
            files :=
              [ {| file := "logo.svg"; format := "svg"; size := None;
                   path := "v1/brands/acme/logos/logo.svg" |};
                {| file := "logo-32.png"; format := "png"; size := Some 32;
                   path := "v1/brands/acme/logos/logo-32.png" |};
                {| file := "logo-64.png"; format := "png"; size := Some 64;
                   path := "v1/brands/acme/logos/logo-64.png" |};
                {| file := "logo-64.webp"; format := "webp"; size := Some 64;
                   path := "v1/brands/acme/logos/logo-64.webp" |} ] |} ].
Proof. vm_compute. reflexivity. Qed.

Example generateManifest_scenario :
  generateManifest epoch scenarioTree = Ok (scenarioManifest, generatedLog).
Proof. vm_compute. reflexivity. Qed.

Example groupAssets_order :
  (fmap_ids (groupAssets "acme" "logos" ["b.png"; "a.png"; "7.png"; "10.svg"; "007.png"]))
  = Ok ["7"; "10"; "b"; "a"; "007"].
Proof. vm_compute. reflexivity. Qed.

Example groupAssets_throws :
  is_ok (groupAssets "acme" "logos" ["logo.svg"; "constructor-64.png"]) = false.
Proof. vm_compute. reflexivity. Qed.

(* ========================================================================= *)
(** * Facts about the containers *)

Section SetFacts.

Context {A : Type} `{EqDecision A}.

Lemma set_of_snoc (l : list A) (x : A) :
  set_of (l ++ [x]) = set_add (set_of l) x.
Proof. unfold set_of. by rewrite fold_left_app. Qed.

Lemma elem_of_set_add (s : list A) (x y : A) :
  y ∈ set_add s x ↔ y ∈ s ∨ y = x.
Proof.
  unfold set_add. case_decide as Hx.
  - split; [by left | intros [?| ->]; done].
  - rewrite elem_of_app, list_elem_of_singleton. done.
Qed.

Lemma NoDup_set_add (s : list A) (x : A) : NoDup s → NoDup (set_add s x).
Proof.
  intros Hs. unfold set_add. case_decide as Hx; [done|].
  apply NoDup_app. split_and!; [done | | apply NoDup_singleton].
  intros y Hy ->%list_elem_of_singleton. done.
Qed.

Lemma elem_of_set_of (l : list A) (y : A) : y ∈ set_of l ↔ y ∈ l.
Proof.
  induction l as [|x l IH] using rev_ind.
  - done.
  - rewrite set_of_snoc, elem_of_set_add, IH, elem_of_app, list_elem_of_singleton.
    done.
Qed.

Lemma NoDup_set_of (l : list A) : NoDup (set_of l).
Proof.
  induction l as [|x l IH] using rev_ind.
  - constructor.
  - rewrite set_of_snoc. by apply NoDup_set_add.
Qed.

Lemma set_of_Permutation (l l' : list A) : l ≡ₚ l' → set_of l ≡ₚ set_of l'.
Proof.
  intros Hl. apply NoDup_Permutation; [apply NoDup_set_of..|].
  intros y. rewrite !elem_of_set_of. by rewrite Hl.
Qed.

Lemma set_of_nil_inv (l : list A) : set_of l = [] → l = [].
Proof.
  destruct l as [|x l]; [done|]. intros Hs.
  assert (x ∈ set_of (x :: l)) as Hx by (apply elem_of_set_of; left).
  rewrite Hs in Hx. by apply elem_of_nil in Hx.
Qed.

End SetFacts.

(** The order of [Array.prototype.sort()] on strings is a total order. *)
Lemma string_le_iff (a b : string) :
  string_le a b ↔ a = b ∨ OrderedTypeEx.String_as_OT.lt a b.
Proof.
  unfold string_le, String.leb.
  rewrite <- OrderedTypeEx.String_as_OT.cmp_lt, <- OrderedTypeEx.String_as_OT.cmp_eq.
  unfold OrderedTypeEx.String_as_OT.cmp.
  destruct (String.compare a b); intuition congruence.
Qed.

#[global] Instance string_le_trans : Transitive string_le.
Proof.
  intros a b c. rewrite !string_le_iff.
  intros [->|Hab] [->|Hbc]; eauto.
  right. by eapply OrderedTypeEx.String_as_OT.lt_trans.
Qed.

#[global] Instance string_le_total : Total string_le.
Proof. intros a b. apply String.leb_total. Qed.

#[global] Instance string_le_antisym : AntiSymm (=) string_le.
Proof. intros a b. apply String.leb_antisym. Qed.

Lemma sort_strings_Permutation (l l' : list string) :
  l ≡ₚ l' → sort_strings l = sort_strings l'.
Proof.
  intros Hl. unfold sort_strings.
  apply (Sorted_unique string_le); [apply Sorted_merge_sort; apply _..|].
  by rewrite !merge_sort_Permutation.
Qed.

Lemma sort_numbers_Permutation (l l' : list N) :
  l ≡ₚ l' → sort_numbers l = sort_numbers l'.
Proof.
  intros Hl. unfold sort_numbers.
  apply (Sorted_unique N.le); [apply Sorted_merge_sort; apply _..|].
  by rewrite !merge_sort_Permutation.
Qed.

(** ** Objects used as maps *)

Lemma ownKeys_Permutation (keys : list string) : ownKeys keys ≡ₚ keys.
Proof.
  unfold ownKeys. rewrite merge_sort_Permutation.
  induction keys as [|k keys IH]; [done|].
  cbn. destruct (isArrayIndex k); cbn.
  - by rewrite IH.
  - by rewrite <- Permutation_middle, IH.
Qed.

Lemma elem_of_ownKeys (keys : list string) (k : string) :
  k ∈ ownKeys keys ↔ k ∈ keys.
Proof. by rewrite ownKeys_Permutation. Qed.

Lemma ownKeys_named (keys : list string) :
  Forall (fun k => isArrayIndex k = false) keys → ownKeys keys = keys.
Proof.
  intros Hnamed. unfold ownKeys.
  assert (List.filter isArrayIndex keys = []
          ∧ List.filter (fun k => negb (isArrayIndex k)) keys = keys) as [-> ->].
  { induction Hnamed as [|k keys Hk _ [IH1 IH2]]; [done|].
    cbn. rewrite Hk. cbn. by rewrite IH1, IH2. }
  done.
Qed.

Lemma own_map {V} (F : string → V) (keys : list string) (k : string) :
  own (map (fun k' => (k', F k')) keys) k
  = if decide (k ∈ keys) then Some (F k) else None.
Proof.
  induction keys as [|k0 keys IH]; cbn.
  - by rewrite decide_False by apply not_elem_of_nil.
  - destruct (String.eqb_spec k0 k) as [->|Hne].
    + rewrite decide_True by left. done.
    + rewrite IH. repeat case_decide; try done.
      * exfalso. rename select (k ∉ k0 :: keys) into Hn. apply Hn. by right.
      * exfalso. rename select (k ∈ k0 :: keys) into Hin.
        apply elem_of_cons in Hin as [->|?]; done.
Qed.

Lemma Object_values_map {V} (F : string → V) (keys : list string) :
  Object_values (map (fun k => (k, F k)) keys) = map F (ownKeys keys).
Proof.
  unfold Object_values. rewrite map_map. cbn. rewrite map_id.
  assert (Forall (fun k => k ∈ keys) (ownKeys keys)) as Hall.
  { apply Forall_forall. intros k. by rewrite elem_of_ownKeys. }
  induction Hall as [|k ks Hk _ IH]; [done|].
  cbn. rewrite own_map, decide_True by done. cbn. by rewrite IH.
Qed.

Lemma update_map {V} (F : string → V) (keys : list string) (k : string) (f : V → V) :
  NoDup keys →
  update (map (fun k' => (k', F k')) keys) k f
  = map (fun k' => (k', if String.eqb k' k then f (F k') else F k')) keys.
Proof.
  induction 1 as [|k0 keys Hk0 _ IH]; cbn; [done|].
  destruct (String.eqb_spec k0 k) as [->|Hne].
  - f_equal. apply map_ext_in. intros k' Hk'%list_elem_of_In.
    destruct (String.eqb_spec k' k) as [->|]; done.
  - by rewrite IH.
Qed.

(* ========================================================================= *)
(** * The loop of [generateManifest] computes the grouping *)

Section GroupingFacts.

Variables brandId assetType : string.

Lemma buildGroup_snoc k entries p :
  buildGroup brandId assetType k (entries ++ [p])
  = addTo brandId assetType p (buildGroup brandId assetType k entries).
Proof. unfold buildGroup. by rewrite fold_left_app. Qed.

Lemma buildGroup_fields k entries :
  let g := buildGroup brandId assetType k entries in
  g_id g = k
  ∧ g_name g = titleCase k
  ∧ g_type g = assetType
  ∧ g_basePath g = dirPath brandId assetType +:+ k
  ∧ g_sizes g = set_of (omap (fun p => truthy_size (p_size p)) entries)
  ∧ g_formats g = set_of (map (fun p => Js.slice1 (p_ext p)) entries)
  ∧ g_files g = map (fileRecord brandId assetType) entries.
Proof.
  induction entries as [|p entries IH] using rev_ind; [done|].
  destruct IH as (Hid & Hname & Hty & Hbase & Hsizes & Hformats & Hfiles).
  rewrite buildGroup_snoc. unfold addTo.
  cbn [g_id g_name g_type g_basePath g_sizes g_formats g_files fileRecord format].
  rewrite Hid, Hname, Hty, Hbase, Hsizes, Hformats, Hfiles.
  split_and!; try done.
  - rewrite omap_app.
    change (omap (fun p => truthy_size (p_size p)) [p])
      with (match truthy_size (p_size p) with Some n => [n] | None => [] end).
    destruct (truthy_size (p_size p)) as [n|].
    + by rewrite set_of_snoc.
    + by rewrite app_nil_r.
  - rewrite map_app. cbn [map]. by rewrite set_of_snoc.
  - by rewrite map_app.
Qed.

Lemma filter_named_absent k ps :
  k ∉ map p_assetName ps → List.filter (named k) ps = [].
Proof.
  induction ps as [|p ps IH]; cbn; [done|]. intros Hk.
  unfold named at 1. destruct (String.eqb_spec (p_assetName p) k) as [<-|_].
  - exfalso. apply Hk. left.
  - apply IH. intros ?. apply Hk. by right.
Qed.

Lemma groupsOf_snoc ps p :
  groupsOf brandId assetType (ps ++ [p])
  = if decide (p_assetName p ∈ map p_assetName ps)
    then update (groupsOf brandId assetType ps) (p_assetName p)
                (addTo brandId assetType p)
    else groupsOf brandId assetType ps
         ++ [(p_assetName p,
              addTo brandId assetType p (newGroup brandId assetType (p_assetName p)))].
Proof.
  unfold groupsOf. rewrite map_app. cbn [map].
  rewrite set_of_snoc. unfold set_add.
  case_decide as Hset; case_decide as Hin;
    try (exfalso; rewrite elem_of_set_of in Hset; done).
  - rewrite update_map by apply NoDup_set_of.
    apply map_ext. intros k. f_equal.
    rewrite List.filter_app. cbn. unfold named at 2.
    rewrite String.eqb_sym.
    destruct (String.eqb_spec k (p_assetName p)) as [->|Hne].
    + by rewrite buildGroup_snoc.
    + by rewrite app_nil_r.
  - rewrite map_app. cbn [map]. f_equal.
    + apply map_ext_in. intros k Hk%list_elem_of_In. f_equal.
      rewrite elem_of_set_of in Hk.
      rewrite List.filter_app. cbn. unfold named at 2.
      destruct (String.eqb_spec (p_assetName p) k) as [Heq|Hne].
      * exfalso. apply Hin. by rewrite Heq.
      * by rewrite app_nil_r.
    + do 2 f_equal. rewrite List.filter_app. cbn. unfold named at 2.
      rewrite String.eqb_refl, filter_named_absent by done. done.
Qed.

Lemma inherited_named ps p :
  existsb inherited ps = false →
  p_assetName p ∈ map p_assetName ps → inherited p = false.
Proof.
  intros Hps (q & Hq & Hin)%list_elem_of_fmap.
  destruct (inherited p) eqn:Hp; [|done].
  assert (existsb inherited ps = true) as Hex; [|congruence].
  apply existsb_exists. exists q. split; [by apply list_elem_of_In|].
  unfold inherited in *. by rewrite <- Hq.
Qed.

Lemma parsedList_cons f files :
  parsedList (f :: files)
  = match parseFile f with
    | Some p => p :: parsedList files
    | None => parsedList files
    end.
Proof. reflexivity. Qed.

Lemma addFiles_groupsOf files ps :
  existsb inherited ps = false →
  addFiles brandId assetType (groupsOf brandId assetType ps) files
  = if existsb inherited (parsedList files)
    then Throw typeErrorMessage
    else Ok (groupsOf brandId assetType (ps ++ parsedList files)).
Proof.
  revert ps. induction files as [|f files IH]; intros ps Hps.
  - cbn. by rewrite app_nil_r.
  - cbn [addFiles]. unfold addFile. rewrite parsedList_cons.
    destruct (parseFile f) as [p|]; cbn [bind]; [|by apply IH].
    unfold groupsOf at 1. rewrite own_map.
    fold (groupsOf brandId assetType ps). cbn [app existsb].
    specialize (IH (ps ++ [p])). rewrite groupsOf_snoc in IH.
    rewrite <- (assoc_L _ ps [p]) in IH. cbn [app] in IH.
    destruct (decide (p_assetName p ∈ map p_assetName ps)) as [Hin|Hin].
    + rewrite decide_True by (by apply elem_of_set_of).
      rewrite (inherited_named ps p) by done. cbn.
      apply IH. rewrite existsb_app. cbn [existsb].
      by rewrite Hps, (inherited_named ps p).
    + rewrite decide_False by (by rewrite elem_of_set_of).
      fold (inherited p). destruct (inherited p) eqn:Hp; cbn; [done|].
      apply IH. rewrite existsb_app. cbn [existsb]. by rewrite Hps, Hp.
Qed.

(** The assets of one directory, as a function of its listing. *)
Lemma groupAssets_spec files :
  groupAssets brandId assetType files
  = if existsb inherited (parsedList files)
    then Throw typeErrorMessage
    else Ok (map (fun k => toAsset (buildGroup brandId assetType k
                                      (List.filter (named k) (parsedList files))))
                 (ownKeys (set_of (map p_assetName (parsedList files))))).
Proof.
  unfold groupAssets.
  change (@nil (string * Group)) with (groupsOf brandId assetType []).
  rewrite addFiles_groupsOf by done. cbn [app].
  destruct (existsb inherited (parsedList files)); [done|]. cbn [bind].
  unfold groupsOf. by rewrite Object_values_map, map_map.
Qed.

(** The grouping throws exactly when a name parses to an id that
    [Object.prototype] holds; names that clash on (format, size) do not
    make it throw. *)
Lemma groupAssets_is_ok files :
  is_ok (groupAssets brandId assetType files)
  = negb (existsb inherited (parsedList files)).
Proof.
  rewrite groupAssets_spec. by destruct (existsb inherited (parsedList files)).
Qed.

End GroupingFacts.

(* ========================================================================= *)
(** * Where the records of a manifest come from *)

Lemma scanTypes_inv brandId entries groups g :
  scanTypes brandId entries = Ok groups → g ∈ groups →
  ∃ te, te ∈ entries ∧ te_isDirectory te = true ∧ atg_type g = te_name te
        ∧ groupAssets brandId (te_name te) (te_files te) = Ok (atg_assets g)
        ∧ atg_assets g ≠ [].
Proof.
  revert groups. induction entries as [|te entries IH]; intros groups Hscan Hg.
  - cbn in Hscan. simplify_eq. by apply elem_of_nil in Hg.
  - cbn in Hscan. destruct (te_isDirectory te) eqn:Hdir; cbn in Hscan.
    + destruct (groupAssets brandId (te_name te) (te_files te))
        as [assets|] eqn:Hassets; cbn in Hscan; [|done].
      destruct (scanTypes brandId entries) as [later|] eqn:Hlater;
        cbn in Hscan; [|done].
      assert (g ∈ later → ∃ te', te' ∈ te :: entries ∧ te_isDirectory te' = true
                ∧ atg_type g = te_name te'
                ∧ groupAssets brandId (te_name te') (te_files te') = Ok (atg_assets g)
                ∧ atg_assets g ≠ []) as Hlater'.
      { intros Hin. destruct (IH later eq_refl Hin) as (te' & ? & ?).
        exists te'. split; [by right|done]. }
      destruct assets as [|a assets]; cbn in Hscan; simplify_eq; [by auto|].
      apply elem_of_cons in Hg as [->|Hg]; [|by auto].
      exists te. cbn. split_and!; try done. left.
    + destruct (IH groups Hscan Hg) as (te' & ? & ?).
      exists te'. split; [by right|done].
Qed.

Lemma scanBrands_inv brandDirs brands b :
  scanBrands brandDirs = Ok brands → b ∈ brands →
  ∃ be, be ∈ brandDirs ∧ be_isDirectory be = true ∧ b_id b = be_name be
        ∧ b_name b = titleCase (be_name be)
        ∧ b_tags b = None ∧ b_aliases b = None
        ∧ scanTypes (be_name be) (be_entries be) = Ok (b_assetTypes b)
        ∧ b_assetTypes b ≠ [].
Proof.
  revert brands. induction brandDirs as [|be brandDirs IH]; intros brands Hscan Hb.
  - cbn in Hscan. simplify_eq. by apply elem_of_nil in Hb.
  - cbn in Hscan. destruct (be_isDirectory be) eqn:Hdir; cbn in Hscan.
    + destruct (scanTypes (be_name be) (be_entries be))
        as [types|] eqn:Htypes; cbn in Hscan; [|done].
      destruct (scanBrands brandDirs) as [later|] eqn:Hlater;
        cbn in Hscan; [|done].
      assert (b ∈ later → ∃ be', be' ∈ be :: brandDirs ∧ be_isDirectory be' = true
                ∧ b_id b = be_name be' ∧ b_name b = titleCase (be_name be')
                ∧ b_tags b = None ∧ b_aliases b = None
                ∧ scanTypes (be_name be') (be_entries be') = Ok (b_assetTypes b)
                ∧ b_assetTypes b ≠ []) as Hlater'.
      { intros Hin. destruct (IH later eq_refl Hin) as (be' & ? & ?).
        exists be'. split; [by right|done]. }
      destruct types as [|t types]; cbn in Hscan; simplify_eq; [by auto|].
      apply elem_of_cons in Hb as [->|Hb]; [|by auto].
      exists be. cbn. split_and!; try done. left.
    + destruct (IH brands Hscan Hb) as (be' & ? & ?).
      exists be'. split; [by right|done].
Qed.

Lemma generateManifest_inv now brandDirs m logs :
  generateManifest now brandDirs = Ok (m, logs) →
  scanBrands brandDirs = Ok (brands m)
  ∧ logs = [ {| le_level := success; le_message := "Generated assets-manifest.json" |} ].
Proof.
  unfold generateManifest. destruct (scanBrands brandDirs); cbn; [|done].
  intros [= <- <-]. done.
Qed.

(** An asset of a manifest is the asset of one id of one listing. *)
Lemma assetsOf_inv now brandDirs m logs a :
  generateManifest now brandDirs = Ok (m, logs) → a ∈ assetsOf m →
  ∃ be te,
    be ∈ brandDirs ∧ be_isDirectory be = true
    ∧ te ∈ be_entries be ∧ te_isDirectory te = true
    ∧ existsb inherited (parsedList (te_files te)) = false
    ∧ id a ∈ map p_assetName (parsedList (te_files te))
    ∧ a = toAsset (buildGroup (be_name be) (te_name te) (id a)
                     (List.filter (named (id a)) (parsedList (te_files te)))).
Proof.
  intros [Hscan _]%generateManifest_inv Ha.
  unfold assetsOf in Ha.
  apply list_elem_of_bind in Ha as (b & Ha & Hb).
  apply list_elem_of_bind in Ha as (g & Ha & Hg).
  destruct (scanBrands_inv _ _ _ Hscan Hb)
    as (be & Hbe & Hbdir & _ & _ & _ & _ & Htypes & _).
  destruct (scanTypes_inv _ _ _ _ Htypes Hg) as (te & Hte & Htdir & _ & Hassets & _).
  rewrite groupAssets_spec in Hassets.
  destruct (existsb inherited (parsedList (te_files te))) eqn:Hinh; [done|].
  injection Hassets as Hassets. rewrite <- Hassets in Ha.
  apply list_elem_of_fmap in Ha as (k & -> & Hk).
  rewrite elem_of_ownKeys, elem_of_set_of in Hk.
  exists be, te. split_and!; try done.
  - cbn. by destruct (buildGroup_fields (be_name be) (te_name te) k
                        (List.filter (named k) (parsedList (te_files te))))
      as (-> & _).
  - cbn. by destruct (buildGroup_fields (be_name be) (te_name te) k
                        (List.filter (named k) (parsedList (te_files te))))
      as (-> & _).
Qed.

Lemma parseFile_Some f p :
  parseFile f = Some p →
  p_file p = f ∧ p_ext p = Js.toLowerCase (Path.extname f)
  ∧ hasKnownExtension f = true.
Proof.
  unfold parseFile, hasKnownExtension.
  destruct (includes knownExtensions (Js.toLowerCase (Path.extname f))); [|done].
  cbn. destruct (sizeMatch _) as [[stem digits]|]; intros [= <-]; done.
Qed.

Lemma parseFile_None f : parseFile f = None ↔ hasKnownExtension f = false.
Proof.
  unfold parseFile, hasKnownExtension.
  destruct (includes knownExtensions (Js.toLowerCase (Path.extname f))); cbn.
  - by destruct (sizeMatch _) as [[stem digits]|].
  - done.
Qed.

Lemma elem_of_parsedList files p :
  p ∈ parsedList files ↔ ∃ f, f ∈ files ∧ parseFile f = Some p.
Proof. unfold parsedList. by rewrite list_elem_of_omap. Qed.

Lemma filedUnder_files k files :
  map p_file (List.filter (named k) (parsedList files))
  = List.filter (filedUnder k) files.
Proof.
  induction files as [|f files IH]; [done|].
  rewrite parsedList_cons. cbn [List.filter]. unfold filedUnder at 1.
  destruct (parseFile f) as [p|] eqn:Hp; [|done].
  cbn [List.filter]. destruct (named k p); [|done].
  cbn. rewrite IH. by destruct (parseFile_Some _ _ Hp) as (-> & _).
Qed.

Lemma known_formats ext :
  includes knownExtensions ext = true →
  Js.slice1 ext ∈ AssetFormat ∨ Js.slice1 ext = "jpeg".
Proof.
  unfold includes, knownExtensions. cbn [existsb].
  rewrite !orb_true_iff, !String.eqb_eq.
  intros [->|[->|[->|[->|[->|[->|?]]]]]]; cbn; try done;
    unfold AssetFormat; (by right) || (left; repeat constructor).
Qed.

(** A file record of a manifest is the record of one name of one listing. *)
Lemma filesOf_inv now brandDirs m logs f :
  generateManifest now brandDirs = Ok (m, logs) → f ∈ filesOf m →
  ∃ be te p,
    be ∈ brandDirs ∧ te ∈ be_entries be
    ∧ p_file p ∈ te_files te ∧ parseFile (p_file p) = Some p
    ∧ f = fileRecord (be_name be) (te_name te) p.
Proof.
  intros Hgen Hf. unfold filesOf in Hf.
  apply list_elem_of_bind in Hf as (a & Hf & Ha).
  destruct (assetsOf_inv _ _ _ _ _ Hgen Ha)
    as (be & te & Hbe & _ & Hte & _ & _ & _ & Heq).
  rewrite Heq in Hf. cbn in Hf.
  destruct (buildGroup_fields (be_name be) (te_name te) (id a)
              (List.filter (named (id a)) (parsedList (te_files te))))
    as (_ & _ & _ & _ & _ & _ & Hfiles).
  cbn zeta in Hfiles. rewrite Hfiles in Hf.
  apply list_elem_of_fmap in Hf as (p & -> & Hp).
  apply list_elem_of_In, filter_In in Hp as [Hp _].
  apply list_elem_of_In, elem_of_parsedList in Hp as (name & Hname & Hparse).
  destruct (parseFile_Some _ _ Hparse) as (Hfile & _).
  exists be, te, p. rewrite Hfile. done.
Qed.

(* ========================================================================= *)
(** * The properties of the specification *)

(** ** Metadata fallback *)

(** C1, as the specification states it, fails: the asset of the end-to-end
    scenario has no metadata entry and is emitted without a [displayName],
    so [displayName] is not [name]. *)
Lemma C1_counterexample :
  generateManifest epoch scenarioTree = Ok (scenarioManifest, generatedLog)
  ∧ scenarioLogo ∈ assetsOf scenarioManifest
  ∧ displayName scenarioLogo = None
  ∧ displayName scenarioLogo ≠ Some (name scenarioLogo).
Proof.
  split_and!; [by vm_compute | by left | done | done].
Qed.

(** C1 (amended): an asset of an emitted manifest that has no metadata
    entry has neither a [displayName] nor [tags]; its [name] is the
    title-cased form of its id, and the title the browser shows for it,
    [displayName || name], is its [name].  What the manifest holds for an
    asset that has a metadata entry is not stated here. *)
Theorem C1_display_name_absent (sourceMeta : string → option MetaDocument)
    now brandDirs m logs b g a :
  generateManifest now brandDirs = Ok (m, logs) →
  b ∈ brands m → g ∈ b_assetTypes b → a ∈ atg_assets g →
  metadataEntry sourceMeta (b_id b) (atg_type g) (id a) = None →
  displayName a = None ∧ tags a = None
  ∧ name a = titleCase (id a) ∧ title a = name a.
Proof.
  intros Hgen Hb Hg Ha _.
  assert (a ∈ assetsOf m) as Hin.
  { unfold assetsOf. apply list_elem_of_bind. exists b. split; [|done].
    apply list_elem_of_bind. by exists g. }
  destruct (assetsOf_inv _ _ _ _ _ Hgen Hin)
    as (be & te & _ & _ & _ & _ & _ & _ & Heq).
  destruct (buildGroup_fields (be_name be) (te_name te) (id a)
              (List.filter (named (id a)) (parsedList (te_files te))))
    as (_ & Hname & _).
  cbn zeta in Hname.
  assert (displayName a = None) as Hd by (by rewrite Heq).
  assert (name a = titleCase (id a)) as Hn by (rewrite Heq at 1; apply Hname).
  split_and!; [done | by rewrite Heq | done |].
  unfold title. by rewrite Hd.
Qed.

Lemma C1_display_name_absent_witness :
  displayName scenarioLogo = None ∧ tags scenarioLogo = None
  ∧ name scenarioLogo = titleCase (id scenarioLogo)
  ∧ title scenarioLogo = name scenarioLogo.
Proof.
  apply (C1_display_name_absent initechMeta epoch scenarioTree scenarioManifest
           generatedLog scenarioBrand scenarioGroup).
  - vm_compute. reflexivity.
  - left.
  - left.
  - left.
  - reflexivity.
Defined.

(** The metadata half of the claim cannot be observed at all: the
    generator takes no metadata.  The logo of a brand whose [meta.json]
    names it [Primary Logo] is emitted like any other, without a
    [displayName]. *)
Example generator_reads_no_metadata :
  ∃ m logs a,
    generateManifest epoch [brandDir "initech" [dir "logos" ["logo.svg"]]]
    = Ok (m, logs)
    ∧ assetsOf m = [a] ∧ id a = "logo"
    ∧ (∃ entry, metadataEntry initechMeta "initech" "logos" (id a) = Some entry
                ∧ am_displayName entry = Some "Primary Logo")
    ∧ displayName a = None.
Proof.
  eexists _, _, _. split_and!; [by vm_compute|reflexivity|done| |done].
  eexists. split; [by vm_compute|done].
Qed.

(** ** Formats of the file records *)

(** C9, as the specification states it, fails twice on one listing: the
    record of [photo.jpeg] has the format [jpeg], which is none of the five
    declared formats, and [notes.txt] is skipped without any warning. *)
Lemma C9_counterexample :
  ∃ m logs f,
    generateManifest epoch jpegTree = Ok (m, logs)
    ∧ f ∈ filesOf m ∧ file f = "photo.jpeg" ∧ format f = "jpeg"
    ∧ (format f ∉ AssetFormat)
    ∧ hasKnownExtension "notes.txt" = false
    ∧ Forall (fun e => le_level e = success) logs.
Proof.
  eexists _, _, _. split_and!.
  - vm_compute. reflexivity.
  - left.
  - done.
  - done.
  - cbn. unfold AssetFormat. intros H.
    repeat (apply elem_of_cons in H as [H|H]; [discriminate H|]).
    by apply elem_of_nil in H.
  - done.
  - by repeat constructor.
Qed.

(** C9 (amended): every file record of an emitted manifest stands for a name
    of a listing whose lower-cased extension is one the generator accepts;
    its format is that extension without the dot, and it is one of the five
    declared formats unless the extension is [.jpeg].  A name with any other
    extension yields no record, and nothing is logged about it: the log of
    the generator holds no warning and no error. *)
Theorem C9_format_is_extension now brandDirs m logs :
  generateManifest now brandDirs = Ok (m, logs) →
  (∀ f, f ∈ filesOf m →
     (∃ be te, be ∈ brandDirs ∧ te ∈ be_entries be ∧ file f ∈ te_files te)
     ∧ hasKnownExtension (file f) = true
     ∧ format f = Js.slice1 (Js.toLowerCase (Path.extname (file f)))
     ∧ (format f ≠ "jpeg" → format f ∈ AssetFormat))
  ∧ Forall (fun e => le_level e ≠ warn ∧ le_level e ≠ error) logs.
Proof.
  intros Hgen. split.
  - intros f Hf.
    destruct (filesOf_inv _ _ _ _ _ Hgen Hf)
      as (be & te & p & Hbe & Hte & Hin & Hparse & ->).
    destruct (parseFile_Some _ _ Hparse) as (_ & Hext & Hknown).
    cbn. split_and!; [by eauto | done | by rewrite Hext |].
    intros Hjpeg. rewrite Hext in *.
    by destruct (known_formats _ Hknown).
  - apply generateManifest_inv in Hgen as [_ ->]. by repeat constructor.
Qed.

Lemma C9_format_is_extension_witness :
  (∀ f, f ∈ filesOf scenarioManifest →
     (∃ be te, be ∈ scenarioTree ∧ te ∈ be_entries be ∧ file f ∈ te_files te)
     ∧ hasKnownExtension (file f) = true
     ∧ format f = Js.slice1 (Js.toLowerCase (Path.extname (file f)))
     ∧ (format f ≠ "jpeg" → format f ∈ AssetFormat))
  ∧ Forall (fun e => le_level e ≠ warn ∧ le_level e ≠ error) generatedLog.
Proof.
  apply (C9_format_is_extension epoch scenarioTree).
  vm_compute. reflexivity.
Defined.

(** ** Uniqueness of (format, size) *)

(** C7, as the specification states it, fails: [logo-32.png] and
    [logo-032.png] both parse to the PNG of width 32 of [logo]; both records
    are emitted, and no warning is logged. *)
Lemma C7_counterexample :
  ∃ m logs a f1 f2,
    generateManifest epoch clashTree = Ok (m, logs)
    ∧ a ∈ assetsOf m ∧ files a = [f1; f2]
    ∧ file f1 = "logo-32.png" ∧ file f2 = "logo-032.png"
    ∧ format f1 = format f2 ∧ size f1 = size f2
    ∧ Forall (fun e => le_level e = success) logs.
Proof.
  eexists _, _, _, _, _. split_and!.
  - vm_compute. reflexivity.
  - left.
  - done.
  - done.
  - done.
  - done.
  - done.
  - by repeat constructor.
Qed.

(** C7 (amended): the [files] of an asset of an emitted manifest hold one
    record for each name of the listing that has an accepted extension and
    parses to the id of the asset, in the order of the listing; none is
    dropped, so the names of the records are as distinct as the names of the
    listing are, and the generator logs no warning. *)
Theorem C7_one_record_per_name now brandDirs m logs a :
  generateManifest now brandDirs = Ok (m, logs) → a ∈ assetsOf m →
  (∃ be te,
     be ∈ brandDirs ∧ te ∈ be_entries be
     ∧ files a = map (fileRecord (be_name be) (te_name te))
                     (List.filter (named (id a)) (parsedList (te_files te)))
     ∧ map file (files a) = List.filter (filedUnder (id a)) (te_files te)
     ∧ (NoDup (te_files te) → NoDup (map file (files a))))
  ∧ Forall (fun e => le_level e ≠ warn) logs.
Proof.
  intros Hgen Ha. split.
  - destruct (assetsOf_inv _ _ _ _ _ Hgen Ha)
      as (be & te & Hbe & _ & Hte & _ & _ & _ & Heq).
    destruct (buildGroup_fields (be_name be) (te_name te) (id a)
                (List.filter (named (id a)) (parsedList (te_files te))))
      as (_ & _ & _ & _ & _ & _ & Hfiles).
    cbn zeta in Hfiles.
    assert (files a = map (fileRecord (be_name be) (te_name te))
                          (List.filter (named (id a)) (parsedList (te_files te))))
      as Hrec by (rewrite Heq at 1; apply Hfiles).
    assert (map file (files a) = List.filter (filedUnder (id a)) (te_files te))
      as Hnames.
    { rewrite Hrec, map_map. cbn. apply filedUnder_files. }
    exists be, te. split_and!; try done.
    intros Hnd. rewrite Hnames. apply NoDup_ListNoDup, List.NoDup_filter.
    by apply NoDup_ListNoDup.
  - apply generateManifest_inv in Hgen as [_ ->]. by repeat constructor.
Qed.

Lemma C7_one_record_per_name_witness :
  (∃ be te,
     be ∈ scenarioTree ∧ te ∈ be_entries be
     ∧ files scenarioLogo
       = map (fileRecord (be_name be) (te_name te))
             (List.filter (named (id scenarioLogo)) (parsedList (te_files te)))
     ∧ map file (files scenarioLogo)
       = List.filter (filedUnder (id scenarioLogo)) (te_files te)
     ∧ (NoDup (te_files te) → NoDup (map file (files scenarioLogo))))
  ∧ Forall (fun e => le_level e ≠ warn) generatedLog.
Proof.
  apply (C7_one_record_per_name epoch scenarioTree scenarioManifest).
  - vm_compute. reflexivity.
  - left.
Defined.

(** ** Order of the assets of a type group *)

(** C3, as the specification states it, fails: the assets come out in the
    order in which the listing first names them, not sorted by id, and the
    same two files listed in the other order give another manifest. *)
Lemma C3_counterexample :
  ∃ m logs m' logs' b g,
    generateManifest epoch unsortedTree = Ok (m, logs)
    ∧ b ∈ brands m ∧ g ∈ b_assetTypes b
    ∧ map id (atg_assets g) = ["b"; "a"]
    ∧ ¬ Sorted string_le (map id (atg_assets g))
    ∧ generateManifest epoch resortedTree = Ok (m', logs')
    ∧ m ≠ m'.
Proof.
  eexists _, _, _, _, _, _. split_and!.
  - vm_compute. reflexivity.
  - left.
  - left.
  - done.
  - cbn. intros Hs. inversion Hs as [|?? _ Hhd]. inversion Hhd as [|?? Hle].
    discriminate Hle.
  - vm_compute. reflexivity.
  - discriminate.
Qed.

(** C3 (amended): within a type group of an emitted manifest the assets
    stand in the order in which [Object.values] enumerates the grouping
    object: the ids that are array indices in ascending numeric order, then
    the other ids in the order in which the listing of the directory first
    names them.  The generator does not sort them by id. *)
Theorem C3_assets_in_enumeration_order now brandDirs m logs b g :
  generateManifest now brandDirs = Ok (m, logs) →
  b ∈ brands m → g ∈ b_assetTypes b →
  ∃ be te,
    be ∈ brandDirs ∧ te ∈ be_entries be
    ∧ b_id b = be_name be ∧ atg_type g = te_name te
    ∧ map id (atg_assets g)
      = ownKeys (set_of (map p_assetName (parsedList (te_files te)))).
Proof.
  intros [Hscan _]%generateManifest_inv Hb Hg.
  destruct (scanBrands_inv _ _ _ Hscan Hb)
    as (be & Hbe & _ & Hid & _ & _ & _ & Htypes & _).
  destruct (scanTypes_inv _ _ _ _ Htypes Hg) as (te & Hte & _ & Hty & Hassets & _).
  exists be, te. split_and!; try done.
  rewrite groupAssets_spec in Hassets.
  destruct (existsb inherited (parsedList (te_files te))); [done|].
  injection Hassets as <-. rewrite map_map.
  rewrite <- (map_id (ownKeys _)) at 2. apply map_ext. intros k. cbn.
  by destruct (buildGroup_fields (be_name be) (te_name te) k
                 (List.filter (named k) (parsedList (te_files te)))) as (-> & _).
Qed.

Lemma C3_assets_in_enumeration_order_witness :
  ∃ be te,
    be ∈ scenarioTree ∧ te ∈ be_entries be
    ∧ "acme" = be_name be ∧ "logos" = te_name te
    ∧ map id [scenarioLogo]
      = ownKeys (set_of (map p_assetName (parsedList (te_files te)))).
Proof.
  apply (C3_assets_in_enumeration_order epoch scenarioTree scenarioManifest generatedLog
           {| b_id := "acme"; b_name := "Acme"; b_tags := None; b_aliases := None;
              b_assetTypes :=
                [ {| atg_type := "logos"; atg_assets := [scenarioLogo] |} ] |}
           {| atg_type := "logos"; atg_assets := [scenarioLogo] |}).
  - vm_compute. reflexivity.
  - left.
  - left.
Defined.

(** ** Order and presence of the type groups *)

Lemma scanTypes_types brandId entries groups :
  scanTypes brandId entries = Ok groups →
  map atg_type groups = map te_name (List.filter (yieldsGroup brandId) entries).
Proof.
  revert groups. induction entries as [|te entries IH]; intros groups Hscan.
  - cbn in Hscan. by simplify_eq.
  - cbn in Hscan. cbn [List.filter]. unfold yieldsGroup at 1.
    destruct (te_isDirectory te); cbn in Hscan |- *; [|by apply IH].
    destruct (groupAssets brandId (te_name te) (te_files te))
      as [assets|]; cbn in Hscan; [|done].
    destruct (scanTypes brandId entries) as [later|]; cbn in Hscan; [|done].
    destruct assets as [|a assets]; cbn in Hscan; simplify_eq.
    + by apply IH.
    + cbn. f_equal. by apply IH.
Qed.

(** C4, as the specification states it, fails in its first half: the type
    groups of a brand follow the listing of the brand directory, here
    [images] before [logos], and a directory of any name, here [fonts],
    becomes a type group. *)
Lemma C4_counterexample :
  ∃ m logs b,
    generateManifest epoch typesTree = Ok (m, logs)
    ∧ b ∈ brands m
    ∧ map atg_type (b_assetTypes b) = ["images"; "fonts"; "logos"]
    ∧ ¬ sublist (map atg_type (b_assetTypes b)) AssetType.
Proof.
  eexists _, _, _. split_and!.
  - vm_compute. reflexivity.
  - left.
  - done.
  - cbn. unfold AssetType. intros Hsub.
    apply sublist_cons_l in Hsub as (k1 & k2 & Heq & Hsub).
    apply sublist_cons_l in Hsub as (k3 & k4 & Heq' & _).
    destruct k1 as [|? [|? [|? [|]]]]; simplify_eq;
      destruct k3 as [|? [|? [|? [|]]]]; simplify_eq.
Qed.

(** C4 (amended): the type groups of a brand of an emitted manifest are
    those directories of the brand directory that yield at least one asset,
    in the order of its listing and under the names they have there; no
    group is emitted with an empty list of assets. *)
Theorem C4_types_in_listing_order now brandDirs m logs b :
  generateManifest now brandDirs = Ok (m, logs) → b ∈ brands m →
  (∃ be, be ∈ brandDirs ∧ b_id b = be_name be
         ∧ map atg_type (b_assetTypes b)
           = map te_name (List.filter (yieldsGroup (b_id b)) (be_entries be)))
  ∧ Forall (fun g => atg_assets g ≠ []) (b_assetTypes b).
Proof.
  intros [Hscan _]%generateManifest_inv Hb.
  destruct (scanBrands_inv _ _ _ Hscan Hb)
    as (be & Hbe & _ & Hid & _ & _ & _ & Htypes & _).
  split.
  - exists be. split_and!; try done. rewrite Hid. by apply scanTypes_types.
  - apply Forall_forall. intros g Hg.
    by destruct (scanTypes_inv _ _ _ _ Htypes Hg) as (te & _ & _ & _ & _ & ?).
Qed.

Lemma C4_types_in_listing_order_witness :
  (∃ be, be ∈ scenarioTree ∧ "acme" = be_name be
         ∧ map atg_type [ {| atg_type := "logos"; atg_assets := [scenarioLogo] |} ]
           = map te_name (List.filter (yieldsGroup "acme") (be_entries be)))
  ∧ Forall (fun g => atg_assets g ≠ [])
           [ {| atg_type := "logos"; atg_assets := [scenarioLogo] |} ].
Proof.
  apply (C4_types_in_listing_order epoch scenarioTree scenarioManifest generatedLog
           {| b_id := "acme"; b_name := "Acme"; b_tags := None; b_aliases := None;
              b_assetTypes :=
                [ {| atg_type := "logos"; atg_assets := [scenarioLogo] |} ] |}).
  - vm_compute. reflexivity.
  - left.
Defined.

(** ** Brands without assets *)

Lemma groupAssets_nonempty brandId assetType files assets :
  groupAssets brandId assetType files = Ok assets → assets ≠ [] →
  ∃ f, f ∈ files ∧ hasKnownExtension f = true.
Proof.
  rewrite groupAssets_spec.
  destruct (existsb inherited (parsedList files)); [done|].
  intros [= <-] Hne.
  destruct (parsedList files) as [|p ps] eqn:Hps; [done|].
  assert (p ∈ parsedList files) as Hp by (rewrite Hps; left).
  apply elem_of_parsedList in Hp as (f & Hf & Hparse).
  exists f. split; [done|]. by destruct (parseFile_Some _ _ Hparse) as (_ & _ & ?).
Qed.

Lemma parsedList_nil files :
  (∀ f, f ∈ files → hasKnownExtension f = false) → parsedList files = [].
Proof.
  induction files as [|f files IH]; intros Hall; [done|].
  rewrite parsedList_cons.
  assert (parseFile f = None) as -> by (apply parseFile_None, Hall; left).
  apply IH. intros f' Hf'. apply Hall. by right.
Qed.

Lemma scanTypes_barren brandId entries :
  (∀ te f, te ∈ entries → f ∈ te_files te → hasKnownExtension f = false) →
  scanTypes brandId entries = Ok [].
Proof.
  induction entries as [|te entries IH]; intros Hall; [done|].
  cbn. rewrite IH by (intros te' f Hte'; apply Hall; by right).
  destruct (te_isDirectory te); cbn; [|done].
  rewrite groupAssets_spec, parsedList_nil; [done|].
  intros f. apply Hall. left.
Qed.

Lemma scanBrands_barren before be after :
  barren be → scanBrands (before ++ be :: after) = scanBrands (before ++ after).
Proof.
  intros Hbarren. induction before as [|be' before IH]; cbn.
  - destruct (be_isDirectory be); cbn; [|done].
    rewrite scanTypes_barren by done. cbn. by destruct (scanBrands after).
  - by rewrite IH.
Qed.

(** C10: a brand of an emitted manifest has at least one type group, each
    of its type groups has at least one asset, and the brand stems from a
    directory of [brands/] in which some type directory holds a file with an
    accepted extension.  A brand directory without such a file yields no
    brand: the manifest is the one of the listing without it. *)
Theorem C10_no_empty_brand now brandDirs :
  (∀ m logs b,
     generateManifest now brandDirs = Ok (m, logs) → b ∈ brands m →
     b_assetTypes b ≠ []
     ∧ Forall (fun g => atg_assets g ≠ []) (b_assetTypes b)
     ∧ ∃ be te f,
         be ∈ brandDirs ∧ be_isDirectory be = true ∧ be_name be = b_id b
         ∧ te ∈ be_entries be ∧ te_isDirectory te = true
         ∧ f ∈ te_files te ∧ hasKnownExtension f = true)
  ∧ (∀ before be after,
       brandDirs = before ++ be :: after → barren be →
       generateManifest now brandDirs = generateManifest now (before ++ after)).
Proof.
  split.
  - intros m logs b [Hscan _]%generateManifest_inv Hb.
    destruct (scanBrands_inv _ _ _ Hscan Hb)
      as (be & Hbe & Hbdir & Hid & _ & _ & _ & Htypes & Hne).
    split_and!; [done | |].
    + apply Forall_forall. intros g Hg.
      by destruct (scanTypes_inv _ _ _ _ Htypes Hg) as (te & _ & _ & _ & _ & ?).
    + destruct (b_assetTypes b) as [|g gs] eqn:Hgs; [done|].
      destruct (scanTypes_inv _ _ _ g Htypes)
        as (te & Hte & Htdir & _ & Hassets & Hane); [left|].
      destruct (groupAssets_nonempty _ _ _ _ Hassets Hane) as (f & Hf & Hknown).
      exists be, te, f. split_and!; done.
  - intros before be after -> Hbarren. unfold generateManifest.
    by rewrite scanBrands_barren.
Qed.

Lemma C10_no_empty_brand_witness :
  map b_id (brands barrenManifest) = ["acme"]
  ∧ b_assetTypes acmeBrand ≠ []
  ∧ Forall (fun g => atg_assets g ≠ []) (b_assetTypes acmeBrand)
  ∧ ∃ be te f,
      be ∈ barrenTree ∧ be_isDirectory be = true ∧ be_name be = b_id acmeBrand
      ∧ te ∈ be_entries be ∧ te_isDirectory te = true
      ∧ f ∈ te_files te ∧ hasKnownExtension f = true.
Proof.
  split; [reflexivity|].
  apply (proj1 (C10_no_empty_brand epoch barrenTree) barrenManifest generatedLog acmeBrand).
  - vm_compute. reflexivity.
  - left.
Defined.

Example barren_ghost :
  generateManifest epoch barrenTree
  = generateManifest epoch [ brandDir "acme" [ dir "logos" ["logo.svg"] ] ].
Proof. by vm_compute. Qed.

(** ** Order-independence of the grouping *)

Lemma List_filter_Permutation {A} (P : A → bool) (l l' : list A) :
  l ≡ₚ l' → List.filter P l ≡ₚ List.filter P l'.
Proof.
  induction 1 as [|x l l' _ IH|x y l|l l' l'' _ IH _ IH']; cbn.
  - done.
  - destruct (P x); by rewrite IH.
  - destruct (P x), (P y); try done. apply perm_swap.
  - by rewrite IH.
Qed.

Lemma existsb_Permutation {A} (P : A → bool) (l l' : list A) :
  l ≡ₚ l' → existsb P l = existsb P l'.
Proof.
  induction 1 as [|x l l' _ IH|x y l|l l' l'' _ IH _ IH']; cbn.
  - done.
  - by rewrite IH.
  - by destruct (P x), (P y).
  - by rewrite IH.
Qed.

Lemma parsedList_Permutation files files' :
  files ≡ₚ files' → parsedList files ≡ₚ parsedList files'.
Proof. intros Hp. unfold parsedList. by rewrite Hp. Qed.

(** The asset of an id depends on the order of its entries only through
    the order of its [files]. *)
Lemma toAsset_buildGroup_eqv brandId assetType k entries entries' :
  entries ≡ₚ entries' →
  asset_eqv (toAsset (buildGroup brandId assetType k entries))
            (toAsset (buildGroup brandId assetType k entries')).
Proof.
  intros Hp.
  destruct (buildGroup_fields brandId assetType k entries)
    as (Hid & Hname & Hty & Hbase & Hsizes & Hformats & Hfiles).
  destruct (buildGroup_fields brandId assetType k entries')
    as (Hid' & Hname' & Hty' & Hbase' & Hsizes' & Hformats' & Hfiles').
  cbn zeta in *. unfold asset_eqv, toAsset. cbn.
  rewrite Hid, Hname, Hty, Hbase, Hsizes, Hformats, Hfiles.
  rewrite Hid', Hname', Hty', Hbase', Hsizes', Hformats', Hfiles'.
  split_and!; try done.
  - apply sort_numbers_Permutation, set_of_Permutation. by rewrite Hp.
  - apply sort_strings_Permutation, set_of_Permutation. by rewrite Hp.
  - by rewrite Hp.
Qed.

Lemma Sorted_sort_numbers l : Sorted N.le (sort_numbers l).
Proof. apply Sorted_merge_sort; apply _. Qed.

Lemma Sorted_sort_strings l : Sorted string_le (sort_strings l).
Proof. apply Sorted_merge_sort; apply _. Qed.

Lemma groupAssets_sorted_sets brandId assetType files assets a :
  groupAssets brandId assetType files = Ok assets → a ∈ assets →
  Sorted N.le (sizes a) ∧ NoDup (sizes a)
  ∧ Sorted string_le (formats a) ∧ NoDup (formats a).
Proof.
  rewrite groupAssets_spec.
  destruct (existsb inherited (parsedList files)); [done|].
  intros [= <-] (k & -> & _)%list_elem_of_fmap.
  destruct (buildGroup_fields brandId assetType k
              (List.filter (named k) (parsedList files)))
    as (_ & _ & _ & _ & Hsizes & Hformats & _).
  cbn zeta in *. cbn. rewrite Hsizes, Hformats.
  split_and!.
  - apply Sorted_sort_numbers.
  - unfold sort_numbers. rewrite merge_sort_Permutation. apply NoDup_set_of.
  - apply Sorted_sort_strings.
  - unfold sort_strings. rewrite merge_sort_Permutation. apply NoDup_set_of.
Qed.

Lemma groupAssets_covers brandId assetType files files' assets assets' a :
  files ≡ₚ files' →
  groupAssets brandId assetType files = Ok assets →
  groupAssets brandId assetType files' = Ok assets' →
  a ∈ assets → ∃ a', a' ∈ assets' ∧ asset_eqv a a'.
Proof.
  intros Hp. rewrite !groupAssets_spec.
  destruct (existsb inherited (parsedList files)); [done|].
  destruct (existsb inherited (parsedList files')); [done|].
  intros [= <-] [= <-] (k & -> & Hk)%list_elem_of_fmap.
  exists (toAsset (buildGroup brandId assetType k
                     (List.filter (named k) (parsedList files')))).
  split.
  - apply list_elem_of_fmap. exists k. split; [done|].
    rewrite elem_of_ownKeys, elem_of_set_of in Hk |- *.
    by rewrite <- (parsedList_Permutation _ _ Hp).
  - apply toAsset_buildGroup_eqv, List_filter_Permutation.
    by apply parsedList_Permutation.
Qed.

(** C2: grouping the same names in another order succeeds exactly when the
    first grouping does and yields the same assets: as many, each with equal
    id, name, type, base path, sizes and formats, and with the same file
    records up to their order; sizes are ascending and formats alphabetical,
    both without repetition. *)
Theorem C2_grouping_order_independent brandId assetType files files' assets :
  files ≡ₚ files' →
  groupAssets brandId assetType files = Ok assets →
  ∃ assets',
    groupAssets brandId assetType files' = Ok assets'
    ∧ length assets' = length assets
    ∧ (∀ a, a ∈ assets → ∃ a', a' ∈ assets' ∧ asset_eqv a a')
    ∧ (∀ a', a' ∈ assets' → ∃ a, a ∈ assets ∧ asset_eqv a a')
    ∧ (∀ a, a ∈ assets →
         Sorted N.le (sizes a) ∧ NoDup (sizes a)
         ∧ Sorted string_le (formats a) ∧ NoDup (formats a)).
Proof.
  intros Hp Hassets.
  assert (∃ assets', groupAssets brandId assetType files' = Ok assets'
                     ∧ length assets' = length assets) as (assets' & Hassets' & Hlen).
  { revert Hassets. rewrite !groupAssets_spec.
    rewrite <- (existsb_Permutation inherited _ _ (parsedList_Permutation _ _ Hp)).
    destruct (existsb inherited (parsedList files)); [done|].
    intros [= <-]. eexists. split; [done|].
    rewrite !length_map, !ownKeys_Permutation.
    apply Permutation_length, set_of_Permutation.
    by rewrite (parsedList_Permutation _ _ Hp). }
  exists assets'. split_and!; try done.
  - intros a. by apply (groupAssets_covers brandId assetType files files').
  - intros a' Ha'.
    destruct (groupAssets_covers brandId assetType files' files assets' assets a')
      as (a & Ha & Heqv); try done.
    exists a. split; [done|].
    unfold asset_eqv in *. destruct_and!. split_and!; done.
  - intros a. by apply (groupAssets_sorted_sets brandId assetType files).
Qed.

Lemma C2_grouping_order_independent_witness :
  ∃ assets',
    groupAssets "acme" "logos" ["logo-64.webp"; "logo-64.png"; "logo.svg"; "logo-32.png"]
    = Ok assets'
    ∧ length assets' = length [scenarioLogo]
    ∧ (∀ a, a ∈ [scenarioLogo] → ∃ a', a' ∈ assets' ∧ asset_eqv a a')
    ∧ (∀ a', a' ∈ assets' → ∃ a, a ∈ [scenarioLogo] ∧ asset_eqv a a')
    ∧ (∀ a, a ∈ [scenarioLogo] →
         Sorted N.le (sizes a) ∧ NoDup (sizes a)
         ∧ Sorted string_le (formats a) ∧ NoDup (formats a)).
Proof.
  apply (C2_grouping_order_independent "acme" "logos"
           ["logo.svg"; "logo-32.png"; "logo-64.png"; "logo-64.webp"]).
  - apply (Permutation_cons_app ["logo-64.webp"; "logo-64.png"] ["logo-32.png"]).
    apply (Permutation_cons_app ["logo-64.webp"; "logo-64.png"] []).
    apply perm_swap.
  - vm_compute. reflexivity.
Defined.

(** ** Resolution of a variant *)

Lemma find_first {A} (P : A → bool) (l : list A) (x : A) :
  List.find P l = Some x →
  ∃ l1 l2, l = l1 ++ x :: l2 ∧ P x = true ∧ Forall (fun y => P y = false) l1.
Proof.
  induction l as [|y l IH]; cbn; [done|].
  destruct (P y) eqn:Hy.
  - intros [= ->]. exists [], l. done.
  - intros (l1 & l2 & -> & Hx & Hl1)%IH.
    exists (y :: l1), l2. split_and!; [done..|by constructor].
Qed.

Lemma find_None_iff {A} (P : A → bool) (l : list A) :
  List.find P l = None ↔ ∀ x, x ∈ l → P x = false.
Proof.
  split.
  - intros Hf x Hx%list_elem_of_In. by apply (find_none _ _ Hf).
  - induction l as [|y l IH]; cbn; [done|]. intros Hall.
    rewrite (Hall y) by left. apply IH. intros x Hx. apply Hall. by right.
Qed.

(** C5, as the specification states it, fails in its fallback: when no file
    has the requested format and size, the first file of the format in the
    order of [files] is taken, whatever its size.  For the PNG of width 16
    of [widestFirst] that is the one of width 64, although one of width 32
    exists; for [originalLater] it is again the one of width 64, although
    the original exists. *)
Lemma C5_counterexample :
  (∃ f f', resolve widestFirst "png" (Some 16) = Some f
           ∧ size f = Some 64
           ∧ f' ∈ files widestFirst ∧ format f' = "png" ∧ size f' = Some 32)
  ∧ (∃ f f', resolve originalLater "png" (Some 16) = Some f
             ∧ size f = Some 64
             ∧ f' ∈ files originalLater ∧ format f' = "png" ∧ size f' = None).
Proof.
  split.
  - eexists _, _. split; [by vm_compute|]. split; [done|].
    split; [right; left|]. done.
  - eexists _, _. split; [by vm_compute|]. split; [done|].
    split; [right; left|]. done.
Qed.

(** C5 (amended): a request is answered by a file of the asset that has the
    requested format, never by another.  If a file with the requested format
    and size exists, such a file is returned.  If none exists, the answer is
    the first file of that format in the order of [files], whatever its
    size.  If the asset has no file of that format, nothing is found. *)
Theorem C5_resolve_first_of_format (a : Asset) (fmt : string) (sz : option N) :
  (∀ f, resolve a fmt sz = Some f → f ∈ files a ∧ format f = fmt)
  ∧ ((∃ f, f ∈ files a ∧ format f = fmt ∧ size f = sz) →
     ∃ f, resolve a fmt sz = Some f ∧ format f = fmt ∧ size f = sz)
  ∧ ((∀ f, f ∈ files a → format f = fmt → size f ≠ sz) →
     ∀ f, resolve a fmt sz = Some f →
          ∃ before after,
            files a = before ++ f :: after
            ∧ Forall (fun g => format g ≠ fmt) before)
  ∧ (resolve a fmt sz = None ↔ ∀ f, f ∈ files a → format f ≠ fmt).
Proof.
  unfold resolve.
  set (exact := fun f => String.eqb (format f) fmt && bool_decide (size f = sz)).
  set (ofFormat := fun f : AssetFile => String.eqb (format f) fmt).
  assert (∀ f, exact f = true ↔ format f = fmt ∧ size f = sz) as Hexact.
  { intros f. unfold exact.
    by rewrite andb_true_iff, String.eqb_eq, bool_decide_eq_true. }
  assert (∀ f, ofFormat f = true ↔ format f = fmt) as Hformat.
  { intros f. unfold ofFormat. by rewrite String.eqb_eq. }
  split_and!.
  - intros f. destruct (List.find exact (files a)) as [f0|] eqn:Hfind.
    + intros [= <-]. apply find_some in Hfind as [Hin [? _]%Hexact].
      by rewrite list_elem_of_In.
    + intros [Hin ?%Hformat]%find_some. by rewrite list_elem_of_In.
  - intros (f & Hin & Hf & Hs).
    destruct (List.find exact (files a)) as [f0|] eqn:Hfind.
    + apply find_some in Hfind as [_ [? ?]%Hexact]. by exists f0.
    + rewrite find_None_iff in Hfind. specialize (Hfind f Hin).
      assert (exact f = true) by (by apply Hexact). congruence.
  - intros Hnone f.
    destruct (List.find exact (files a)) as [f0|] eqn:Hfind.
    + apply find_some in Hfind as [Hin%list_elem_of_In [? ?]%Hexact].
      by destruct (Hnone f0).
    + intros (l1 & l2 & Heq & _ & Hl1)%find_first. exists l1, l2.
      split; [done|]. eapply Forall_impl; [exact Hl1|].
      intros g Hg ?%Hformat. cbn in Hg. congruence.
  - destruct (List.find exact (files a)) as [f0|] eqn:Hfind.
    + split; [done|]. intros Hnone.
      apply find_some in Hfind as [Hin%list_elem_of_In [? ?]%Hexact].
      by destruct (Hnone f0).
    + rewrite find_None_iff. split.
      * intros Hnone f Hin ?%Hformat. specialize (Hnone f Hin). congruence.
      * intros Hnone f Hin. destruct (ofFormat f) eqn:Hf; [|done].
        apply Hformat in Hf. by destruct (Hnone f Hin).
Qed.

Example resolve_scenario :
  resolve scenarioLogo "avif" (Some 32) = None
  ∧ resolve scenarioLogo "avif" None = None
  ∧ (file <$> resolve scenarioLogo "png" None) = Some "logo-32.png"
  ∧ (file <$> resolve scenarioLogo "png" (Some 64)) = Some "logo-64.png"
  ∧ (file <$> previewFile scenarioLogo) = Some "logo.svg".
Proof. by vm_compute. Qed.

(** ** Order of the catalogue *)

Lemma insertBy_Permutation {A} (compare : A → A → Z) x l :
  insertBy compare x l ≡ₚ x :: l.
Proof.
  induction l as [|y l IH]; cbn; [done|].
  destruct (compare x y <=? 0)%Z; [done|].
  by rewrite IH, perm_swap.
Qed.

Lemma sortBy_Permutation {A} (compare : A → A → Z) l : sortBy compare l ≡ₚ l.
Proof.
  induction l as [|x l IH]; cbn; [done|].
  by rewrite insertBy_Permutation, IH.
Qed.

Section SortFacts.

Context {A : Type} (compare : A → A → Z).

(** The comparator never puts two elements strictly after each other. *)
Hypothesis compare_total : ∀ x y, (compare x y <= 0 ∨ compare y x <= 0)%Z.

Lemma insertBy_Sorted x l :
  Sorted (notAfter compare) l → Sorted (notAfter compare) (insertBy compare x l).
Proof.
  induction 1 as [|y l Hl IH Hhd]; cbn; [by repeat constructor|].
  destruct (Z.leb_spec (compare x y) 0) as [Hle|Hgt].
  - constructor; [by constructor|]. by constructor.
  - constructor; [done|].
    destruct l as [|z l]; cbn in *.
    + constructor. unfold notAfter. destruct (compare_total x y); lia.
    + destruct (compare x z <=? 0)%Z.
      * constructor. unfold notAfter. destruct (compare_total x y); lia.
      * constructor. by inversion Hhd.
Qed.

Lemma sortBy_Sorted l : Sorted (notAfter compare) (sortBy compare l).
Proof.
  induction l as [|x l IH]; cbn; [constructor|]. by apply insertBy_Sorted.
Qed.

End SortFacts.

Section CatalogueFacts.

Variable localeCompare : string → string → Z.

(** Exchanging the two strings exchanges "before" and "after". *)
Hypothesis localeCompare_opp :
  ∀ s t, Z.sgn (localeCompare t s) = (- Z.sgn (localeCompare s t))%Z.

Lemma compareAssets_opp a b :
  Z.sgn (compareAssets localeCompare b a)
  = (- Z.sgn (compareAssets localeCompare a b))%Z.
Proof.
  unfold compareAssets.
  pose proof (localeCompare_opp (fa_brandName a) (fa_brandName b)) as Hb.
  pose proof (localeCompare_opp (fa_assetType a) (fa_assetType b)) as Ht.
  pose proof (localeCompare_opp (sortName (fa_asset a)) (sortName (fa_asset b))) as Hn.
  repeat match goal with
         | |- context [(?x =? ?y)%Z] => destruct (Z.eqb_spec x y); cbn [negb]
         end; try lia.
Qed.

Lemma compareAssets_total a b :
  (compareAssets localeCompare a b <= 0 ∨ compareAssets localeCompare b a <= 0)%Z.
Proof. pose proof (compareAssets_opp a b). lia. Qed.

(** What [filterAndRender] hands to the grid is sorted by the comparator. *)
Lemma filterAndRender_Sorted search allAssets query selectedBrands selectedTypes :
  Sorted (notAfter (compareAssets localeCompare))
         (filterAndRender localeCompare search allAssets query
                          selectedBrands selectedTypes).
Proof. apply sortBy_Sorted, compareAssets_total. Qed.

(** The collation is transitive. *)
Hypothesis localeCompare_trans :
  ∀ s t u, (localeCompare s t <= 0 → localeCompare t u <= 0 →
            localeCompare s u <= 0)%Z.

(** Between two strings that the collation ranks alike lies no string that
    it ranks apart from them. *)
Lemma localeCompare_between s t u :
  (localeCompare s t <= 0 → localeCompare t u <= 0 → localeCompare s u = 0 →
   localeCompare s t = 0 ∧ localeCompare t u = 0)%Z.
Proof.
  intros Hst Htu Hsu.
  pose proof (localeCompare_opp s t) as Ost.
  pose proof (localeCompare_opp t u) as Otu.
  pose proof (localeCompare_opp s u) as Osu.
  assert (localeCompare u s <= 0)%Z as Hus by lia.
  pose proof (localeCompare_trans t u s Htu Hus) as Hts.
  pose proof (localeCompare_trans u s t Hus Hst) as Hut.
  lia.
Qed.

Lemma compareAssets_trans : Transitive (notAfter (compareAssets localeCompare)).
Proof.
  intros x y z. unfold notAfter, compareAssets.
  pose proof (localeCompare_trans (fa_brandName x) (fa_brandName y) (fa_brandName z)).
  pose proof (localeCompare_between (fa_brandName x) (fa_brandName y) (fa_brandName z)).
  pose proof (localeCompare_trans (fa_assetType x) (fa_assetType y) (fa_assetType z)).
  pose proof (localeCompare_between (fa_assetType x) (fa_assetType y) (fa_assetType z)).
  pose proof (localeCompare_trans (sortName (fa_asset x)) (sortName (fa_asset y))
                (sortName (fa_asset z))).
  repeat match goal with
         | |- context [(?a =? ?b)%Z] => destruct (Z.eqb_spec a b); cbn [negb]
         end; lia.
Qed.

(** Every asset the grid shows stands before, or level with, every asset
    shown after it. *)
Lemma filterAndRender_StronglySorted search allAssets query selectedBrands
    selectedTypes :
  StronglySorted (notAfter (compareAssets localeCompare))
                 (filterAndRender localeCompare search allAssets query
                                  selectedBrands selectedTypes).
Proof.
  apply Sorted_StronglySorted; [apply compareAssets_trans|].
  apply filterAndRender_Sorted.
Qed.

End CatalogueFacts.

(** The order of the code units is a collation. *)
Lemma codeUnitCompare_opp s t :
  Z.sgn (codeUnitCompare t s) = (- Z.sgn (codeUnitCompare s t))%Z.
Proof.
  unfold codeUnitCompare. rewrite (String.compare_antisym s t).
  by destruct (String.compare t s).
Qed.

Lemma codeUnitCompare_le s t : (codeUnitCompare s t <= 0)%Z ↔ string_le s t.
Proof.
  unfold codeUnitCompare, string_le, String.leb.
  destruct (String.compare s t); split; (done || lia).
Qed.

Lemma codeUnitCompare_trans s t u :
  (codeUnitCompare s t <= 0 → codeUnitCompare t u <= 0 →
   codeUnitCompare s u <= 0)%Z.
Proof. rewrite !codeUnitCompare_le. apply string_le_trans. Qed.




(* ========================================================================= *)
(** * The pipeline: how a rejection travels *)

Import Pipeline.

Lemma bindM_unfold {A B} (m : M A) (k : A → M B) :
  bindM m k
  = match m.2 with
    | Ok a => (m.1 ++ (k a).1, (k a).2)
    | Throw e => (m.1, Throw e)
    end.
Proof. destruct m as [evs [a|e]]; cbn; [|done]. by destruct (k a). Qed.

Lemma rejected_bind_l {A B} (m : M A) (k : A → M B) :
  rejected m → rejected (bindM m k).
Proof. intros [e He]. rewrite bindM_unfold, He. by exists e. Qed.

Lemma rejected_bind_r {A B} (m : M A) (k : A → M B) :
  (∀ a, m.2 = Ok a → rejected (k a)) → rejected (bindM m k).
Proof.
  intros Hk. rewrite bindM_unfold. destruct (m.2) as [a|e] eqn:Hm.
  - destruct (Hk a eq_refl) as [e He]. by exists e.
  - by exists e.
Qed.

Lemma rejected_forM {A} (xs : list A) (body : A → M unit) (x : A) :
  x ∈ xs → rejected (body x) → rejected (forM xs body).
Proof.
  induction xs as [|y xs IH]; intros Hx Hrej.
  - by apply elem_of_nil in Hx.
  - cbn. apply elem_of_cons in Hx as [<-|Hx].
    + by apply rejected_bind_l.
    + apply rejected_bind_r. intros _ _. by apply IH.
Qed.

Lemma writesNoManifest_bind {A B} (m : M A) (k : A → M B) :
  writesNoManifest m → (∀ a, writesNoManifest (k a)) →
  writesNoManifest (bindM m k).
Proof.
  intros Hm Hk. unfold writesNoManifest. rewrite bindM_unfold.
  destruct (m.2) as [a|e]; cbn; [|done]. apply Forall_app. split; [done|apply Hk].
Qed.

Lemma writesNoManifest_forM {A} (xs : list A) (body : A → M unit) :
  (∀ x, writesNoManifest (body x)) → writesNoManifest (forM xs body).
Proof.
  intros Hbody. induction xs as [|x xs IH]; cbn.
  - constructor.
  - apply writesNoManifest_bind; [apply Hbody|done].
Qed.

Lemma writesNoManifest_lift {A} (r : result A) : writesNoManifest (lift r).
Proof. constructor. Qed.

Lemma writesNoManifest_log message level : writesNoManifest (log message level).
Proof. by repeat constructor. Qed.

Lemma writesNoManifest_wrote outputPath : writesNoManifest (wrote outputPath).
Proof. by repeat constructor. Qed.

Lemma writesNoManifest_logs (entries : list LogEntry) :
  writesNoManifest (map Logged entries, Ok tt).
Proof. unfold writesNoManifest. cbn. by apply Forall_fmap, Forall_true. Qed.

Section PipelineFacts.

Variable w : World.

Lemma rejected_runTask t e : toFile w t = Throw e → rejected (runTask w t).
Proof.
  intros He. unfold runTask. apply rejected_bind_l. by exists e.
Qed.

Lemma rejected_promiseAll batch t e :
  t ∈ batch → toFile w t = Throw e → rejected (promiseAll w batch).
Proof.
  intros Ht He. unfold promiseAll.
  apply (rejected_forM _ _ t); [|by apply (rejected_runTask t e)].
  unfold settleOrder. by rewrite sortBy_Permutation.
Qed.

Lemma rejected_runBatches turns tasks t e :
  (length tasks <= turns)%nat → t ∈ tasks → toFile w t = Throw e →
  rejected (runBatches w turns tasks).
Proof.
  revert tasks. induction turns as [|turns IH]; intros tasks Hlen Ht He.
  - destruct tasks; [by apply elem_of_nil in Ht | cbn in Hlen; lia].
  - destruct tasks as [|t0 tasks]; [by apply elem_of_nil in Ht|].
    cbn [runBatches].
    rewrite <- (take_drop concurrency (t0 :: tasks)) in Ht.
    apply elem_of_app in Ht as [Ht|Ht].
    + apply rejected_bind_l. by apply (rejected_promiseAll _ t e).
    + apply rejected_bind_r. intros _ _. apply IH; [|done..].
      rewrite length_drop. cbn in *. unfold concurrency. lia.
Qed.

Lemma rejected_processRasterImage inputPath outputDir assetConfig globalConfig t e :
  t ∈ plannedFor w inputPath outputDir assetConfig globalConfig →
  toFile w t = Throw e →
  rejected (processRasterImage w inputPath outputDir assetConfig globalConfig).
Proof.
  intros Ht He. unfold processRasterImage, plannedFor in *.
  apply rejected_bind_r. intros metaWidth Hmeta. cbn [lift snd] in Hmeta. rewrite Hmeta in Ht.
  apply rejected_bind_r. intros _ _.
  destruct (planTasks inputPath outputDir assetConfig globalConfig metaWidth)
    as [warnings tasks]. cbn in Ht.
  apply rejected_bind_r. intros _ _.
  by apply (rejected_runBatches _ _ t e).
Qed.

Lemma rejected_processType sourceDir outputDir config entry relativePath t e :
  access w (join sourceDir entry.1) = true →
  relativePath ∈ listed w (join sourceDir entry.1) [".svg"]
                 ++ listed w (join sourceDir entry.1) [".jpg"; ".jpeg"; ".png"; ".gif"] →
  t ∈ plannedFor w (join (join sourceDir entry.1) relativePath)
                 (join outputDir entry.1) entry.2 config →
  toFile w t = Throw e →
  rejected (processType w sourceDir outputDir config entry).
Proof.
  destruct entry as [assetType assetConfig]. cbn [fst snd].
  intros Hacc Hrel Ht He. unfold processType. rewrite Hacc. cbn [negb].
  apply rejected_bind_r. intros _ _.
  apply rejected_bind_r. intros svgFiles Hsvg. cbn [lift snd] in Hsvg.
  unfold listed in Hrel. rewrite Hsvg in Hrel.
  apply elem_of_app in Hrel as [Hrel|Hrel].
  - apply rejected_bind_l. apply (rejected_forM _ _ relativePath); [done|].
    apply rejected_bind_r. intros _ _.
    by apply (rejected_processRasterImage _ _ _ _ t e).
  - apply rejected_bind_r. intros _ _.
    apply rejected_bind_r. intros rasterFiles Hraster. cbn [lift snd] in Hraster.
    rewrite Hraster in Hrel.
    apply (rejected_forM _ _ relativePath); [done|].
    by apply (rejected_processRasterImage _ _ _ _ t e).
Qed.

Lemma rejected_convertAll args t e :
  t ∈ plannedConversions w args → toFile w t = Throw e →
  rejected (convertAll w args).
Proof.
  intros Ht He. unfold convertAll, plannedConversions in *.
  apply rejected_bind_r. intros _ _.
  apply rejected_bind_r. intros config Hconfig. cbn [lift snd] in Hconfig. rewrite Hconfig in Ht.
  apply rejected_bind_r. intros _ _.
  apply rejected_bind_r. intros _ _.
  apply rejected_bind_l.
  apply list_elem_of_bind in Ht as (brand & Ht & Hbrand).
  apply list_elem_of_In, filter_In in Hbrand as [Hbrand%list_elem_of_In Hpass].
  apply list_elem_of_bind in Ht as (entry & Ht & Hentry).
  apply (rejected_forM _ _ brand); [done|].
  unfold passesFilter in Hpass. apply negb_true_iff in Hpass. rewrite Hpass.
  unfold processBrand. apply rejected_bind_r. intros _ _.
  apply (rejected_forM _ _ entry); [done|].
  destruct (access w _) eqn:Hacc; [|by apply elem_of_nil in Ht].
  apply list_elem_of_bind in Ht as (relativePath & Ht & Hrel).
  by apply (rejected_processType _ _ _ entry relativePath t e).
Qed.

Lemma writesNoManifest_processRasterImage inputPath outputDir assetConfig globalConfig :
  writesNoManifest (processRasterImage w inputPath outputDir assetConfig globalConfig).
Proof.
  unfold processRasterImage.
  apply writesNoManifest_bind; [apply writesNoManifest_lift|]. intros metaWidth.
  apply writesNoManifest_bind; [apply writesNoManifest_lift|]. intros _.
  destruct (planTasks _ _ _ _ _) as [warnings tasks].
  apply writesNoManifest_bind; [apply writesNoManifest_logs|]. intros _.
  generalize (length tasks). intros turns. revert tasks.
  induction turns as [|turns IH]; intros tasks; [by destruct tasks; constructor|].
  destruct tasks as [|t0 tasks]; [constructor|]. cbn [runBatches].
  apply writesNoManifest_bind; [|intros _; apply IH].
  unfold promiseAll. apply writesNoManifest_forM. intros t.
  unfold runTask.
  apply writesNoManifest_bind; [apply writesNoManifest_lift|]. intros _.
  apply writesNoManifest_bind; [apply writesNoManifest_wrote|]. intros _.
  apply writesNoManifest_log.
Qed.

Lemma writesNoManifest_convertAll args : writesNoManifest (convertAll w args).
Proof.
  unfold convertAll.
  apply writesNoManifest_bind; [apply writesNoManifest_log|]. intros _.
  apply writesNoManifest_bind; [apply writesNoManifest_lift|]. intros config.
  apply writesNoManifest_bind; [apply writesNoManifest_lift|]. intros _.
  apply writesNoManifest_bind; [apply writesNoManifest_lift|]. intros _.
  apply writesNoManifest_bind; [|intros _; constructor].
  apply writesNoManifest_forM. intros brand.
  destruct (_ && _); [constructor|].
  unfold processBrand.
  apply writesNoManifest_bind; [apply writesNoManifest_log|]. intros _.
  apply writesNoManifest_forM. intros [assetType assetConfig].
  unfold processType. destruct (negb _); [apply writesNoManifest_log|].
  apply writesNoManifest_bind; [apply writesNoManifest_log|]. intros _.
  apply writesNoManifest_bind; [apply writesNoManifest_lift|]. intros svgFiles.
  apply writesNoManifest_bind.
  - apply writesNoManifest_forM. intros relativePath.
    apply writesNoManifest_bind; [|intros _; apply writesNoManifest_processRasterImage].
    unfold processSvg.
    apply writesNoManifest_bind; [apply writesNoManifest_lift|]. intros savings.
    apply writesNoManifest_bind; [apply writesNoManifest_lift|]. intros _.
    apply writesNoManifest_bind; [apply writesNoManifest_lift|]. intros _.
    apply writesNoManifest_bind; [apply writesNoManifest_wrote|]. intros _.
    apply writesNoManifest_log.
  - intros _.
    apply writesNoManifest_bind; [apply writesNoManifest_lift|]. intros rasterFiles.
    apply writesNoManifest_forM. intros relativePath.
    apply writesNoManifest_processRasterImage.
Qed.

Lemma manifestBy_None {A} (m : M A) : writesNoManifest m → manifestBy m = None.
Proof.
  unfold writesNoManifest, manifestBy. destruct m as [evs r]. cbn.
  induction 1 as [|ev evs Hev _ IH]; [done|].
  cbn. by destruct ev.
Qed.

(** A run that ends in a rejection has written no manifest. *)
Lemma rejected_main_no_manifest args :
  rejected (main w args) → manifestBy (main w args) = None.
Proof.
  intros [e He]. apply manifestBy_None.
  unfold main in *. rewrite bindM_unfold in He |- *.
  pose proof (writesNoManifest_convertAll args) as Hconv.
  destruct (convertAll w args).2 as [config|e'] eqn:Hc; [|done].
  cbn [fst snd] in *.
  rewrite bindM_unfold in He |- *. cbn [log fst snd] in *.
  rewrite bindM_unfold in He |- *. cbn [lift fst snd] in *.
  destruct (generateManifest _ _) as [generated|e'] eqn:Hgen.
  - rewrite bindM_unfold in He |- *. cbn [lift fst snd] in *.
    destruct (writeFile w _) as [[]|e'] eqn:Hwrite.
    + exfalso. revert He. by cbn.
    + cbn. unfold writesNoManifest in *. cbn.
      apply Forall_app. split; [done|]. by repeat constructor.
  - cbn. unfold writesNoManifest in *. cbn.
    apply Forall_app. split; [done|]. by repeat constructor.
Qed.

End PipelineFacts.

(** ** A conversion that fails *)

(** The two runs of the example, line by line: every conversion succeeds,
    and the encoder fails on [logo-32.webp] once [logo-32.png] is done. *)
Example run_console_all_converted :
  map le_message (console (run (demoWorld "") []))
  = [ "Asset Generation Pipeline"; "Processing brand: acme"; "logos/";
      "logo-32.png"; "logo-64.png"; "logo-32.webp"; "logo-64.webp";
      "logo-128.png"; "logo-128.webp"; "Generating asset manifest...";
      "Generated assets-manifest.json"; "Asset generation complete!" ].
Proof. by vm_compute. Qed.

Example run_console_one_failure :
  map le_message (console (run (demoWorld "logo-32.webp") []))
  = [ "Asset Generation Pipeline"; "Processing brand: acme"; "logos/";
      "logo-32.png"; "Input buffer contains unsupported image format" ]
  ∧ outputs (run (demoWorld "logo-32.webp") [])
    = [ "/repo/assets/v1/brands/acme/logos/logo-32.png" ].
Proof. by vm_compute. Qed.


(** What rejects the conversions is a failure of a collaborator. *)
Section RejectionFacts.

Variable w : World.

Lemma rejectedByWorld_bind {A B} (m : M A) (k : A → M B) :
  rejectsAsWorld w m → (∀ a, rejectsAsWorld w (k a)) → rejectsAsWorld w (bindM m k).
Proof.
  intros Hm Hk message. rewrite bindM_unfold.
  destruct (m.2) as [a|e] eqn:Hres; cbn [snd].
  - apply Hk.
  - intros [= ->]. by apply Hm.
Qed.

Lemma rejectedByWorld_forM {A} (xs : list A) (body : A → M unit) :
  (∀ x, rejectsAsWorld w (body x)) → rejectsAsWorld w (forM xs body).
Proof.
  intros Hbody. induction xs as [|x xs IH]; cbn [forM]; [by intros message|].
  apply rejectedByWorld_bind; [apply Hbody|done].
Qed.

Lemma rejectedByWorld_fulfilled {A} (evs : list Event) (a : A) :
  rejectsAsWorld w (evs, Ok a).
Proof. by intros message. Qed.

Lemma rejectedByWorld_mkdir dirPath : rejectsAsWorld w (ensureDir w dirPath).
Proof. intros message Hm. right. left. by exists dirPath. Qed.

Lemma rejectedByWorld_runBatches turns :
  ∀ tasks, rejectsAsWorld w (runBatches w turns tasks).
Proof.
  induction turns as [|turns IH]; intros tasks; [by destruct tasks; intros message|].
  destruct tasks as [|t0 tasks]; [by intros message|]. cbn [runBatches].
  apply rejectedByWorld_bind; [|intros _; apply IH].
  unfold promiseAll. apply rejectedByWorld_forM. intros t. unfold runTask.
  apply rejectedByWorld_bind.
  - intros message Hm. do 6 right. by exists t.
  - intros _. apply rejectedByWorld_bind; [apply rejectedByWorld_fulfilled|].
    intros _. apply rejectedByWorld_fulfilled.
Qed.

Lemma rejectedByWorld_processRasterImage inputPath outputDir assetConfig globalConfig :
  rejectsAsWorld w (processRasterImage w inputPath outputDir assetConfig globalConfig).
Proof.
  unfold processRasterImage.
  apply rejectedByWorld_bind.
  { intros message Hm. do 5 right. left. by exists inputPath. }
  intros metaWidth.
  apply rejectedByWorld_bind; [apply rejectedByWorld_mkdir|]. intros _.
  destruct (planTasks _ _ _ _ _) as [warnings tasks].
  apply rejectedByWorld_bind; [apply rejectedByWorld_fulfilled|]. intros _.
  apply rejectedByWorld_runBatches.
Qed.

Lemma rejectedByWorld_processSvg inputPath outputPath :
  rejectsAsWorld w (processSvg w inputPath outputPath).
Proof.
  unfold processSvg.
  apply rejectedByWorld_bind.
  { intros message Hm. do 3 right. left. by exists inputPath. }
  intros savings.
  apply rejectedByWorld_bind; [apply rejectedByWorld_mkdir|]. intros _.
  apply rejectedByWorld_bind.
  { intros message Hm. do 4 right. left. by exists outputPath. }
  intros _.
  apply rejectedByWorld_bind; [apply rejectedByWorld_fulfilled|]. intros _.
  apply rejectedByWorld_fulfilled.
Qed.

Lemma rejectedByWorld_convertAll args : rejectsAsWorld w (convertAll w args).
Proof.
  unfold convertAll.
  apply rejectedByWorld_bind; [apply rejectedByWorld_fulfilled|]. intros _.
  apply rejectedByWorld_bind; [intros message Hm; left; exact Hm|]. intros config.
  apply rejectedByWorld_bind; [apply rejectedByWorld_mkdir|]. intros _.
  apply rejectedByWorld_bind; [apply rejectedByWorld_mkdir|]. intros _.
  apply rejectedByWorld_bind; [|intros _; apply rejectedByWorld_fulfilled].
  apply rejectedByWorld_forM. intros brand.
  destruct (_ && _); [apply rejectedByWorld_fulfilled|].
  unfold processBrand.
  apply rejectedByWorld_bind; [apply rejectedByWorld_fulfilled|]. intros _.
  apply rejectedByWorld_forM. intros [assetType assetConfig].
  unfold processType. destruct (negb _); [apply rejectedByWorld_fulfilled|].
  apply rejectedByWorld_bind; [apply rejectedByWorld_fulfilled|]. intros _.
  apply rejectedByWorld_bind.
  { intros message Hm. do 2 right. left. eexists _, _. exact Hm. }
  intros svgFiles.
  apply rejectedByWorld_bind.
  - apply rejectedByWorld_forM. intros relativePath.
    apply rejectedByWorld_bind; [apply rejectedByWorld_processSvg|].
    intros _. apply rejectedByWorld_processRasterImage.
  - intros _.
    apply rejectedByWorld_bind.
    { intros message Hm. do 2 right. left. eexists _, _. exact Hm. }
    intros rasterFiles.
    apply rejectedByWorld_forM. intros relativePath.
    apply rejectedByWorld_processRasterImage.
Qed.

End RejectionFacts.



(* ========================================================================= *)
(** * Further properties of the generator *)

Lemma append_assoc (a b c : string) : (a +:+ b) +:+ c = a +:+ (b +:+ c).
Proof.
  induction a as [|x a IH]; [done|].
  change (String x ((a +:+ b) +:+ c) = String x (a +:+ (b +:+ c))).
  by rewrite IH.
Qed.

Lemma groupAssets_elem brandId assetType files assets a :
  groupAssets brandId assetType files = Ok assets → a ∈ assets →
  id a ∈ map p_assetName (parsedList files)
  ∧ a = toAsset (buildGroup brandId assetType (id a)
                   (List.filter (named (id a)) (parsedList files))).
Proof.
  rewrite groupAssets_spec.
  destruct (existsb inherited (parsedList files)); [done|].
  intros [= <-] (k & -> & Hk)%list_elem_of_fmap.
  rewrite elem_of_ownKeys, elem_of_set_of in Hk.
  destruct (buildGroup_fields brandId assetType k
              (List.filter (named k) (parsedList files))) as (Hid & _).
  cbn zeta in Hid. cbn [id toAsset]. by rewrite Hid.
Qed.

Lemma groupAssets_ids brandId assetType files assets :
  groupAssets brandId assetType files = Ok assets →
  map id assets = ownKeys (set_of (map p_assetName (parsedList files))).
Proof.
  rewrite groupAssets_spec.
  destruct (existsb inherited (parsedList files)); [done|].
  intros [= <-]. rewrite map_map.
  rewrite <- (map_id (ownKeys _)) at 2. apply map_ext. intros k. cbn.
  by destruct (buildGroup_fields brandId assetType k
                 (List.filter (named k) (parsedList files))) as (-> & _).
Qed.

(** An asset of a type group of a brand is the asset of one id of the
    listing of one type directory of one brand directory. *)
Lemma group_asset_inv now brandDirs m logs b g a :
  generateManifest now brandDirs = Ok (m, logs) →
  b ∈ brands m → g ∈ b_assetTypes b → a ∈ atg_assets g →
  ∃ be te,
    be ∈ brandDirs ∧ be_isDirectory be = true ∧ b_id b = be_name be
    ∧ b_name b = titleCase (be_name be)
    ∧ te ∈ be_entries be ∧ te_isDirectory te = true ∧ atg_type g = te_name te
    ∧ groupAssets (be_name be) (te_name te) (te_files te) = Ok (atg_assets g)
    ∧ id a ∈ map p_assetName (parsedList (te_files te))
    ∧ a = toAsset (buildGroup (be_name be) (te_name te) (id a)
                     (List.filter (named (id a)) (parsedList (te_files te)))).
Proof.
  intros [Hscan _]%generateManifest_inv Hb Hg Ha.
  destruct (scanBrands_inv _ _ _ Hscan Hb)
    as (be & Hbe & Hbdir & Hid & Hname & _ & _ & Htypes & _).
  destruct (scanTypes_inv _ _ _ _ Htypes Hg)
    as (te & Hte & Htdir & Hty & Hassets & _).
  destruct (groupAssets_elem _ _ _ _ _ Hassets Ha) as [Hk Heq].
  exists be, te. split_and!; done.
Qed.

(** X1: in an emitted manifest the name of a brand is the title-cased form
    of its id, the [type] of an asset is the type of its group, its
    [basePath] is [v1/brands/<brand>/<type>/<id>], and the [path] of each of
    its files is [v1/brands/<brand>/<type>/<file>]: every path can be
    derived from the ids and the file name. *)
Theorem X1_paths_derivable now brandDirs m logs b g a :
  generateManifest now brandDirs = Ok (m, logs) →
  b ∈ brands m → g ∈ b_assetTypes b → a ∈ atg_assets g →
  b_name b = titleCase (b_id b)
  ∧ name a = titleCase (id a)
  ∧ type a = atg_type g
  ∧ basePath a = "v1/brands/" +:+ b_id b +:+ "/" +:+ atg_type g +:+ "/" +:+ id a
  ∧ ∀ f, f ∈ files a →
         path f = "v1/brands/" +:+ b_id b +:+ "/" +:+ atg_type g +:+ "/" +:+ file f.
Proof.
  intros Hgen Hb Hg Ha.
  destruct (group_asset_inv _ _ _ _ _ _ _ Hgen Hb Hg Ha)
    as (be & te & _ & _ & Hid & Hname & _ & _ & Hty & _ & _ & Heq).
  destruct (buildGroup_fields (be_name be) (te_name te) (id a)
              (List.filter (named (id a)) (parsedList (te_files te))))
    as (_ & Hgname & Hgty & Hbase & _ & _ & Hfiles).
  cbn zeta in *. rewrite Hid, Hty.
  split_and!; [done | | | |].
  - rewrite Heq at 1. apply Hgname.
  - rewrite Heq at 1. apply Hgty.
  - rewrite Heq at 1. cbn [basePath toAsset]. rewrite Hbase. unfold dirPath.
    by rewrite !append_assoc.
  - intros f Hf. rewrite Heq in Hf. cbn [files toAsset] in Hf.
    rewrite Hfiles in Hf. apply list_elem_of_fmap in Hf as (p & -> & _).
    cbn. unfold dirPath. by rewrite !append_assoc.
Qed.

Lemma X1_paths_derivable_witness :
  b_name scenarioBrand = titleCase (b_id scenarioBrand)
  ∧ name scenarioLogo = titleCase (id scenarioLogo)
  ∧ type scenarioLogo = atg_type scenarioGroup
  ∧ basePath scenarioLogo
    = "v1/brands/" +:+ b_id scenarioBrand +:+ "/" +:+ atg_type scenarioGroup
      +:+ "/" +:+ id scenarioLogo
  ∧ ∀ f, f ∈ files scenarioLogo →
         path f = "v1/brands/" +:+ b_id scenarioBrand +:+ "/"
                  +:+ atg_type scenarioGroup +:+ "/" +:+ file f.
Proof.
  apply (X1_paths_derivable epoch scenarioTree scenarioManifest generatedLog
           scenarioBrand scenarioGroup scenarioLogo).
  - vm_compute. reflexivity.
  - left.
  - left.
  - left.
Defined.

(** X2: within a type group of an emitted manifest no two assets have the
    same id. *)
Theorem X2_ids_unique_in_group now brandDirs m logs b g :
  generateManifest now brandDirs = Ok (m, logs) →
  b ∈ brands m → g ∈ b_assetTypes b →
  NoDup (map id (atg_assets g)).
Proof.
  intros [Hscan _]%generateManifest_inv Hb Hg.
  destruct (scanBrands_inv _ _ _ Hscan Hb) as (be & _ & _ & _ & _ & _ & _ & Htypes & _).
  destruct (scanTypes_inv _ _ _ _ Htypes Hg) as (te & _ & _ & _ & Hassets & _).
  rewrite (groupAssets_ids _ _ _ _ Hassets), ownKeys_Permutation.
  apply NoDup_set_of.
Qed.

Lemma X2_ids_unique_in_group_witness :
  NoDup (map id (atg_assets scenarioGroup)).
Proof.
  apply (X2_ids_unique_in_group epoch scenarioTree scenarioManifest generatedLog
           scenarioBrand scenarioGroup).
  - vm_compute. reflexivity.
  - left.
  - left.
Defined.

(** X3: an asset of an emitted manifest has at least one file; its
    [formats] are exactly the formats of its files, and its [sizes] are
    exactly the sizes of its files other than [null] and 0 (a file named
    [logo-0.png] has the size 0, which is not listed). *)
Theorem X3_sizes_and_formats_of_files now brandDirs m logs a :
  generateManifest now brandDirs = Ok (m, logs) → a ∈ assetsOf m →
  files a ≠ []
  ∧ (∀ fmt, fmt ∈ formats a ↔ ∃ f, f ∈ files a ∧ format f = fmt)
  ∧ (∀ n, n ∈ sizes a ↔ n ≠ 0 ∧ ∃ f, f ∈ files a ∧ size f = Some n).
Proof.
  intros Hgen Ha.
  destruct (assetsOf_inv _ _ _ _ _ Hgen Ha)
    as (be & te & _ & _ & _ & _ & _ & Hk & Heq).
  destruct (buildGroup_fields (be_name be) (te_name te) (id a)
              (List.filter (named (id a)) (parsedList (te_files te))))
    as (_ & _ & _ & _ & Hsizes & Hformats & Hfiles).
  cbn zeta in *.
  set (entries := List.filter (named (id a)) (parsedList (te_files te))) in *.
  assert (files a = map (fileRecord (be_name be) (te_name te)) entries) as Hf
    by (rewrite Heq at 1; apply Hfiles).
  assert (formats a = sort_strings (set_of (map (fun p => Js.slice1 (p_ext p)) entries)))
    as Hfm by (rewrite Heq at 1; cbn; by rewrite Hformats).
  assert (sizes a = sort_numbers (set_of (omap (fun p => truthy_size (p_size p)) entries)))
    as Hsz by (rewrite Heq at 1; cbn; by rewrite Hsizes).
  split_and!.
  - rewrite Hf. apply list_elem_of_fmap in Hk as (p & Hp & Hin).
    assert (p ∈ entries) as Hpe.
    { apply list_elem_of_In, filter_In. split; [by apply list_elem_of_In|].
      unfold named. rewrite <- Hp. apply String.eqb_refl. }
    destruct entries; [by apply elem_of_nil in Hpe|done].
  - intros fmt. rewrite Hfm, Hf. unfold sort_strings.
    rewrite merge_sort_Permutation, elem_of_set_of, list_elem_of_fmap.
    split.
    + intros (p & -> & Hp). exists (fileRecord (be_name be) (te_name te) p).
      split; [|done]. apply list_elem_of_fmap. by exists p.
    + intros (f & (p & -> & Hp)%list_elem_of_fmap & <-). by exists p.
  - intros n. rewrite Hsz, Hf. unfold sort_numbers.
    rewrite merge_sort_Permutation, elem_of_set_of, list_elem_of_omap.
    split.
    + intros (p & Hp & Hn). unfold truthy_size in Hn.
      destruct (p_size p) as [[|k]|] eqn:Hs; simplify_eq.
      split; [done|]. exists (fileRecord (be_name be) (te_name te) p).
      split; [|done]. apply list_elem_of_fmap. by exists p.
    + intros (Hn & f & (p & -> & Hp)%list_elem_of_fmap & Hs). exists p.
      split; [done|]. cbn in Hs. rewrite Hs. by destruct n.
Qed.

Lemma X3_sizes_and_formats_of_files_witness :
  files scenarioLogo ≠ []
  ∧ (∀ fmt, fmt ∈ formats scenarioLogo ↔ ∃ f, f ∈ files scenarioLogo ∧ format f = fmt)
  ∧ (∀ n, n ∈ sizes scenarioLogo
          ↔ n ≠ 0 ∧ ∃ f, f ∈ files scenarioLogo ∧ size f = Some n).
Proof.
  apply (X3_sizes_and_formats_of_files epoch scenarioTree scenarioManifest generatedLog).
  - vm_compute. reflexivity.
  - left.
Defined.

Lemma scanTypes_fwd brandId entries groups te :
  scanTypes brandId entries = Ok groups → te ∈ entries → te_isDirectory te = true →
  ∃ assets,
    groupAssets brandId (te_name te) (te_files te) = Ok assets
    ∧ (assets ≠ [] → {| atg_type := te_name te; atg_assets := assets |} ∈ groups).
Proof.
  revert groups. induction entries as [|te0 entries IH]; intros groups Hscan Hte Hdir.
  - by apply elem_of_nil in Hte.
  - cbn in Hscan. destruct (te_isDirectory te0) eqn:Hdir0; cbn in Hscan.
    + destruct (groupAssets brandId (te_name te0) (te_files te0))
        as [assets0|] eqn:Hassets0; cbn in Hscan; [|done].
      destruct (scanTypes brandId entries) as [later|] eqn:Hlater;
        cbn in Hscan; [|done].
      apply elem_of_cons in Hte as [->|Hte].
      * exists assets0. split; [done|]. intros Hne.
        destruct assets0; [done|]. cbn in Hscan. simplify_eq. left.
      * destruct (IH later eq_refl Hte Hdir) as (assets & Hassets & Hin).
        exists assets. split; [done|]. intros Hne.
        destruct assets0; cbn in Hscan; simplify_eq; [by auto|].
        right. by auto.
    + apply elem_of_cons in Hte as [->|Hte]; [congruence|]. by apply IH.
Qed.

Lemma scanBrands_fwd brandDirs brands be :
  scanBrands brandDirs = Ok brands → be ∈ brandDirs → be_isDirectory be = true →
  ∃ types,
    scanTypes (be_name be) (be_entries be) = Ok types
    ∧ (types ≠ [] →
       {| b_id := be_name be; b_name := titleCase (be_name be);
          b_tags := None; b_aliases := None; b_assetTypes := types |} ∈ brands).
Proof.
  revert brands. induction brandDirs as [|be0 brandDirs IH]; intros brands Hscan Hbe Hdir.
  - by apply elem_of_nil in Hbe.
  - cbn in Hscan. destruct (be_isDirectory be0) eqn:Hdir0; cbn in Hscan.
    + destruct (scanTypes (be_name be0) (be_entries be0))
        as [types0|] eqn:Htypes0; cbn in Hscan; [|done].
      destruct (scanBrands brandDirs) as [later|] eqn:Hlater;
        cbn in Hscan; [|done].
      apply elem_of_cons in Hbe as [->|Hbe].
      * exists types0. split; [done|]. intros Hne.
        destruct types0; [done|]. cbn in Hscan. simplify_eq. left.
      * destruct (IH later eq_refl Hbe Hdir) as (types & Htypes & Hin).
        exists types. split; [done|]. intros Hne.
        destruct types0; cbn in Hscan; simplify_eq; [by auto|].
        right. by auto.
    + apply elem_of_cons in Hbe as [->|Hbe]; [congruence|]. by apply IH.
Qed.

Lemma groupAssets_covers_file brandId assetType listing assets f p :
  groupAssets brandId assetType listing = Ok assets →
  f ∈ listing → parseFile f = Some p →
  ∃ a, a ∈ assets ∧ id a = p_assetName p
       ∧ fileRecord brandId assetType p ∈ files a.
Proof.
  rewrite groupAssets_spec.
  destruct (existsb inherited (parsedList listing)); [done|].
  intros [= <-] Hf Hparse.
  assert (p ∈ parsedList listing) as Hp by (apply elem_of_parsedList; eauto).
  destruct (buildGroup_fields brandId assetType (p_assetName p)
              (List.filter (named (p_assetName p)) (parsedList listing)))
    as (Hid & _ & _ & _ & _ & _ & Hfiles).
  cbn zeta in *.
  exists (toAsset (buildGroup brandId assetType (p_assetName p)
                     (List.filter (named (p_assetName p)) (parsedList listing)))).
  split_and!.
  - apply list_elem_of_fmap. exists (p_assetName p). split; [done|].
    rewrite elem_of_ownKeys, elem_of_set_of. apply list_elem_of_fmap. by exists p.
  - done.
  - cbn [files toAsset]. rewrite Hfiles. apply list_elem_of_fmap. exists p.
    split; [done|]. apply list_elem_of_In, filter_In.
    split; [by apply list_elem_of_In|]. apply String.eqb_refl.
Qed.

(** X4: the manifest loses no file.  Every name with an accepted extension
    in a type directory of a brand directory has a file record in the
    emitted manifest, with the path [v1/brands/<brand>/<type>/<name>] and
    the lower-cased extension as format. *)
Theorem X4_every_accepted_file_recorded now brandDirs m logs be te f :
  generateManifest now brandDirs = Ok (m, logs) →
  be ∈ brandDirs → be_isDirectory be = true →
  te ∈ be_entries be → te_isDirectory te = true →
  f ∈ te_files te → hasKnownExtension f = true →
  ∃ r, r ∈ filesOf m ∧ file r = f
       ∧ format r = Js.slice1 (Js.toLowerCase (Path.extname f))
       ∧ path r = "v1/brands/" +:+ be_name be +:+ "/" +:+ te_name te +:+ "/" +:+ f.
Proof.
  intros [Hscan _]%generateManifest_inv Hbe Hbdir Hte Htdir Hf Hknown.
  destruct (parseFile f) as [p|] eqn:Hparse;
    [|apply parseFile_None in Hparse; congruence].
  destruct (parseFile_Some _ _ Hparse) as (Hfile & Hext & _).
  destruct (scanBrands_fwd _ _ _ Hscan Hbe Hbdir) as (types & Htypes & Hbrand).
  destruct (scanTypes_fwd _ _ _ _ Htypes Hte Htdir) as (assets & Hassets & Hgroup).
  destruct (groupAssets_covers_file _ _ _ _ _ _ Hassets Hf Hparse)
    as (a & Ha & _ & Hrec).
  assert (assets ≠ []) as Hne by (intros ->; by apply elem_of_nil in Ha).
  specialize (Hgroup Hne).
  assert (types ≠ []) as Hne' by (intros ->; by apply elem_of_nil in Hgroup).
  specialize (Hbrand Hne').
  exists (fileRecord (be_name be) (te_name te) p). split_and!.
  - unfold filesOf, assetsOf.
    apply list_elem_of_bind. exists a. split; [done|].
    apply list_elem_of_bind. eexists. split; [|exact Hbrand]. cbn.
    apply list_elem_of_bind. eexists. split; [|exact Hgroup]. done.
  - done.
  - cbn. by rewrite Hext.
  - cbn. unfold dirPath. by rewrite Hfile, !append_assoc.
Qed.

Lemma X4_every_accepted_file_recorded_witness :
  ∃ r, r ∈ filesOf scenarioManifest ∧ file r = "logo-64.webp"
       ∧ format r = Js.slice1 (Js.toLowerCase (Path.extname "logo-64.webp"))
       ∧ path r = "v1/brands/" +:+ "acme" +:+ "/" +:+ "logos" +:+ "/" +:+ "logo-64.webp".
Proof.
  apply (X4_every_accepted_file_recorded epoch scenarioTree scenarioManifest generatedLog
           (brandDir "acme"
              [ dir "logos" ["logo.svg"; "logo-32.png"; "logo-64.png"; "logo-64.webp"] ])
           (dir "logos" ["logo.svg"; "logo-32.png"; "logo-64.png"; "logo-64.webp"])
           "logo-64.webp").
  - vm_compute. reflexivity.
  - left.
  - reflexivity.
  - left.
  - reflexivity.
  - right. right. right. left.
  - vm_compute. reflexivity.
Defined.

Lemma scanTypes_is_ok brandId entries :
  is_ok (scanTypes brandId entries) = true
  ↔ ∀ te, te ∈ entries → te_isDirectory te = true →
          is_ok (groupAssets brandId (te_name te) (te_files te)) = true.
Proof.
  induction entries as [|te0 entries IH]; cbn.
  - split; [|done]. intros _ te Hte. by apply elem_of_nil in Hte.
  - destruct (te_isDirectory te0) eqn:Hdir0; cbn.
    + destruct (groupAssets brandId (te_name te0) (te_files te0))
        as [assets0|] eqn:Hassets0; cbn.
      * destruct (scanTypes brandId entries) as [later|]; cbn in *.
        -- split; [|done]. intros _ te [->|Hte]%elem_of_cons Hdir.
           ++ by rewrite Hassets0.
           ++ by apply IH.
        -- split; [done|]. intros Hall. apply IH. intros te Hte. apply Hall. by right.
      * split; [done|]. intros Hall. specialize (Hall te0).
        rewrite Hassets0 in Hall. apply Hall; [left|done].
    + rewrite IH. split.
      * intros Hall te [->|Hte]%elem_of_cons Hdir; [congruence|by apply Hall].
      * intros Hall te Hte. apply Hall. by right.
Qed.

Lemma scanBrands_is_ok brandDirs :
  is_ok (scanBrands brandDirs) = true
  ↔ ∀ be, be ∈ brandDirs → be_isDirectory be = true →
          is_ok (scanTypes (be_name be) (be_entries be)) = true.
Proof.
  induction brandDirs as [|be0 brandDirs IH]; cbn.
  - split; [|done]. intros _ be Hbe. by apply elem_of_nil in Hbe.
  - destruct (be_isDirectory be0) eqn:Hdir0; cbn.
    + destruct (scanTypes (be_name be0) (be_entries be0))
        as [types0|] eqn:Htypes0; cbn.
      * destruct (scanBrands brandDirs) as [later|]; cbn in *.
        -- split; [|done]. intros _ be [->|Hbe]%elem_of_cons Hdir.
           ++ by rewrite Htypes0.
           ++ by apply IH.
        -- split; [done|]. intros Hall. apply IH. intros be Hbe. apply Hall. by right.
      * split; [done|]. intros Hall. specialize (Hall be0).
        rewrite Htypes0 in Hall. apply Hall; [left|done].
    + rewrite IH. split.
      * intros Hall be [->|Hbe]%elem_of_cons Hdir; [congruence|by apply Hall].
      * intros Hall be Hbe. apply Hall. by right.
Qed.

(** X5: the generator throws (a [TypeError]) exactly when, in some type
    directory of some brand directory, a name with an accepted extension
    parses to an id that [Object.prototype] holds, such as
    [constructor-64.png]; on every other tree it returns a manifest. *)
Theorem X5_throws_on_inherited_id now brandDirs :
  (∃ m logs, generateManifest now brandDirs = Ok (m, logs))
  ↔ noInheritedId brandDirs.
Proof.
  assert ((∃ m logs, generateManifest now brandDirs = Ok (m, logs))
          ↔ is_ok (scanBrands brandDirs) = true) as ->.
  { unfold generateManifest. destruct (scanBrands brandDirs); cbn.
    - split; [done|]. intros _. by eexists _, _.
    - split; [|done]. by intros (m & logs & ?). }
  rewrite scanBrands_is_ok. unfold noInheritedId. split.
  - intros Hall be te f p Hbe Hbdir Hte Htdir Hf Hparse.
    specialize (Hall be Hbe Hbdir). rewrite scanTypes_is_ok in Hall.
    specialize (Hall te Hte Htdir). rewrite groupAssets_is_ok in Hall.
    apply negb_true_iff in Hall.
    destruct (inherited p) eqn:Hp; [|done].
    assert (existsb inherited (parsedList (te_files te)) = true); [|congruence].
    apply existsb_exists. exists p. split; [|done].
    apply list_elem_of_In, elem_of_parsedList. eauto.
  - intros Hall be Hbe Hbdir. apply scanTypes_is_ok. intros te Hte Htdir.
    rewrite groupAssets_is_ok. apply negb_true_iff.
    destruct (existsb inherited (parsedList (te_files te))) eqn:Hex; [|done].
    apply existsb_exists in Hex as (p & Hp%list_elem_of_In & Hinh).
    apply elem_of_parsedList in Hp as (f & Hf & Hparse).
    by rewrite (Hall be te f p) in Hinh.
Qed.

Example generateManifest_throws :
  generateManifest epoch [ brandDir "acme" [ dir "logos" ["logo.svg"; "constructor-64.png"] ] ]
  = Throw typeErrorMessage.
Proof. by vm_compute. Qed.

(* ========================================================================= *)
(** * The grammar of file names *)

Lemma of_list_app (l1 l2 : list ascii) :
  Js.of_list (l1 ++ l2) = Js.of_list l1 +:+ Js.of_list l2.
Proof.
  induction l1 as [|c l1 IH]; [done|].
  change (String c (Js.of_list (l1 ++ l2)) = String c (Js.of_list l1 +:+ Js.of_list l2)).
  by rewrite IH.
Qed.

Lemma to_list_app (s t : string) :
  Js.to_list (s +:+ t) = Js.to_list s ++ Js.to_list t.
Proof.
  induction s as [|c s IH]; [done|].
  change (c :: Js.to_list (s +:+ t) = c :: (Js.to_list s ++ Js.to_list t)).
  by rewrite IH.
Qed.

Lemma of_to_list (s : string) : Js.of_list (Js.to_list s) = s.
Proof. apply string_of_list_ascii_of_string. Qed.

Lemma to_of_list (l : list ascii) : Js.to_list (Js.of_list l) = l.
Proof. apply list_ascii_of_string_of_list_ascii. Qed.

Lemma forallb_rev {A} (P : A → bool) (l : list A) :
  forallb P (rev l) = forallb P l.
Proof.
  induction l as [|x l IH]; [done|].
  cbn. rewrite forallb_app, IH. cbn. by rewrite andb_true_r, andb_comm.
Qed.

Lemma span_digits_inv l ds rest :
  span_digits l = (ds, rest) →
  l = ds ++ rest ∧ forallb Js.is_digit ds = true.
Proof.
  revert ds rest. induction l as [|c l IH]; intros ds rest; cbn.
  - by intros [= <- <-].
  - destruct (Js.is_digit c) eqn:Hc.
    + destruct (span_digits l) as [ds' rest'].
      intros [= <- <-]. destruct (IH ds' rest' eq_refl) as [-> Hds].
      split; [done|]. cbn. by rewrite Hc.
    + by intros [= <- <-].
Qed.

Lemma span_digits_app ds c rest :
  forallb Js.is_digit ds = true → Js.is_digit c = false →
  span_digits (ds ++ c :: rest) = (ds, c :: rest).
Proof.
  intros Hds Hc. induction ds as [|d ds IH]; cbn.
  - by rewrite Hc.
  - cbn in Hds. apply andb_true_iff in Hds as [Hd Hds].
    by rewrite Hd, IH.
Qed.

Lemma sizeMatch_iff (baseName stem digits : string) :
  sizeMatch baseName = Some (stem, digits)
  ↔ baseName = stem +:+ "-" +:+ digits
    ∧ stem ≠ "" ∧ digits ≠ ""
    ∧ forallb Js.is_digit (Js.to_list digits) = true
    ∧ forallb (fun c => negb (is_line_terminator c)) (Js.to_list stem) = true.
Proof.
  unfold sizeMatch. split.
  - destruct (span_digits (rev (Js.to_list baseName))) as [ds rest] eqn:Hspan.
    apply span_digits_inv in Hspan as [Hrev Hds].
    destruct ds as [|d ds]; [done|]. destruct rest as [|dash [|c stem']]; [done..|].
    destruct (Ascii.eqb_spec dash "-") as [->|]; [|done]. cbn [andb].
    destruct (forallb _ (c :: stem')) eqn:Hstem; [|done].
    intros [= <- <-].
    apply (f_equal (@rev ascii)) in Hrev. rewrite rev_involutive, rev_app_distr in Hrev.
    split_and!.
    + rewrite <- (of_to_list baseName), Hrev.
      change (rev ("-"%char :: c :: stem')) with (rev (c :: stem') ++ ["-"%char]).
      rewrite <- app_assoc, (of_list_app (rev (c :: stem'))).
      rewrite (of_list_app ["-"%char]). reflexivity.
    + intros Heq. apply (f_equal Js.to_list) in Heq. rewrite to_of_list in Heq.
      apply (f_equal (@length ascii)) in Heq.
      simpl in Heq. rewrite length_app in Heq. simpl in Heq. lia.
    + intros Heq. apply (f_equal Js.to_list) in Heq. rewrite to_of_list in Heq.
      apply (f_equal (@length ascii)) in Heq.
      simpl in Heq. rewrite length_app in Heq. simpl in Heq. lia.
    + rewrite to_of_list. change (forallb Js.is_digit (rev (d :: ds)) = true).
      by rewrite forallb_rev.
    + rewrite to_of_list.
      change (forallb (fun c => negb (is_line_terminator c)) (rev (c :: stem')) = true).
      by rewrite forallb_rev.
  - intros (-> & Hstem & Hdigits & Hds & Hlt).
    rewrite !to_list_app, !rev_app_distr, <- app_assoc.
    change (rev (Js.to_list "-")) with ["-"%char]. cbn [app].
    rewrite span_digits_app; [| by rewrite forallb_rev | done].
    destruct (rev (Js.to_list digits)) as [|d ds] eqn:Hd.
    { exfalso. apply Hdigits. rewrite <- (of_to_list digits).
      apply (f_equal (@rev ascii)) in Hd. rewrite rev_involutive in Hd.
      by rewrite Hd. }
    destruct (rev (Js.to_list stem)) as [|c stem'] eqn:Hs.
    { exfalso. apply Hstem. rewrite <- (of_to_list stem).
      apply (f_equal (@rev ascii)) in Hs. rewrite rev_involutive in Hs.
      by rewrite Hs. }
    rewrite <- Hs, <- Hd, forallb_rev, Hlt, !rev_involutive, !of_to_list. done.
Qed.

(** X6: the pattern [/^(.+?)-(\d+)$/] of the generator matches a base name
    exactly when the name is a non-empty stem without line terminator, a
    hyphen and a non-empty run of decimal digits; the two groups are then
    that stem and that run.  The split is unique: the stem may itself hold
    hyphens and digits ([logo-on-brand-128], [icon-2024]). *)
Theorem X6_size_suffix_grammar (baseName stem digits : string) :
  sizeMatch baseName = Some (stem, digits)
  ↔ baseName = stem +:+ "-" +:+ digits
    ∧ stem ≠ "" ∧ digits ≠ ""
    ∧ forallb Js.is_digit (Js.to_list digits) = true
    ∧ forallb (fun c => negb (is_line_terminator c)) (Js.to_list stem) = true.
Proof. apply sizeMatch_iff. Qed.

(** ** Decimal numerals *)

Lemma parseInt_acc (d : Decimal.uint) (acc : positive) :
  fold_left (fun a c => 10 * a + Js.digit_value c)
            (Js.to_list (NilEmpty.string_of_uint d)) (Npos acc)
  = Npos (Pos.of_uint_acc d acc).
Proof.
  revert acc. induction d as [|d IH|d IH|d IH|d IH|d IH|d IH|d IH|d IH|d IH|d IH];
    intros acc; [done|..];
    cbn [NilEmpty.string_of_uint Pos.of_uint_acc];
    change (Js.to_list (String ?c ?s)) with (c :: Js.to_list s);
    cbn [fold_left]; rewrite <- IH; f_equal; unfold Js.digit_value; cbn; lia.
Qed.

Lemma parseInt_of_uint (d : Decimal.uint) :
  Js.parseInt (NilEmpty.string_of_uint d) = N.of_uint d.
Proof.
  unfold Js.parseInt, N.of_uint.
  induction d as [|d IH|d IH|d IH|d IH|d IH|d IH|d IH|d IH|d IH|d IH];
    [done|exact IH|..];
    cbn [NilEmpty.string_of_uint Pos.of_uint];
    change (Js.to_list (String ?c ?s)) with (c :: Js.to_list s);
    cbn [fold_left]; rewrite <- parseInt_acc; f_equal.
Qed.

(** [parseInt(String(n), 10)] is [n]. *)
Lemma parseInt_decimal (n : N) : Js.parseInt (decimal n) = n.
Proof.
  unfold decimal. rewrite parseInt_of_uint. apply DecimalN.Unsigned.of_to.
Qed.

Lemma decimal_digits (n : N) : forallb Js.is_digit (Js.to_list (decimal n)) = true.
Proof.
  unfold decimal. generalize (N.to_uint n). intros d.
  induction d as [|d IH|d IH|d IH|d IH|d IH|d IH|d IH|d IH|d IH|d IH];
    [done|..]; cbn [NilEmpty.string_of_uint];
    change (Js.to_list (String ?c ?s)) with (c :: Js.to_list s);
    cbn [forallb]; rewrite IH; reflexivity.
Qed.

Lemma decimal_nonempty (n : N) : decimal n ≠ "".
Proof.
  intros Heq. pose proof (parseInt_decimal n) as Hn. rewrite Heq in Hn.
  cbn in Hn. subst n. discriminate Heq.
Qed.

(** ** Names that end in an accepted extension *)

Lemma length_append (s t : string) :
  String.length (s +:+ t) = (String.length s + String.length t)%nat.
Proof.
  induction s as [|c s IH]; [done|].
  change (S (String.length (s +:+ t)) = S (String.length s + String.length t)).
  by rewrite IH.
Qed.

Lemma substring_all (t : string) : String.substring 0 (String.length t) t = t.
Proof. induction t as [|c t IH]; [done|]. cbn. by rewrite IH. Qed.

Lemma substring_append_r (s t : string) :
  String.substring (String.length s) (String.length t) (s +:+ t) = t.
Proof.
  induction s as [|c s IH]; [apply substring_all|].
  change (String.substring (String.length s) (String.length t) (s +:+ t) = t).
  exact IH.
Qed.

Lemma substring_append_l (s t : string) :
  String.substring 0 (String.length s) (s +:+ t) = s.
Proof.
  induction s as [|c s IH]; [by destruct t|].
  change (String c (String.substring 0 (String.length s) (s +:+ t)) = String c s).
  by rewrite IH.
Qed.

Lemma known_extension_cases (ext : string) :
  ext ∈ knownExtensions →
  ext = ".svg" ∨ ext = ".png" ∨ ext = ".jpg" ∨ ext = ".jpeg" ∨ ext = ".webp"
  ∨ ext = ".avif".
Proof.
  unfold knownExtensions. rewrite !elem_of_cons, elem_of_nil. tauto.
Qed.

Lemma last_dot_append (s ext : string) (i : nat) (acc : option nat) :
  ext ∈ knownExtensions →
  Path.last_dot_from i (s +:+ ext) acc = Some (i + String.length s)%nat.
Proof.
  intros Hext. revert i acc. induction s as [|c s IH]; intros i acc.
  - rewrite Nat.add_0_r.
    destruct (known_extension_cases ext Hext)
      as [->|[->|[->|[->|[->| ->]]]]]; reflexivity.
  - change (Path.last_dot_from (S i) (s +:+ ext)
              (if Ascii.eqb c "." then Some i else acc)
            = Some (i + S (String.length s))%nat).
    rewrite IH. f_equal. lia.
Qed.

Lemma extname_append (s ext : string) :
  s ≠ "" → ext ∈ knownExtensions → Path.extname (s +:+ ext) = ext.
Proof.
  intros Hs Hext. unfold Path.extname, Path.last_dot.
  rewrite last_dot_append by done. cbn [Nat.add].
  destruct s as [|c s]; [done|].
  cbn [String.length].
  assert (String.eqb (String c s +:+ ext) ".." = false) as ->.
  { apply String.eqb_neq. intros Heq.
    apply (f_equal String.length) in Heq. rewrite length_append in Heq.
    destruct (known_extension_cases ext Hext)
      as [->|[->|[->|[->|[->| ->]]]]]; cbn in Heq; lia. }
  rewrite length_append. cbn [String.length].
  replace (S (String.length s) + String.length ext - S (String.length s))%nat
    with (String.length ext) by lia.
  apply (substring_append_r (String c s) ext).
Qed.

Lemma basename_append (s ext : string) :
  s ≠ "" → ext ∈ knownExtensions → Path.basename (s +:+ ext) ext = s.
Proof.
  intros Hs Hext. unfold Path.basename.
  assert (String.eqb ext "" = false) as ->.
  { destruct (known_extension_cases ext Hext)
      as [->|[->|[->|[->|[->| ->]]]]]; reflexivity. }
  assert (String.eqb ext (s +:+ ext) = false) as ->.
  { apply String.eqb_neq. intros Heq.
    apply (f_equal String.length) in Heq. rewrite length_append in Heq.
    destruct s; [done|]. cbn in Heq. lia. }
  unfold Js.strip_suffix. rewrite length_append.
  replace (String.length ext <=? String.length s + String.length ext)%nat
    with true by (symmetry; apply Nat.leb_le; lia).
  replace (String.length s + String.length ext - String.length ext)%nat
    with (String.length s) by lia.
  by rewrite substring_append_r, String.eqb_refl, substring_append_l.
Qed.

Lemma known_extension_lower (ext : string) :
  ext ∈ knownExtensions →
  Js.toLowerCase ext = ext ∧ includes knownExtensions ext = true.
Proof.
  intros Hext.
  destruct (known_extension_cases ext Hext)
    as [->|[->|[->|[->|[->| ->]]]]]; by vm_compute.
Qed.

(** X7: a name built by the convention of the pipeline is read back by the
    generator.  For an accepted lower-case extension, [<stem>-<digits><ext>]
    (stem not empty, without line terminator) parses to the asset [stem]
    with the size the digits denote, and [<base><ext>] with a base that has
    no size suffix parses to the asset [base] with the size [null]. *)
Theorem X7_conventional_names_parse (ext : string) :
  ext ∈ knownExtensions →
  (∀ stem digits,
     stem ≠ "" → digits ≠ "" →
     forallb Js.is_digit (Js.to_list digits) = true →
     forallb (fun c => negb (is_line_terminator c)) (Js.to_list stem) = true →
     parseFile (stem +:+ "-" +:+ digits +:+ ext)
     = Some {| p_file := stem +:+ "-" +:+ digits +:+ ext;
               p_assetName := stem;
               p_size := Some (Js.parseInt digits);
               p_ext := ext |})
  ∧ (∀ base,
       base ≠ "" → sizeMatch base = None →
       parseFile (base +:+ ext)
       = Some {| p_file := base +:+ ext; p_assetName := base;
                 p_size := None; p_ext := ext |}).
Proof.
  intros Hext. destruct (known_extension_lower ext Hext) as [Hlower Hknown].
  assert (∀ base, base ≠ "" →
            parseFile (base +:+ ext)
            = match sizeMatch base with
              | Some (stem, digits) =>
                  Some {| p_file := base +:+ ext; p_assetName := stem;
                          p_size := Some (Js.parseInt digits); p_ext := ext |}
              | None =>
                  Some {| p_file := base +:+ ext; p_assetName := base;
                          p_size := None; p_ext := ext |}
              end) as Hparse.
  { intros base Hbase. unfold parseFile.
    rewrite extname_append, Hlower, Hknown, basename_append by done. done. }
  split.
  - intros stem digits Hstem Hdigits Hds Hlt.
    replace (stem +:+ "-" +:+ digits +:+ ext)
      with ((stem +:+ "-" +:+ digits) +:+ ext) by (by rewrite !append_assoc).
    rewrite Hparse by (by destruct stem).
    by rewrite (proj2 (sizeMatch_iff (stem +:+ "-" +:+ digits) stem digits)).
  - intros base Hbase Hnone. by rewrite Hparse, Hnone.
Qed.

Lemma X7_conventional_names_parse_witness :
  (∀ stem digits,
     stem ≠ "" → digits ≠ "" →
     forallb Js.is_digit (Js.to_list digits) = true →
     forallb (fun c => negb (is_line_terminator c)) (Js.to_list stem) = true →
     parseFile (stem +:+ "-" +:+ digits +:+ ".png")
     = Some {| p_file := stem +:+ "-" +:+ digits +:+ ".png";
               p_assetName := stem;
               p_size := Some (Js.parseInt digits);
               p_ext := ".png" |})
  ∧ (∀ base,
       base ≠ "" → sizeMatch base = None →
       parseFile (base +:+ ".png")
       = Some {| p_file := base +:+ ".png"; p_assetName := base;
                 p_size := None; p_ext := ".png" |}).
Proof.
  apply (X7_conventional_names_parse ".png").
  right. left.
Defined.

(* ========================================================================= *)
(** * Further properties of the pipeline *)

Lemma parseFile_append (base ext : string) :
  base ≠ "" → ext ∈ knownExtensions →
  parseFile (base +:+ ext)
  = match sizeMatch base with
    | Some (stem, digits) =>
        Some {| p_file := base +:+ ext; p_assetName := stem;
                p_size := Some (Js.parseInt digits); p_ext := ext |}
    | None =>
        Some {| p_file := base +:+ ext; p_assetName := base;
                p_size := None; p_ext := ext |}
    end.
Proof.
  intros Hbase Hext. destruct (known_extension_lower ext Hext) as [Hlower Hknown].
  unfold parseFile.
  rewrite extname_append, Hlower, Hknown, basename_append by done. done.
Qed.

(** The tasks of one size: each comes from a multiplier and a format. *)
Lemma variantTasks_inv inputPath outputDir baseName inputExt formats generateRetina
    metaWidth sizeConfig t :
  t ∈ (variantTasks inputPath outputDir baseName inputExt formats generateRetina
         metaWidth sizeConfig).2 →
  let sizeSuffix :=
    if Js.truthy (sc_name sizeConfig)
    then "-" +:+ Js.String_of (sc_name sizeConfig) else "" in
  sc_width sizeConfig <= metaWidth
  ∧ t_input t = inputPath
  ∧ t_outputPath t = join outputDir (t_outputName t)
  ∧ (∃ fmt, fmt ∈ formats
            ∧ t_format t = (if String.eqb fmt "original" then inputExt else fmt))
  ∧ ((t_width t = sc_width sizeConfig
      ∧ t_outputName t = baseName +:+ sizeSuffix +:+ "." +:+ t_format t)
     ∨ (generateRetina = true
        ∧ sc_width sizeConfig * 2 <= metaWidth
        ∧ t_width t = sc_width sizeConfig * 2
        ∧ t_outputName t = baseName +:+ sizeSuffix +:+ "@2x" +:+ "." +:+ t_format t)).
Proof.
  unfold variantTasks. cbn zeta.
  destruct (N.ltb_spec metaWidth (sc_width sizeConfig)) as [Hlt|Hle];
    [by intros ?%elem_of_nil|].
  cbn [snd]. intros (multiplier & Ht & Hm)%list_elem_of_bind.
  apply list_elem_of_fmap in Ht as (fmt & -> & Hfmt). cbn [t_input t_outputPath
    t_outputName t_format t_width].
  split_and!; [done | done | done | by exists fmt |].
  destruct (generateRetina && (sc_width sizeConfig * 2 <=? metaWidth)) eqn:Hretina.
  - apply andb_true_iff in Hretina as [-> Hfits%N.leb_le].
    apply elem_of_cons in Hm as [->|Hm].
    + left. split; [lia|]. done.
    + apply list_elem_of_singleton in Hm as ->. right. done.
  - apply list_elem_of_singleton in Hm as ->. left. split; [lia|]. done.
Qed.

Lemma planTasks_inv inputPath outputDir assetConfig globalConfig metaWidth t :
  t ∈ (planTasks inputPath outputDir assetConfig globalConfig metaWidth).2 →
  ∃ sizeConfig formats,
    formats = match ac_formats assetConfig, defaults_formats globalConfig with
              | Some l, _ => l
              | None, Some l => l
              | None, None => ["original"]
              end
    ∧ (sizeConfig ∈ match ac_sizes assetConfig, defaults_sizes globalConfig with
                    | Some l, _ => l
                    | None, Some l => l
                    | None, None => []
                    end
       ∨ sizeConfig = {| sc_name := None; sc_width := metaWidth; sc_height := None |})
    ∧ t ∈ (variantTasks inputPath outputDir (getBaseName inputPath)
             (Js.slice1 (Js.toLowerCase (Path.extname (lastSegment inputPath))))
             formats (ac_generateRetina assetConfig) metaWidth sizeConfig).2.
Proof.
  unfold planTasks. cbn zeta. cbn [snd].
  intros (planned & Ht & Hp)%list_elem_of_bind.
  apply list_elem_of_fmap in Hp as (sizeConfig & -> & Hsc).
  eexists sizeConfig, _. split; [reflexivity|]. split; [|exact Ht].
  destruct (0 <? length _)%nat; [by left|].
  apply list_elem_of_singleton in Hsc. by right.
Qed.

(** X8: no planned conversion enlarges its source.  Every task that
    [processRasterImage] plans for an image of width [metaWidth] reads that
    image, resizes to a width of at most [metaWidth] (also for the doubled
    retina variant), writes into the output directory under its output
    name, and encodes in a configured format, or in the lower-cased
    extension of the source where the configuration says [original]. *)
Theorem X8_tasks_never_upscale inputPath outputDir assetConfig globalConfig metaWidth t :
  t ∈ (planTasks inputPath outputDir assetConfig globalConfig metaWidth).2 →
  t_width t <= metaWidth
  ∧ t_input t = inputPath
  ∧ t_outputPath t = join outputDir (t_outputName t)
  ∧ ∃ fmt,
      fmt ∈ match ac_formats assetConfig, defaults_formats globalConfig with
            | Some l, _ => l
            | None, Some l => l
            | None, None => ["original"]
            end
      ∧ t_format t
        = if String.eqb fmt "original"
          then Js.slice1 (Js.toLowerCase (Path.extname (lastSegment inputPath)))
          else fmt.
Proof.
  intros (sizeConfig & formats & -> & _ & Ht)%planTasks_inv.
  apply variantTasks_inv in Ht as (Hle & Hin & Hout & Hfmt & Hcases).
  split_and!; try done.
  destruct Hcases as [[-> _]|(_ & Hfits & -> & _)]; lia.
Qed.

Lemma X8_tasks_never_upscale_witness :
  t_width failingTask <= 512
  ∧ t_input failingTask = "/repo/_source/brands/acme/logos/logo.png"
  ∧ t_outputPath failingTask
    = join "/repo/assets/v1/brands/acme/logos" (t_outputName failingTask)
  ∧ ∃ fmt,
      fmt ∈ ["png"; "webp"]
      ∧ t_format failingTask
        = if String.eqb fmt "original"
          then Js.slice1 (Js.toLowerCase (Path.extname
                 (lastSegment "/repo/_source/brands/acme/logos/logo.png")))
          else fmt.
Proof.
  apply (X8_tasks_never_upscale "/repo/_source/brands/acme/logos/logo.png"
           "/repo/assets/v1/brands/acme/logos"
           {| ac_sizes := Some demoSizes; ac_formats := Some ["png"; "webp"];
              ac_generateRetina := false |}
           demoConfig 512 failingTask).
  right. left.
Defined.

(** X9: without any configured size and format, one file is planned for a
    source image of positive width: the image at its own width, under its
    own base name with its lower-cased extension, also when retina variants
    are asked for; nothing is skipped. *)
Theorem X9_default_plan_keeps_source inputPath outputDir generateRetina globalConfig
    metaWidth :
  0 < metaWidth →
  defaults_sizes globalConfig = None → defaults_formats globalConfig = None →
  let inputExt := Js.slice1 (Js.toLowerCase (Path.extname (lastSegment inputPath))) in
  planTasks inputPath outputDir
    {| ac_sizes := None; ac_formats := None; ac_generateRetina := generateRetina |}
    globalConfig metaWidth
  = ([], [ {| t_input := inputPath;
              t_width := metaWidth;
              t_height := None;
              t_format := inputExt;
              t_outputName := getBaseName inputPath +:+ "." +:+ inputExt;
              t_outputPath :=
                join outputDir (getBaseName inputPath +:+ "." +:+ inputExt) |} ]).
Proof.
  intros Hpos Hsizes Hformats. unfold planTasks, variantTasks. cbn zeta.
  cbn [ac_sizes ac_formats ac_generateRetina]. rewrite Hsizes, Hformats.
  cbn [length Nat.ltb Nat.leb map sc_width sc_name sc_height Js.truthy].
  rewrite N.ltb_irrefl.
  destruct (generateRetina && (metaWidth * 2 <=? metaWidth)) eqn:Hretina.
  - apply andb_true_iff in Hretina as [_ Hfits%N.leb_le]. lia.
  - cbn. by rewrite N.mul_1_r.
Qed.

Lemma X9_default_plan_keeps_source_witness :
  planTasks "/repo/_source/brands/acme/logos/Logo.PNG" "/repo/assets/v1/brands/acme/logos"
    {| ac_sizes := None; ac_formats := None; ac_generateRetina := true |}
    {| sourceDir := "_source"; outputDir := "assets/v1"; cfg_brands := [];
       defaults_sizes := None; defaults_formats := None |} 512
  = ([], [ {| t_input := "/repo/_source/brands/acme/logos/Logo.PNG";
              t_width := 512;
              t_height := None;
              t_format := "png";
              t_outputName := "Logo.png";
              t_outputPath := "/repo/assets/v1/brands/acme/logos/Logo.png" |} ]).
Proof.
  apply (X9_default_plan_keeps_source "/repo/_source/brands/acme/logos/Logo.PNG"
           "/repo/assets/v1/brands/acme/logos" true
           {| sourceDir := "_source"; outputDir := "assets/v1"; cfg_brands := [];
              defaults_sizes := None; defaults_formats := None |} 512).
  - reflexivity.
  - reflexivity.
  - reflexivity.
Defined.

Lemma append_nonempty_r (s t : string) : t ≠ "" → s +:+ t ≠ "".
Proof.
  intros Ht Heq. apply (f_equal String.length) in Heq.
  rewrite length_append in Heq. destruct t; [done|]. cbn in Heq. lia.
Qed.

Lemma sizeMatch_ends_nondigit (s : string) (c : ascii) :
  Js.is_digit c = false → sizeMatch (s +:+ String c "") = None.
Proof.
  intros Hc. unfold sizeMatch. rewrite to_list_app, rev_app_distr.
  change (rev (Js.to_list (String c ""))) with [c]. cbn [app span_digits].
  by rewrite Hc.
Qed.

(** X10: what the pipeline writes for a size that is named by its width is
    read back by the generator as that size of the source's asset.  Without
    retina variants, the output name [<base>-<width>.<format>] of every task
    of such a size parses to the asset id [base] and the size [width]. *)
Theorem X10_output_names_read_back inputPath outputDir baseName inputExt formats
    metaWidth sizeConfig t :
  sc_name sizeConfig = Some (decimal (sc_width sizeConfig)) →
  baseName ≠ "" →
  forallb (fun c => negb (is_line_terminator c)) (Js.to_list baseName) = true →
  t ∈ (variantTasks inputPath outputDir baseName inputExt formats false
         metaWidth sizeConfig).2 →
  "." +:+ t_format t ∈ knownExtensions →
  t_outputName t
  = baseName +:+ "-" +:+ decimal (sc_width sizeConfig) +:+ "." +:+ t_format t
  ∧ parseFile (t_outputName t)
    = Some {| p_file := t_outputName t;
              p_assetName := baseName;
              p_size := Some (sc_width sizeConfig);
              p_ext := "." +:+ t_format t |}.
Proof.
  intros Hname Hbase Hlt Ht Hext.
  apply variantTasks_inv in Ht as (_ & _ & _ & _ & Hcases). cbn zeta in Hcases.
  destruct Hcases as [[_ Hout]|(? & _)]; [|done].
  rewrite Hname in Hout.
  assert (Js.truthy (Some (decimal (sc_width sizeConfig))) = true) as Htruthy.
  { pose proof (decimal_nonempty (sc_width sizeConfig)).
    by destruct (decimal (sc_width sizeConfig)). }
  rewrite Htruthy in Hout. cbn [Js.String_of] in Hout.
  assert (t_outputName t
          = (baseName +:+ "-" +:+ decimal (sc_width sizeConfig))
            +:+ ("." +:+ t_format t)) as Hsplit
    by (by rewrite Hout, !append_assoc).
  split; [by rewrite Hout, !append_assoc|].
  rewrite Hsplit at 1.
  rewrite parseFile_append; [| by destruct baseName | done].
  rewrite (proj2 (sizeMatch_iff (baseName +:+ "-" +:+ decimal (sc_width sizeConfig))
                    baseName (decimal (sc_width sizeConfig)))).
  - by rewrite parseInt_decimal, Hsplit.
  - split_and!; [done | done | apply decimal_nonempty | apply decimal_digits | done].
Qed.

Lemma X10_output_names_read_back_witness :
  t_outputName failingTask = "logo" +:+ "-" +:+ decimal 32 +:+ "." +:+ "webp"
  ∧ parseFile (t_outputName failingTask)
    = Some {| p_file := t_outputName failingTask;
              p_assetName := "logo";
              p_size := Some 32;
              p_ext := "." +:+ "webp" |}.
Proof.
  apply (X10_output_names_read_back "/repo/_source/brands/acme/logos/logo.png"
           "/repo/assets/v1/brands/acme/logos" "logo" "png" ["png"; "webp"] 512
           {| sc_name := Some "32"; sc_width := 32; sc_height := None |} failingTask).
  - reflexivity.
  - discriminate.
  - reflexivity.
  - right. left.
  - right. right. right. right. left.
Defined.

(** X11: a retina variant is catalogued as an asset of its own.  The output
    name [<base><suffix>@2x.<format>] of the doubled variant of a size ends
    in [x], so it has no size suffix for the generator: it parses to the
    asset id [<base><suffix>@2x] with the size [null]. *)
Theorem X11_retina_outputs_are_separate_assets inputPath outputDir baseName inputExt
    formats generateRetina metaWidth sizeConfig t :
  t ∈ (variantTasks inputPath outputDir baseName inputExt formats generateRetina
         metaWidth sizeConfig).2 →
  "." +:+ t_format t ∈ knownExtensions →
  sc_width sizeConfig ≠ 0 → t_width t = sc_width sizeConfig * 2 →
  let sizeSuffix :=
    if Js.truthy (sc_name sizeConfig)
    then "-" +:+ Js.String_of (sc_name sizeConfig) else "" in
  parseFile (t_outputName t)
  = Some {| p_file := t_outputName t;
            p_assetName := baseName +:+ sizeSuffix +:+ "@2x";
            p_size := None;
            p_ext := "." +:+ t_format t |}.
Proof.
  intros Ht Hext Hw Hwidth.
  apply variantTasks_inv in Ht as (_ & _ & _ & _ & Hcases). cbn zeta in *.
  destruct Hcases as [[Hw' _]|(_ & _ & _ & Hout)]; [lia|].
  set (sizeSuffix := if Js.truthy (sc_name sizeConfig)
                     then "-" +:+ Js.String_of (sc_name sizeConfig) else "") in *.
  assert (t_outputName t
          = (baseName +:+ sizeSuffix +:+ "@2x") +:+ ("." +:+ t_format t)) as Hsplit
    by (by rewrite Hout, !append_assoc).
  rewrite Hsplit at 1.
  rewrite parseFile_append;
    [| by rewrite <- append_assoc; apply append_nonempty_r | done].
  replace (baseName +:+ sizeSuffix +:+ "@2x")
    with ((baseName +:+ sizeSuffix +:+ "@2") +:+ "x") at 1
    by (by rewrite !append_assoc).
  rewrite sizeMatch_ends_nondigit by done.
  by rewrite Hsplit.
Qed.

Lemma X11_retina_outputs_are_separate_assets_witness :
  parseFile (t_outputName retinaTask)
  = Some {| p_file := t_outputName retinaTask;
            p_assetName := "logo" +:+ "-32" +:+ "@2x";
            p_size := None;
            p_ext := "." +:+ t_format retinaTask |}.
Proof.
  apply (X11_retina_outputs_are_separate_assets
           "/repo/_source/brands/acme/logos/logo.png"
           "/repo/assets/v1/brands/acme/logos" "logo" "png" ["png"] true 512
           {| sc_name := Some "32"; sc_width := 32; sc_height := None |} retinaTask).
  - right. left.
  - right. left.
  - discriminate.
  - reflexivity.
Defined.

(** ** Batches *)

Section BatchFacts.

Variable w : World.

Lemma runTask_unfold t :
  runTask w t
  = match toFile w t with
    | Ok _ => (taskEvents t, Ok tt)
    | Throw e => ([], Throw e)
    end.
Proof. unfold runTask, lift. by destruct (toFile w t) as [[]|e]. Qed.

Lemma settleOrder_Permutation batch : settleOrder w batch ≡ₚ batch.
Proof. apply sortBy_Permutation. Qed.

(** Tasks that settle one after the other and all succeed. *)
Lemma forM_fulfilled tasks :
  Forall (fun t => converts w t = true) tasks →
  forM tasks (runTask w) = (tasks ≫= taskEvents, Ok tt).
Proof.
  induction 1 as [|t tasks Ht _ IH]; [done|].
  cbn [forM]. rewrite bindM_unfold, IH, runTask_unfold. unfold converts in Ht.
  by destruct (toFile w t) as [[]|e].
Qed.

(** Tasks that settle one after the other up to the first that fails. *)
Lemma forM_first_failure before failing after e :
  Forall (fun t => converts w t = true) before → toFile w failing = Throw e →
  forM (before ++ failing :: after) (runTask w) = (before ≫= taskEvents, Throw e).
Proof.
  intros Hall He. induction Hall as [|t before Ht _ IH].
  - cbn [app forM]. by rewrite bindM_unfold, runTask_unfold, He.
  - cbn [app forM]. rewrite bindM_unfold, IH, runTask_unfold.
    unfold converts in Ht. by destruct (toFile w t) as [[]|e'].
Qed.

Lemma first_failure_split (order : list Task) t e :
  t ∈ order → toFile w t = Throw e →
  ∃ before failing after e',
    order = before ++ failing :: after
    ∧ Forall (fun t => converts w t = true) before
    ∧ toFile w failing = Throw e'.
Proof.
  induction order as [|t0 order IH]; intros Ht He; [by apply elem_of_nil in Ht|].
  destruct (toFile w t0) as [[]|e0] eqn:H0.
  - apply elem_of_cons in Ht as [->|Ht]; [by rewrite H0 in He|].
    destruct (IH Ht He) as (before & failing & after & e' & -> & Hall & He').
    exists (t0 :: before), failing, after, e'. split_and!; [done| |done].
    constructor; [|done]. unfold converts. by rewrite H0.
  - exists [], t0, order, e0. split_and!; [done|constructor|done].
Qed.

Lemma promiseAll_fulfilled batch :
  Forall (fun t => converts w t = true) batch →
  promiseAll w batch = (settleOrder w batch ≫= taskEvents, Ok tt).
Proof.
  intros Hall. unfold promiseAll. apply forM_fulfilled.
  by rewrite settleOrder_Permutation.
Qed.

Lemma runBatches_all_succeed turns tasks :
  (length tasks <= turns)%nat →
  Forall (fun t => converts w t = true) tasks →
  ∃ order,
    runBatches w turns tasks = (order ≫= taskEvents, Ok tt)
    ∧ length order = length tasks
    ∧ ∀ k, take (concurrency * k) order ≡ₚ take (concurrency * k) tasks.
Proof.
  revert tasks. induction turns as [|turns IH]; intros tasks Hlen Hall.
  - destruct tasks; [|cbn in Hlen; lia]. exists []. split_and!; [done..|].
    intros k. by rewrite !take_nil.
  - destruct tasks as [|t0 tasks].
    { exists []. split_and!; [done..|]. intros k. by rewrite !take_nil. }
    cbn [runBatches].
    set (all := t0 :: tasks) in *.
    destruct (IH (drop concurrency all)) as (later & Hrun & Hl & Hk).
    { rewrite length_drop. unfold all, concurrency in *. cbn in *. lia. }
    { by apply Forall_drop. }
    pose proof (settleOrder_Permutation (take concurrency all)) as Hs.
    exists (settleOrder w (take concurrency all) ++ later).
    split_and!.
    + rewrite bindM_unfold, promiseAll_fulfilled by (by apply Forall_take).
      cbn [fst snd]. rewrite Hrun. cbn [fst snd]. by rewrite bind_app.
    + rewrite length_app, Hl, Hs, length_take, length_drop. lia.
    + intros [|k]; [by rewrite Nat.mul_0_r|].
      replace (concurrency * S k)%nat with (concurrency + concurrency * k)%nat by lia.
      rewrite <- (take_take_drop all), take_app.
      assert (length (settleOrder w (take concurrency all))
              = length (take concurrency all)) as Hls by (by rewrite Hs).
      rewrite length_take in Hls.
      rewrite take_ge by lia. rewrite Hls. apply Permutation_app; [exact Hs|].
      destruct (decide (concurrency <= length all)%nat) as [Hfull|Hshort].
      * replace (concurrency + concurrency * k - concurrency `min` length all)%nat
          with (concurrency * k)%nat by lia.
        apply Hk.
      * rewrite drop_ge in Hl |- * by lia. destruct later; [|done].
        by rewrite !take_nil.
Qed.

Lemma writtenBy_events {A} (evs : list Event) (r : result A) (tasks : list Task) :
  evs = tasks ≫= taskEvents → writtenBy (evs, r) = map t_outputPath tasks.
Proof.
  intros ->. unfold writtenBy. cbn [fst].
  induction tasks as [|t tasks IH]; [done|].
  rewrite bind_cons. cbn. by rewrite IH.
Qed.

Lemma loggedBy_events {A} (evs : list Event) (r : result A) (tasks : list Task) :
  evs = tasks ≫= taskEvents →
  loggedBy (evs, r)
  = map (fun t => {| le_level := success; le_message := t_outputName t |}) tasks.
Proof.
  intros ->. unfold loggedBy. cbn [fst].
  induction tasks as [|t tasks IH]; [done|].
  rewrite bind_cons. cbn. by rewrite IH.
Qed.

Lemma runBatches_first_failure k :
  ∀ turns good rest t e,
    (length (good ++ rest) <= turns)%nat →
    length good = (concurrency * k)%nat →
    Forall (fun t => converts w t = true) good →
    t ∈ take concurrency rest → toFile w t = Throw e →
    ∃ settled before failing after e',
      settled ≡ₚ good
      ∧ settleOrder w (take concurrency rest) = before ++ failing :: after
      ∧ Forall (fun t => converts w t = true) before
      ∧ toFile w failing = Throw e'
      ∧ runBatches w turns (good ++ rest)
        = ((settled ++ before) ≫= taskEvents, Throw e').
Proof.
  induction k as [|k IH]; intros turns good rest t e Hlen Hgood Hall Ht He.
  - destruct good; [|cbn in Hgood; lia]. cbn [app] in *.
    destruct rest as [|r0 rest]; [by apply elem_of_nil in Ht|].
    destruct turns as [|turns]; [cbn in Hlen; lia|]. cbn [runBatches].
    rewrite <- (settleOrder_Permutation (take concurrency (r0 :: rest))) in Ht.
    destruct (first_failure_split _ t e Ht He)
      as (before & failing & after & e' & Hsplit & Hbefore & He').
    exists [], before, failing, after, e'. split_and!; [done..|].
    rewrite bindM_unfold. unfold promiseAll. rewrite Hsplit.
    by rewrite (forM_first_failure _ _ _ e').
  - assert (concurrency <= length good)%nat as Hfour by lia.
    destruct good as [|g0 good]; [cbn in Hfour; unfold concurrency in Hfour; lia|].
    destruct turns as [|turns]; [cbn in Hlen; lia|].
    change ((g0 :: good) ++ rest) with (g0 :: (good ++ rest)).
    cbn [runBatches].
    change (g0 :: (good ++ rest)) with ((g0 :: good) ++ rest).
    rewrite take_app_le, drop_app_le by done.
    destruct (IH turns (drop concurrency (g0 :: good)) rest t e)
      as (settled & before & failing & after & e' & Hperm & Hsplit & Hbefore
          & He' & Hrun).
    + rewrite length_app, length_drop. rewrite length_app in Hlen.
      unfold concurrency in *. cbn in *. lia.
    + rewrite length_drop. unfold concurrency in *. lia.
    + by apply Forall_drop.
    + done.
    + done.
    + exists (settleOrder w (take concurrency (g0 :: good)) ++ settled),
        before, failing, after, e'.
      split_and!; [|done..|].
      * rewrite settleOrder_Permutation, Hperm. by rewrite take_drop.
      * rewrite bindM_unfold, promiseAll_fulfilled by (by apply Forall_take).
        cbn [fst snd]. rewrite Hrun. cbn [fst snd].
        by rewrite <- bind_app, app_assoc.
Qed.

End BatchFacts.

(** X12: when every conversion succeeds, the batches of four run every
    task once.  The run of the tasks is fulfilled; its events are, task by
    task in the order in which the conversions settle, the output file and
    the line that names it; that order is a rearrangement of the plan in
    which, for every [k], the first [4 * k] conversions to settle are the
    first [4 * k] tasks of the plan: a batch has settled before the next is
    started. *)
Theorem X12_batches_keep_every_task (w : World) (tasks : list Task) :
  Forall (fun t => toFile w t = Ok tt) tasks →
  ∃ order,
    runBatches w (length tasks) tasks = (order ≫= taskEvents, Ok tt)
    ∧ order ≡ₚ tasks
    ∧ (∀ k, take (4 * k) order ≡ₚ take (4 * k) tasks)
    ∧ writtenBy (runBatches w (length tasks) tasks) = map t_outputPath order
    ∧ loggedBy (runBatches w (length tasks) tasks)
      = map (fun t => {| le_level := success; le_message := t_outputName t |})
            order.
Proof.
  intros Hall.
  destruct (runBatches_all_succeed w (length tasks) tasks)
    as (order & Hrun & Hlen & Hk); [done| |].
  { eapply Forall_impl; [exact Hall|]. intros t Ht. unfold converts. by rewrite Ht. }
  exists order. rewrite Hrun. split_and!; [done| |done| |].
  - specialize (Hk (length tasks)).
    rewrite !take_ge in Hk by (unfold concurrency; lia). done.
  - by apply writtenBy_events.
  - by apply loggedBy_events.
Qed.

Lemma X12_batches_keep_every_task_witness :
  ∃ order,
    runBatches (demoWorld "") (length (plannedConversions (demoWorld "") []))
               (plannedConversions (demoWorld "") [])
    = (order ≫= taskEvents, Ok tt)
    ∧ order ≡ₚ plannedConversions (demoWorld "") []
    ∧ (∀ k, take (4 * k) order ≡ₚ take (4 * k) (plannedConversions (demoWorld "") []))
    ∧ writtenBy (runBatches (demoWorld "")
                   (length (plannedConversions (demoWorld "") []))
                   (plannedConversions (demoWorld "") []))
      = map t_outputPath order
    ∧ loggedBy (runBatches (demoWorld "")
                  (length (plannedConversions (demoWorld "") []))
                  (plannedConversions (demoWorld "") []))
      = map (fun t => {| le_level := success; le_message := t_outputName t |})
            order.
Proof.
  apply (X12_batches_keep_every_task (demoWorld "")).
  vm_compute. by repeat constructor.
Defined.

(** X13: a batch in which a conversion fails is the last one.  When the
    first [4 * k] tasks succeed and a task of the batch after them fails,
    the run of the tasks is rejected with the message of the first
    conversion of that batch to settle rejected.  Its events are those of
    the first [4 * k] tasks and of the conversions of the batch that
    settled before that one; the others of the batch and the tasks after
    the batch leave no event. *)
Theorem X13_failure_stops_later_batches (w : World) (k : nat)
    (good rest : list Task) (t : Task) (e : string) :
  length good = (4 * k)%nat →
  Forall (fun t => toFile w t = Ok tt) good →
  t ∈ take 4 rest → toFile w t = Throw e →
  ∃ settled before failing after e',
    settled ≡ₚ good
    ∧ settleOrder w (take 4 rest) = before ++ failing :: after
    ∧ Forall (fun t => toFile w t = Ok tt) before
    ∧ toFile w failing = Throw e'
    ∧ runBatches w (length (good ++ rest)) (good ++ rest)
      = ((settled ++ before) ≫= taskEvents, Throw e')
    ∧ loggedBy (runBatches w (length (good ++ rest)) (good ++ rest))
      = map (fun t => {| le_level := success; le_message := t_outputName t |})
            (settled ++ before).
Proof.
  intros Hgood Hall Ht He.
  destruct (runBatches_first_failure w k (length (good ++ rest)) good rest t e)
    as (settled & before & failing & after & e' & Hperm & Hsplit & Hbefore
        & He' & Hrun); try done.
  { eapply Forall_impl; [exact Hall|]. intros t' Ht'. unfold converts. by rewrite Ht'. }
  exists settled, before, failing, after, e'. rewrite Hrun.
  split_and!; [done|done| |done|done|by apply loggedBy_events].
  eapply Forall_impl; [exact Hbefore|]. intros t' Ht'. unfold converts in Ht'.
  by destruct (toFile w t') as [[]|].
Qed.

Lemma X13_failure_stops_later_batches_witness :
  ∃ settled before failing after e',
    settled ≡ₚ take 4 (plannedConversions (demoWorld "") [])
    ∧ settleOrder (demoWorld "logo-128.webp")
        (take 4 (drop 4 (plannedConversions (demoWorld "") [])))
      = before ++ failing :: after
    ∧ Forall (fun t => toFile (demoWorld "logo-128.webp") t = Ok tt) before
    ∧ toFile (demoWorld "logo-128.webp") failing = Throw e'
    ∧ runBatches (demoWorld "logo-128.webp")
        (length (take 4 (plannedConversions (demoWorld "") [])
                 ++ drop 4 (plannedConversions (demoWorld "") [])))
        (take 4 (plannedConversions (demoWorld "") [])
         ++ drop 4 (plannedConversions (demoWorld "") []))
      = ((settled ++ before) ≫= taskEvents, Throw e')
    ∧ loggedBy (runBatches (demoWorld "logo-128.webp")
        (length (take 4 (plannedConversions (demoWorld "") [])
                 ++ drop 4 (plannedConversions (demoWorld "") [])))
        (take 4 (plannedConversions (demoWorld "") [])
         ++ drop 4 (plannedConversions (demoWorld "") [])))
      = map (fun t => {| le_level := success; le_message := t_outputName t |})
            (settled ++ before).
Proof.
  apply (X13_failure_stops_later_batches (demoWorld "logo-128.webp") 1
           (take 4 (plannedConversions (demoWorld "") []))
           (drop 4 (plannedConversions (demoWorld "") []))
           {| t_input := "/repo/_source/brands/acme/logos/logo.png";
              t_width := 128; t_height := None; t_format := "webp";
              t_outputName := "logo-128.webp";
              t_outputPath := "/repo/assets/v1/brands/acme/logos/logo-128.webp" |}
           "Input buffer contains unsupported image format").
  - reflexivity.
  - vm_compute. by repeat constructor.
  - vm_compute. right. left.
  - reflexivity.
Defined.

Lemma main_fulfilled (w : World) args m :
  (main w args).2 = Ok m →
  ∃ config logs,
    (convertAll w args).2 = Ok config
    ∧ generateManifest (now w) (readOutput w (writtenBy (convertAll w args)))
      = Ok (m, logs)
    ∧ (main w args).1
      = (convertAll w args).1
        ++ [Logged {| le_level := info; le_message := "Generating asset manifest..." |};
            WroteManifest m]
        ++ map Logged logs
        ++ [Logged {| le_level := info; le_message := "Asset generation complete!" |}].
Proof.
  unfold main. rewrite bindM_unfold.
  destruct ((convertAll w args).2) as [config|e] eqn:Hconv; [|done].
  rewrite bindM_unfold. cbn [log fst snd].
  rewrite bindM_unfold. cbn [lift fst snd].
  destruct (generateManifest _ _) as [[m' logs]|e] eqn:Hgen; [|done].
  rewrite bindM_unfold. cbn [lift fst snd].
  destruct (writeFile w _) as [[]|e]; [|done].
  rewrite !bindM_unfold. cbn [log ret fst snd].
  intros [= ->]. exists config, logs. split_and!; [done..|].
  by rewrite app_nil_r.
Qed.

(** An invariant of the events of the conversions: whatever holds of every
    file written and of every line that is not at error level holds of
    every event of [convertAll]. *)
Section EventInvariant.

Variable P : Event → Prop.
Hypothesis P_wrote : ∀ p, P (Wrote p).
Hypothesis P_logged : ∀ level message,
  level ≠ error → P (Logged {| le_level := level; le_message := message |}).

Lemma events_bind {A B} (m : M A) (k : A → M B) :
  Forall P m.1 → (∀ a, Forall P (k a).1) → Forall P (bindM m k).1.
Proof.
  intros Hm Hk. rewrite bindM_unfold.
  destruct (m.2) as [a|e]; cbn; [|done]. apply Forall_app. split; [done|apply Hk].
Qed.

Lemma events_forM {A} (xs : list A) (body : A → M unit) :
  (∀ x, Forall P (body x).1) → Forall P (forM xs body).1.
Proof.
  intros Hbody. induction xs as [|x xs IH]; cbn [forM].
  - constructor.
  - apply events_bind; [apply Hbody|done].
Qed.

Lemma events_runTask w t : Forall P (runTask w t).1.
Proof.
  unfold runTask.
  apply events_bind; [constructor|]. intros _.
  apply events_bind; [by repeat constructor|]. intros _.
  repeat constructor. by apply P_logged.
Qed.

Lemma events_runBatches w turns : ∀ tasks, Forall P (runBatches w turns tasks).1.
Proof.
  induction turns as [|turns IH]; intros tasks; [by destruct tasks; constructor|].
  destruct tasks as [|t0 tasks]; [constructor|]. cbn [runBatches].
  apply events_bind; [|intros _; apply IH].
  unfold promiseAll. apply events_forM. intros t. apply events_runTask.
Qed.

Lemma events_planTasks inputPath outputDir assetConfig globalConfig metaWidth :
  Forall P (map Logged
              (planTasks inputPath outputDir assetConfig globalConfig metaWidth).1).
Proof.
  unfold planTasks. cbn [fst]. apply Forall_fmap, Forall_forall. intros entry Hentry.
  apply list_elem_of_bind in Hentry as (planned & Hentry & Hplanned).
  apply list_elem_of_fmap in Hplanned as (sizeConfig & -> & _).
  unfold variantTasks in Hentry. destruct (metaWidth <? _)%N.
  - apply list_elem_of_singleton in Hentry as ->. by apply P_logged.
  - by apply elem_of_nil in Hentry.
Qed.

Lemma events_processRasterImage w inputPath outputDir assetConfig globalConfig :
  Forall P (processRasterImage w inputPath outputDir assetConfig globalConfig).1.
Proof.
  unfold processRasterImage.
  apply events_bind; [constructor|]. intros metaWidth.
  apply events_bind; [constructor|]. intros _.
  pose proof (events_planTasks inputPath outputDir assetConfig globalConfig metaWidth)
    as Hplan.
  destruct (planTasks _ _ _ _ _) as [warnings tasks].
  apply events_bind; [exact Hplan|]. intros _.
  apply events_runBatches.
Qed.

Lemma events_processSvg w inputPath outputPath :
  Forall P (processSvg w inputPath outputPath).1.
Proof.
  unfold processSvg.
  apply events_bind; [constructor|]. intros savings.
  apply events_bind; [constructor|]. intros _.
  apply events_bind; [constructor|]. intros _.
  apply events_bind; [by repeat constructor|]. intros _.
  repeat constructor. by apply P_logged.
Qed.

Lemma events_convertAll w args : Forall P (convertAll w args).1.
Proof.
  unfold convertAll.
  apply events_bind; [repeat constructor; by apply P_logged|]. intros _.
  apply events_bind; [constructor|]. intros config.
  apply events_bind; [constructor|]. intros _.
  apply events_bind; [constructor|]. intros _.
  apply events_bind; [|intros _; constructor].
  apply events_forM. intros brand.
  destruct (_ && _); [constructor|].
  unfold processBrand.
  apply events_bind; [repeat constructor; by apply P_logged|]. intros _.
  apply events_forM. intros [assetType assetConfig].
  unfold processType. destruct (negb _); [repeat constructor; by apply P_logged|].
  apply events_bind; [repeat constructor; by apply P_logged|]. intros _.
  apply events_bind; [constructor|]. intros svgFiles.
  apply events_bind.
  - apply events_forM. intros relativePath.
    apply events_bind; [apply events_processSvg|].
    intros _. apply events_processRasterImage.
  - intros _.
    apply events_bind; [constructor|]. intros rasterFiles.
    apply events_forM. intros relativePath.
    apply events_processRasterImage.
Qed.

End EventInvariant.

Lemma omap_Forall_None {A B} (f : A → option B) (l : list A) :
  Forall (fun x => f x = None) l → omap f l = [].
Proof.
  induction 1 as [|x l Hx _ IH]; [done|]. cbn. by rewrite Hx.
Qed.

Lemma omap_Logged (entries : list LogEntry) :
  omap (fun ev => match ev with Logged e => Some e | _ => None end)
       (map Logged entries) = entries.
Proof. induction entries as [|e entries IH]; [done|]. cbn. by f_equal. Qed.

Lemma omap_not_Logged {B} (f : Event → option B) (entries : list LogEntry) :
  (∀ e, f (Logged e) = None) → omap f (map Logged entries) = [].
Proof.
  intros Hf. apply omap_Forall_None, Forall_fmap, Forall_forall.
  intros e _. apply Hf.
Qed.

Lemma loggedBy_calm (w : World) args :
  Forall (fun e => le_level e ≠ error) (loggedBy (convertAll w args)).
Proof.
  pose proof (events_convertAll
                (fun ev => match ev with
                           | Logged e => le_level e ≠ error
                           | _ => True
                           end)
                (fun _ => I) (fun level message H => H) w args) as Hevs.
  unfold loggedBy. induction Hevs as [|ev evs Hev _ IH]; [constructor|].
  destruct ev; cbn; [by constructor|done..].
Qed.

(** X14: a run that exits with code 0 has converted without a rejection
    and has written one manifest, the one [generateManifest] assembles from
    the output tree as the files written by the run left it.  The console
    holds the lines of the conversions, then the announcement of the
    manifest, the line of [generateManifest] and the closing line, and none
    of its lines is at error level. *)
Theorem X14_successful_run (w : World) (args : list string) :
  exitCode (run w args) = 0%nat →
  ∃ config m,
    (convertAll w args).2 = Ok config
    ∧ generateManifest (now w) (readOutput w (outputs (run w args)))
      = Ok (m, [ {| le_level := success;
                    le_message := "Generated assets-manifest.json" |} ])
    ∧ manifest (run w args) = Some m
    ∧ outputs (run w args) = writtenBy (convertAll w args)
    ∧ console (run w args)
      = loggedBy (convertAll w args)
        ++ [ {| le_level := info; le_message := "Generating asset manifest..." |};
             {| le_level := success; le_message := "Generated assets-manifest.json" |};
             {| le_level := info; le_message := "Asset generation complete!" |} ]
    ∧ Forall (fun e => le_level e ≠ error) (console (run w args)).
Proof.
  unfold run. destruct ((main w args).2) as [m|e] eqn:Hmain; [|done]. intros _.
  cbn [exitCode console outputs manifest].
  destruct (main_fulfilled w args m Hmain) as (config & logs & Hconv & Hgen & Hevs).
  pose proof (generateManifest_inv _ _ _ _ Hgen) as [_ ->].
  assert (writtenBy (main w args) = writtenBy (convertAll w args)) as Hwritten.
  { unfold writtenBy. rewrite Hevs, !omap_app. cbn. by rewrite app_nil_r. }
  assert (loggedBy (main w args)
          = loggedBy (convertAll w args)
            ++ [ {| le_level := info; le_message := "Generating asset manifest..." |};
                 {| le_level := success; le_message := "Generated assets-manifest.json" |};
                 {| le_level := info; le_message := "Asset generation complete!" |} ])
    as Hlogged.
  { unfold loggedBy. rewrite Hevs, !omap_app. done. }
  exists config, m. rewrite Hwritten, Hlogged. split_and!; try done.
  - unfold manifestBy. rewrite Hevs, !omap_app.
    rewrite (omap_Forall_None _ (convertAll w args).1); [done|].
    pose proof (writesNoManifest_convertAll w args) as Hno.
    unfold writesNoManifest in Hno. eapply Forall_impl; [exact Hno|].
    by intros [].
  - apply Forall_app. split; [apply loggedBy_calm|]. by repeat constructor.
Qed.

Lemma X14_successful_run_witness :
  ∃ config m,
    (convertAll (demoWorld "") []).2 = Ok config
    ∧ generateManifest (now (demoWorld ""))
        (readOutput (demoWorld "") (outputs (run (demoWorld "") [])))
      = Ok (m, [ {| le_level := success;
                    le_message := "Generated assets-manifest.json" |} ])
    ∧ manifest (run (demoWorld "") []) = Some m
    ∧ outputs (run (demoWorld "") []) = writtenBy (convertAll (demoWorld "") [])
    ∧ console (run (demoWorld "") [])
      = loggedBy (convertAll (demoWorld "") [])
        ++ [ {| le_level := info; le_message := "Generating asset manifest..." |};
             {| le_level := success; le_message := "Generated assets-manifest.json" |};
             {| le_level := info; le_message := "Asset generation complete!" |} ]
    ∧ Forall (fun e => le_level e ≠ error) (console (run (demoWorld "") [])).
Proof. apply (X14_successful_run (demoWorld "") []). reflexivity. Defined.

Lemma loggedBy_main_calm (w : World) args :
  Forall (fun e => le_level e ≠ error) (loggedBy (main w args)).
Proof.
  assert (Forall (fun ev => match ev with
                            | Logged e => le_level e ≠ error
                            | _ => True
                            end) (main w args).1) as Hevs.
  { pose proof (events_convertAll
                  (fun ev => match ev with
                             | Logged e => le_level e ≠ error
                             | _ => True
                             end)
                  (fun _ => I) (fun level message H => H) w args) as Hconv.
    unfold main. rewrite bindM_unfold.
    destruct ((convertAll w args).2) as [config|e]; [|done]. cbn [fst].
    apply Forall_app. split; [done|].
    rewrite bindM_unfold. cbn [log fst snd]. constructor; [done|].
    rewrite bindM_unfold. cbn [lift fst snd].
    destruct (generateManifest _ _) as [[m logs]|e] eqn:Hgen; [|constructor].
    apply generateManifest_inv in Hgen as [_ ->].
    rewrite bindM_unfold. cbn [lift fst snd].
    destruct (writeFile w _) as [[]|e]; [|constructor].
    rewrite !bindM_unfold. cbn. by repeat constructor. }
  unfold loggedBy. induction Hevs as [|ev evs Hev _ IH]; [constructor|].
  destruct ev; cbn; [by constructor|done..].
Qed.

(** X15: a run exits with code 0 or 1, and with code 1 exactly when [main]
    is rejected.  The only line at error level a run ever logs is the
    message of the rejection, and it is the last line of the console:
    a warning (a size skipped, a source directory missing) never changes
    the exit code. *)
Theorem X15_error_line_only_on_rejection (w : World) (args : list string) :
  ∃ lines tail,
    console (run w args) = lines ++ tail
    ∧ Forall (fun e => le_level e ≠ error) lines
    ∧ ((exitCode (run w args) = 0%nat ∧ tail = []
        ∧ ∃ m, (main w args).2 = Ok m)
       ∨ (exitCode (run w args) = 1%nat
          ∧ ∃ message, (main w args).2 = Throw message
              ∧ tail = [ {| le_level := error; le_message := message |} ])).
Proof.
  pose proof (loggedBy_main_calm w args) as Hcalm.
  unfold run. destruct ((main w args).2) as [m|message] eqn:Hmain;
    cbn [exitCode console].
  - exists (loggedBy (main w args)), []. rewrite app_nil_r.
    split_and!; [done..|]. left. split_and!; [done..|]. by exists m.
  - exists (loggedBy (main w args)),
      [ {| le_level := error; le_message := message |} ].
    split_and!; [done..|]. right. split; [done|]. by exists message.
Qed.

(* ========================================================================= *)
(** * The browser on an emitted manifest *)

(** The shape of an asset of an emitted manifest: the records of a
    non-empty list of parsed names, with the sets read off them. *)
Lemma asset_shape now brandDirs m logs a :
  generateManifest now brandDirs = Ok (m, logs) → a ∈ assetsOf m →
  ∃ brandId assetType entries,
    entries ≠ []
    ∧ files a = map (fileRecord brandId assetType) entries
    ∧ formats a
      = sort_strings (set_of (map (fun p => Js.slice1 (p_ext p)) entries))
    ∧ sizes a
      = sort_numbers (set_of (omap (fun p => truthy_size (p_size p)) entries)).
Proof.
  intros Hgen Ha.
  destruct (assetsOf_inv _ _ _ _ _ Hgen Ha)
    as (be & te & _ & _ & _ & _ & _ & Hk & Heq).
  destruct (buildGroup_fields (be_name be) (te_name te) (id a)
              (List.filter (named (id a)) (parsedList (te_files te))))
    as (_ & _ & _ & _ & Hsizes & Hformats & Hfiles).
  cbn zeta in *.
  exists (be_name be), (te_name te),
    (List.filter (named (id a)) (parsedList (te_files te))).
  split_and!.
  - apply list_elem_of_fmap in Hk as (p & Hp & Hin).
    assert (p ∈ List.filter (named (id a)) (parsedList (te_files te))) as Hpe.
    { apply list_elem_of_In, filter_In. split; [by apply list_elem_of_In|].
      unfold named. rewrite <- Hp. apply String.eqb_refl. }
    intros Hnil. rewrite Hnil in Hpe. by apply elem_of_nil in Hpe.
  - rewrite Heq at 1. apply Hfiles.
  - rewrite Heq at 1. cbn. by rewrite Hformats.
  - rewrite Heq at 1. cbn. by rewrite Hsizes.
Qed.

Lemma asset_format_has_file now brandDirs m logs a fmt :
  generateManifest now brandDirs = Ok (m, logs) → a ∈ assetsOf m →
  fmt ∈ formats a ↔ ∃ f, f ∈ files a ∧ format f = fmt.
Proof.
  intros Hgen Ha.
  destruct (asset_shape _ _ _ _ _ Hgen Ha)
    as (brandId & assetType & entries & _ & Hf & Hfm & _).
  rewrite Hfm, Hf. unfold sort_strings.
  rewrite merge_sort_Permutation, elem_of_set_of, list_elem_of_fmap.
  split.
  - intros (p & -> & Hp). exists (fileRecord brandId assetType p).
    split; [|done]. apply list_elem_of_fmap. by exists p.
  - intros (f & (p & -> & Hp)%list_elem_of_fmap & <-). by exists p.
Qed.

Lemma asset_sizes_positive now brandDirs m logs a n :
  generateManifest now brandDirs = Ok (m, logs) → a ∈ assetsOf m →
  n ∈ sizes a → n ≠ 0.
Proof.
  intros Hgen Ha.
  destruct (asset_shape _ _ _ _ _ Hgen Ha)
    as (brandId & assetType & entries & _ & _ & _ & Hsz).
  rewrite Hsz. unfold sort_numbers.
  rewrite merge_sort_Permutation, elem_of_set_of, list_elem_of_omap.
  intros (p & _ & Hn). unfold truthy_size in Hn.
  by destruct (p_size p) as [[|k]|]; simplify_eq.
Qed.

Lemma find_is_Some {A} (P : A → bool) (l : list A) (x : A) :
  x ∈ l → P x = true → ∃ y, List.find P l = Some y.
Proof.
  intros Hx HP. destruct (List.find P l) as [y|] eqn:Hfind; [by exists y|].
  rewrite find_None_iff in Hfind. rewrite Hfind in HP; done.
Qed.

(** X16: the format dropdown of the modal never leads nowhere.  For an
    asset of an emitted manifest, every format the dropdown offers and every
    size, offered or not, resolve to a file of the asset of that format;
    when a file of that format has the selected size, the file shown has
    it. *)
Theorem X16_offered_formats_resolve now brandDirs m logs a fmt sz :
  generateManifest now brandDirs = Ok (m, logs) → a ∈ assetsOf m →
  fmt ∈ formats a →
  ∃ f, resolve a fmt sz = Some f ∧ f ∈ files a ∧ format f = fmt
       ∧ ((∃ f', f' ∈ files a ∧ format f' = fmt ∧ size f' = sz) → size f = sz).
Proof.
  intros Hgen Ha Hfmt.
  apply (asset_format_has_file _ _ _ _ _ _ Hgen Ha) in Hfmt as (f0 & Hf0 & Hfmt0).
  unfold resolve.
  destruct (List.find (fun f => String.eqb (format f) fmt
                                && bool_decide (size f = sz)) (files a))
    as [f|] eqn:Hexact.
  - apply find_some in Hexact as [Hin Hf].
    apply andb_true_iff in Hf as [Hf1%String.eqb_eq Hf2%bool_decide_eq_true].
    exists f. split_and!; [done| by apply list_elem_of_In |done|done].
  - destruct (find_is_Some (fun f => String.eqb (format f) fmt) (files a) f0)
      as [f Hfind]; [done|by apply String.eqb_eq|].
    rewrite Hfind. apply find_some in Hfind as [Hin Hf%String.eqb_eq].
    exists f. split_and!; [done| by apply list_elem_of_In |done|].
    intros (f' & Hf' & Hfmt' & Hsz'). rewrite find_None_iff in Hexact.
    specialize (Hexact f' Hf'). rewrite Hfmt', Hsz', String.eqb_refl in Hexact.
    by rewrite bool_decide_eq_true_2 in Hexact.
Qed.

Lemma X16_offered_formats_resolve_witness :
  ∃ f, resolve scenarioLogo "webp" (Some 64) = Some f
       ∧ f ∈ files scenarioLogo ∧ format f = "webp"
       ∧ ((∃ f', f' ∈ files scenarioLogo ∧ format f' = "webp" ∧ size f' = Some 64)
          → size f = Some 64).
Proof.
  apply (X16_offered_formats_resolve epoch scenarioTree scenarioManifest generatedLog).
  - vm_compute. reflexivity.
  - left.
  - vm_compute. by repeat constructor.
Defined.

Lemma decimal_not_original n : Pipeline.decimal n ≠ "original".
Proof.
  intros Heq. pose proof (decimal_digits n) as Hd. rewrite Heq in Hd.
  vm_compute in Hd. done.
Qed.

(** X17: the size dropdown reads back what it offers.  For an asset of an
    emitted manifest, the value of every option of the size dropdown,
    [s || 'original'], is read by [updateModalUrls] as the size behind the
    option: [null] for the single option of an asset without sizes, the
    number itself otherwise (no listed size is 0).  The sizes are those a
    number of the host holds exactly, below 2^53. *)
Theorem X17_size_option_round_trip now brandDirs m logs a s :
  generateManifest now brandDirs = Ok (m, logs) → a ∈ assetsOf m →
  s ∈ sizeOptions a → (∀ n, s = Some n → n < 2 ^ 53) →
  selectedSize (sizeOptionValue s) = s
  ∧ (s = None ↔ sizes a = []).
Proof.
  intros Hgen Ha Hs _. unfold sizeOptions in Hs.
  destruct (sizes a) as [|n0 ns] eqn:Hsizes; cbn in Hs.
  - apply list_elem_of_singleton in Hs as ->. done.
  - assert (∃ n, s = Some n ∧ n ≠ 0) as (n & -> & Hn).
    { change (s ∈ map Some (n0 :: ns)) in Hs.
      apply list_elem_of_fmap in Hs as (n & -> & Hin). exists n. split; [done|].
      apply (asset_sizes_positive _ _ _ _ a n Hgen Ha). by rewrite Hsizes. }
    split; [|done]. unfold sizeOptionValue, selectedSize.
    destruct n as [|k]; [done|].
    pose proof (decimal_not_original (N.pos k)) as Hne.
    apply String.eqb_neq in Hne. rewrite Hne. by rewrite parseInt_decimal.
Qed.

Lemma X17_size_option_round_trip_witness :
  selectedSize (sizeOptionValue (Some 64)) = Some 64
  ∧ (Some 64 = None ↔ sizes scenarioLogo = []).
Proof.
  apply (X17_size_option_round_trip epoch scenarioTree scenarioManifest generatedLog).
  - vm_compute. reflexivity.
  - left.
  - vm_compute. by repeat constructor.
  - intros n [= <-]. reflexivity.
Defined.

(** X18: a card always has a preview.  For an asset of an emitted
    manifest [createAssetCard] finds a file of the asset to show; it is an
    SVG when the asset has one, and otherwise a PNG when the asset has
    one, of size 128 when there is such a PNG. *)
Theorem X18_card_has_preview now brandDirs m logs a :
  generateManifest now brandDirs = Ok (m, logs) → a ∈ assetsOf m →
  ∃ f, previewFile a = Some f ∧ f ∈ files a
       ∧ ("svg" ∈ formats a → format f = "svg")
       ∧ ("svg" ∉ formats a → "png" ∈ formats a →
          format f = "png"
          ∧ ((∃ f', f' ∈ files a ∧ format f' = "png" ∧ size f' = Some 128)
             → size f = Some 128)).
Proof.
  intros Hgen Ha.
  pose proof (asset_format_has_file _ _ _ _ a "svg" Hgen Ha) as Hsvg.
  pose proof (asset_format_has_file _ _ _ _ a "png" Hgen Ha) as Hpng.
  destruct (asset_shape _ _ _ _ _ Hgen Ha)
    as (brandId & assetType & entries & Hne & Hrecords & _).
  unfold previewFile.
  destruct (List.find (fun f => String.eqb (format f) "svg") (files a))
    as [f|] eqn:Hfsvg.
  { apply find_some in Hfsvg as [Hin Hfmt%String.eqb_eq].
    exists f. split_and!; [done|by apply list_elem_of_In|done|].
    intros Hno. exfalso. apply Hno, Hsvg. exists f.
    split; [by apply list_elem_of_In|done]. }
  assert ("svg" ∉ formats a) as Hnosvg.
  { rewrite Hsvg. intros (f & Hin & Hfmt). rewrite find_None_iff in Hfsvg.
    specialize (Hfsvg f Hin). rewrite Hfmt in Hfsvg. done. }
  destruct (List.find (fun f => String.eqb (format f) "png"
                                && bool_decide (size f = Some 128)) (files a))
    as [f|] eqn:Hexact.
  { apply find_some in Hexact as [Hin Hf].
    apply andb_true_iff in Hf as [Hf1%String.eqb_eq Hf2%bool_decide_eq_true].
    exists f. split_and!; [done|by apply list_elem_of_In|done|done]. }
  destruct (List.find (fun f => String.eqb (format f) "png") (files a))
    as [f|] eqn:Hfpng.
  { apply find_some in Hfpng as [Hin Hfmt%String.eqb_eq].
    exists f. split_and!; [done|by apply list_elem_of_In|done|].
    intros _ _. split; [done|].
    intros (f' & Hf' & Hfmt' & Hsz'). rewrite find_None_iff in Hexact.
    specialize (Hexact f' Hf'). rewrite Hfmt', Hsz' in Hexact. done. }
  destruct (files a) as [|f fs] eqn:Hfiles.
  { by destruct entries. }
  exists f. cbn. split_and!; [done|left|done|].
  intros _ (f' & Hf' & Hfmt')%Hpng. rewrite find_None_iff in Hfpng.
  specialize (Hfpng f' Hf'). rewrite Hfmt' in Hfpng. done.
Qed.

Lemma X18_card_has_preview_witness :
  ∃ f, previewFile scenarioLogo = Some f ∧ f ∈ files scenarioLogo
       ∧ ("svg" ∈ formats scenarioLogo → format f = "svg")
       ∧ ("svg" ∉ formats scenarioLogo → "png" ∈ formats scenarioLogo →
          format f = "png"
          ∧ ((∃ f', f' ∈ files scenarioLogo ∧ format f' = "png"
                    ∧ size f' = Some 128)
             → size f = Some 128)).
Proof.
  apply (X18_card_has_preview epoch scenarioTree scenarioManifest generatedLog).
  - vm_compute. reflexivity.
  - left.
Defined.

Lemma NoDup_map_filter {A B} (f : A → B) (P : A → bool) (l : list A) :
  NoDup (map f l) → NoDup (map f (List.filter P l)).
Proof.
  induction l as [|x l IH]; [done|]. cbn. intros [Hx Hl]%NoDup_cons.
  destruct (P x); [|by apply IH]. cbn. apply NoDup_cons. split; [|by apply IH].
  intros (y & Hy & Hin)%list_elem_of_fmap. apply Hx.
  apply list_elem_of_fmap. exists y. split; [done|].
  by apply list_elem_of_In, filter_In in Hin as [Hin%list_elem_of_In _].
Qed.

Lemma NoDup_map_inj {A B} (f : A → B) (l : list A) (x y : A) :
  NoDup (map f l) → x ∈ l → y ∈ l → f x = f y → x = y.
Proof.
  induction l as [|z l IH]; intros Hnd Hx Hy Hf; [by apply elem_of_nil in Hx|].
  cbn in Hnd. apply NoDup_cons in Hnd as [Hz Hl].
  apply elem_of_cons in Hx as [->|Hx]; apply elem_of_cons in Hy as [->|Hy].
  - done.
  - exfalso. apply Hz. rewrite Hf. apply list_elem_of_fmap. by exists y.
  - exfalso. apply Hz. rewrite <- Hf. apply list_elem_of_fmap. by exists x.
  - by apply IH.
Qed.

Lemma scanBrands_ids brandDirs brands :
  scanBrands brandDirs = Ok brands →
  sublist (map b_id brands) (map be_name brandDirs).
Proof.
  revert brands. induction brandDirs as [|be brandDirs IH]; intros brands Hscan.
  - cbn in Hscan. simplify_eq. constructor.
  - cbn in Hscan. destruct (be_isDirectory be); cbn in Hscan.
    + destruct (scanTypes (be_name be) (be_entries be)) as [types|];
        cbn in Hscan; [|done].
      destruct (scanBrands brandDirs) as [later|]; cbn in Hscan; [|done].
      destruct types as [|g types]; cbn in Hscan; simplify_eq.
      * apply sublist_cons. by apply IH.
      * cbn. apply sublist_skip. by apply IH.
    + cbn. apply sublist_cons. by apply IH.
Qed.

Lemma find_unique {A} (P : A → bool) (l : list A) (x : A) :
  x ∈ l → P x = true → (∀ y, y ∈ l → P y = true → y = x) →
  List.find P l = Some x.
Proof.
  intros Hx HP Huniq.
  destruct (find_is_Some P l x Hx HP) as [y Hfind]. rewrite Hfind.
  apply find_some in Hfind as [Hy HPy]. f_equal.
  apply Huniq; [by apply list_elem_of_In|done].
Qed.

(** An element of [allAssets] stems from a brand, a type group of it and an
    asset of the group. *)
Lemma elem_of_flatten m fa :
  fa ∈ flatten m ↔
  ∃ b g a, b ∈ brands m ∧ g ∈ b_assetTypes b ∧ a ∈ atg_assets g
           ∧ fa = {| fa_asset := a;
                     fa_brandId := b_id b;
                     fa_brandName := b_name b;
                     fa_brandTags := default [] (b_tags b);
                     fa_brandAliases := default [] (b_aliases b);
                     fa_assetType := atg_type g |}.
Proof.
  unfold flatten. rewrite list_elem_of_bind. split.
  - intros (b & (g & (a & -> & Ha)%list_elem_of_fmap & Hg)%list_elem_of_bind & Hb).
    by exists b, g, a.
  - intros (b & g & a & Hb & Hg & Ha & ->). exists b. split; [|done].
    apply list_elem_of_bind. exists g. split; [|done].
    apply list_elem_of_fmap. by exists a.
Qed.

(** X19: the three ids are a key of [allAssets].  When the directories of
    the output tree hold each name once, [openModal], called with the brand
    id, the asset type and the asset id of an element of [allAssets], finds
    that element and no other.  (How the ids reach [openModal] from the
    markup of a card is not part of this statement.) *)
Theorem X19_ids_single_out_asset now brandDirs m logs fa :
  generateManifest now brandDirs = Ok (m, logs) → distinctNames brandDirs →
  fa ∈ flatten m →
  openModal (flatten m) (fa_brandId fa) (fa_assetType fa) (id (fa_asset fa))
  = Some fa
  ∧ ∀ fa', openModal (flatten m) (fa_brandId fa) (fa_assetType fa)
                     (id (fa_asset fa)) = Some fa' → fa' = fa.
Proof.
  intros Hgen [Hbrands Htypes] Hfa.
  pose proof Hgen as [Hscan _]%generateManifest_inv.
  assert (NoDup (map b_id (brands m))) as Hb_nd.
  { eapply sublist_NoDup; [exact Hbrands|by apply scanBrands_ids]. }
  assert (openModal (flatten m) (fa_brandId fa) (fa_assetType fa)
                    (id (fa_asset fa)) = Some fa) as Hopen.
  { unfold openModal. apply find_unique; [done| |].
    - by rewrite !String.eqb_refl.
    - intros fa' Hfa' Hkey.
      apply andb_true_iff in Hkey as [Hkey Hid%String.eqb_eq].
      apply andb_true_iff in Hkey as [Hbrand%String.eqb_eq Hty%String.eqb_eq].
      apply elem_of_flatten in Hfa as (b & g & a & Hb & Hg & Ha & ->).
      apply elem_of_flatten in Hfa' as (b' & g' & a' & Hb' & Hg' & Ha' & ->).
      cbn in Hbrand, Hty, Hid.
      assert (b' = b) as -> by (by apply (NoDup_map_inj b_id (brands m))).
      destruct (scanBrands_inv _ _ _ Hscan Hb)
        as (be & Hbe & _ & _ & _ & _ & _ & Hgroups & _).
      assert (g' = g) as ->.
      { apply (NoDup_map_inj atg_type (b_assetTypes b)); [|done..].
        rewrite (scanTypes_types _ _ _ Hgroups).
        by apply NoDup_map_filter, Htypes. }
      destruct (scanTypes_inv _ _ _ _ Hgroups Hg) as (te & _ & _ & _ & Hassets & _).
      assert (a' = a) as ->.
      { apply (NoDup_map_inj id (atg_assets g)); [|done..].
        rewrite (groupAssets_ids _ _ _ _ Hassets), ownKeys_Permutation.
        apply NoDup_set_of. }
      done. }
  split; [done|]. intros fa' Hfa'. rewrite Hopen in Hfa'. by injection Hfa'.
Qed.

Lemma X19_ids_single_out_asset_witness :
  openModal (flatten scenarioManifest) (fa_brandId unkeyed) (fa_assetType unkeyed)
            (id (fa_asset unkeyed)) = Some unkeyed
  ∧ ∀ fa', openModal (flatten scenarioManifest) (fa_brandId unkeyed)
                     (fa_assetType unkeyed) (id (fa_asset unkeyed)) = Some fa' →
           fa' = unkeyed.
Proof.
  apply (X19_ids_single_out_asset epoch scenarioTree scenarioManifest generatedLog).
  - vm_compute. reflexivity.
  - split.
    + by apply (bool_decide_unpack _).
    + intros be Hbe. vm_compute in Hbe.
      apply list_elem_of_singleton in Hbe as ->.
      by apply (bool_decide_unpack _).
  - vm_compute. left.
Defined.

(* ========================================================================= *)
(** * The chips and the query *)

Section ChipFacts.

Variable localeCompare : string → string → Z.
Variable search : string → list FlatAsset.

Lemma includes_elem_of (l : list string) (s : string) :
  includes l s = true ↔ s ∈ l.
Proof.
  unfold includes. rewrite existsb_exists. split.
  - intros (x & Hx & ->%String.eqb_eq). by apply list_elem_of_In.
  - intros Hs. exists s. split; [by apply list_elem_of_In|apply String.eqb_refl].
Qed.

Lemma includes_ext_nonempty (s s' : list string) :
  (∀ x, includes s x = includes s' x) →
  (0 <? length s)%nat = (0 <? length s')%nat.
Proof.
  intros Hext. destruct s as [|x s], s' as [|x' s']; try done.
  - specialize (Hext x'). cbn in Hext. by rewrite String.eqb_refl in Hext.
  - specialize (Hext x). cbn in Hext. by rewrite String.eqb_refl in Hext.
Qed.

Lemma filterAndRender_ext allAssets query sb sb' st st' :
  (∀ x, includes sb x = includes sb' x) →
  (∀ x, includes st x = includes st' x) →
  filterAndRender localeCompare search allAssets query sb st
  = filterAndRender localeCompare search allAssets query sb' st'.
Proof.
  intros Hb Ht. unfold filterAndRender.
  rewrite (includes_ext_nonempty sb sb' Hb), (includes_ext_nonempty st st' Ht).
  f_equal.
  rewrite (filter_ext (fun a => includes sb (fa_brandId a))
                      (fun a => includes sb' (fa_brandId a)))
    by (intros a; apply Hb).
  destruct (0 <? length sb')%nat, (0 <? length st')%nat; try done.
  - apply filter_ext. intros a. apply Ht.
  - apply filter_ext. intros a. apply Ht.
Qed.

Lemma includes_set_delete s v x :
  includes (set_delete s v) x = includes s x && negb (String.eqb x v).
Proof.
  apply eq_true_iff_eq.
  rewrite andb_true_iff, !includes_elem_of, negb_true_iff, String.eqb_neq.
  unfold set_delete. rewrite list_elem_of_In, filter_In, <- list_elem_of_In.
  rewrite negb_true_iff, String.eqb_neq. done.
Qed.

Lemma includes_set_add s v x :
  includes (set_add s v) x = includes s x || String.eqb x v.
Proof.
  apply eq_true_iff_eq.
  rewrite orb_true_iff, !includes_elem_of, elem_of_set_add, String.eqb_eq. done.
Qed.

Lemma includes_toggleChip s v x :
  includes (toggleChip s v) x
  = if String.eqb x v then negb (includes s v) else includes s x.
Proof.
  unfold toggleChip. destruct (includes s v) eqn:Hv.
  - rewrite includes_set_delete. destruct (String.eqb x v) eqn:Hx; cbn.
    + apply andb_false_r.
    + apply andb_true_r.
  - rewrite includes_set_add. destruct (String.eqb x v) eqn:Hx; cbn.
    + apply orb_true_r.
    + apply orb_false_r.
Qed.

Lemma filter_filter_andb {A} (P Q : A → bool) (l : list A) :
  List.filter Q (List.filter P l) = List.filter (fun a => P a && Q a) l.
Proof.
  induction l as [|a l IH]; [done|]. cbn.
  destruct (P a); cbn; [destruct (Q a)|]; by rewrite IH.
Qed.

Lemma filterAndRender_selection allAssets query sb st :
  filterAndRender localeCompare search allAssets query sb st
  ≡ₚ List.filter
       (fun a => (negb (0 <? length sb)%nat || includes sb (fa_brandId a))
                 && (negb (0 <? length st)%nat || includes st (fa_assetType a)))
       (if String.eqb query "" then allAssets else search query).
Proof.
  unfold filterAndRender. rewrite sortBy_Permutation.
  generalize (if String.eqb query "" then allAssets else search query).
  intros found. apply Permutation_refl'.
  destruct (0 <? length sb)%nat, (0 <? length st)%nat; cbn [negb orb andb].
  - apply filter_filter_andb.
  - apply filter_ext. intros a. by rewrite andb_true_r.
  - done.
  - induction found as [|a found IH]; [done|]. cbn. by rewrite <- IH.
Qed.

(** X20: the list handed to [renderAssets] is the selection, rearranged:
    it holds exactly the assets found (all of them for an empty query, the
    hits of the search otherwise) that pass the brand chips, when one is
    selected, and the type chips, when one is selected, each as often as it
    was found.  The sort neither drops nor repeats an asset. *)
Theorem X20_result_is_the_selection allAssets query sb st :
  filterAndRender localeCompare search allAssets query sb st
  ≡ₚ List.filter
       (fun a => (negb (0 <? length sb)%nat || includes sb (fa_brandId a))
                 && (negb (0 <? length st)%nat || includes st (fa_assetType a)))
       (if String.eqb query "" then allAssets else search query).
Proof. apply filterAndRender_selection. Qed.

(** X21: clicking a chip twice changes nothing.  After two clicks on the
    same chip the set holds what it held before, and [filterAndRender]
    hands the same list, in the same order, to [renderAssets]; this holds
    for the brand chips and for the type chips, whatever else is
    selected. *)
Theorem X21_chip_clicked_twice allAssets query sb st v :
  (∀ x, x ∈ toggleChip (toggleChip sb v) v ↔ x ∈ sb)
  ∧ filterAndRender localeCompare search allAssets query
      (toggleChip (toggleChip sb v) v) st
    = filterAndRender localeCompare search allAssets query sb st
  ∧ filterAndRender localeCompare search allAssets query
      sb (toggleChip (toggleChip st v) v)
    = filterAndRender localeCompare search allAssets query sb st.
Proof.
  assert (∀ s x, includes (toggleChip (toggleChip s v) v) x = includes s x)
    as Htwice.
  { intros s x. rewrite !includes_toggleChip, String.eqb_refl, negb_involutive.
    destruct (String.eqb x v) eqn:Hx; [|done].
    apply String.eqb_eq in Hx as ->. done. }
  split_and!.
  - intros x. by rewrite <- !includes_elem_of, Htwice.
  - by apply filterAndRender_ext.
  - by apply filterAndRender_ext.
Qed.

(** X22: one click on a chip selects or deselects its value and nothing
    else: afterwards the set holds the value exactly when it did not hold
    it before, and every other value as before. *)
Theorem X22_chip_click_flips_one_value sb v x :
  x ∈ toggleChip sb v ↔ (if decide (x = v) then v ∉ sb else x ∈ sb).
Proof.
  rewrite <- includes_elem_of, includes_toggleChip.
  destruct (decide (x = v)) as [->|Hne].
  - rewrite String.eqb_refl, negb_true_iff, <- not_true_iff_false.
    by rewrite includes_elem_of.
  - apply String.eqb_neq in Hne. rewrite Hne. apply includes_elem_of.
Qed.

(** X23: the type chips of [setupFilters] are the asset types of
    [allAssets], each once, in the order of their code units; a type chip
    selected alone, with an empty query, never shows the empty state. *)
Theorem X23_type_chips allAssets :
  NoDup (typeChips allAssets)
  ∧ Sorted string_le (typeChips allAssets)
  ∧ (∀ t, t ∈ typeChips allAssets ↔ ∃ a, a ∈ allAssets ∧ fa_assetType a = t)
  ∧ (∀ t, t ∈ typeChips allAssets →
          filterAndRender localeCompare search allAssets "" [] [t] ≠ []).
Proof.
  assert (∀ t, t ∈ typeChips allAssets ↔ ∃ a, a ∈ allAssets ∧ fa_assetType a = t)
    as Hmem.
  { intros t. unfold typeChips, sort_strings.
    rewrite merge_sort_Permutation, elem_of_set_of, list_elem_of_fmap.
    split; intros (a & H1 & H2); by exists a. }
  split_and!; [| |done|].
  - unfold typeChips, sort_strings. rewrite merge_sort_Permutation.
    apply NoDup_set_of.
  - unfold typeChips, sort_strings. apply Sorted_merge_sort; apply _.
  - intros t (a & Ha & Hty)%Hmem Hnil.
    assert (a ∈ filterAndRender localeCompare search allAssets "" [] [t]) as Hin.
    { rewrite filterAndRender_selection. cbn [String.eqb length Nat.ltb Nat.leb negb orb].
      apply list_elem_of_In, filter_In. split; [by apply list_elem_of_In|].
      cbn. by rewrite Hty, String.eqb_refl. }
    rewrite Hnil in Hin. by apply elem_of_nil in Hin.
Qed.

End ChipFacts.

(** X24: every brand chip leads somewhere.  On an emitted manifest, a
    brand chip selected alone, with an empty query, shows at least one
    asset, and every asset it shows is of that brand. *)
Theorem X24_brand_chip_shows_assets localeCompare search now brandDirs m logs b :
  generateManifest now brandDirs = Ok (m, logs) → b ∈ brandChips m →
  filterAndRender localeCompare search (flatten m) "" [b] [] ≠ []
  ∧ ∀ fa, fa ∈ filterAndRender localeCompare search (flatten m) "" [b] [] →
          fa_brandId fa = b ∧ fa ∈ flatten m.
Proof.
  intros Hgen Hb. pose proof Hgen as [Hscan _]%generateManifest_inv.
  assert (∀ fa, fa ∈ filterAndRender localeCompare search (flatten m) "" [b] []
                ↔ fa ∈ flatten m ∧ fa_brandId fa = b) as Hmem.
  { intros fa. rewrite filterAndRender_selection.
    cbn [String.eqb length Nat.ltb Nat.leb negb orb andb].
    rewrite list_elem_of_In, filter_In, <- list_elem_of_In.
    rewrite andb_true_r. cbn. rewrite orb_false_r, String.eqb_eq. done. }
  split.
  - apply list_elem_of_fmap in Hb as (br & -> & Hbr).
    destruct (scanBrands_inv _ _ _ Hscan Hbr)
      as (be & _ & _ & _ & _ & _ & _ & Hgroups & Hne).
    destruct (b_assetTypes br) as [|g gs] eqn:Hgs; [done|].
    destruct (scanTypes_inv _ _ _ _ Hgroups (list_elem_of_here g gs))
      as (te & _ & _ & _ & _ & Hane).
    destruct (atg_assets g) as [|a assets] eqn:Has; [done|].
    intros Hnil.
    assert ({| fa_asset := a;
               fa_brandId := b_id br;
               fa_brandName := b_name br;
               fa_brandTags := default [] (b_tags br);
               fa_brandAliases := default [] (b_aliases br);
               fa_assetType := atg_type g |}
            ∈ filterAndRender localeCompare search (flatten m) "" [b_id br] [])
      as Hin.
    { apply Hmem. split; [|done]. apply elem_of_flatten.
      exists br, g, a. split_and!; [done| | |done].
      - rewrite Hgs. left.
      - rewrite Has. left. }
    rewrite Hnil in Hin. by apply elem_of_nil in Hin.
  - intros fa Hfa%Hmem. by destruct Hfa.
Qed.

Lemma X24_brand_chip_shows_assets_witness :
  filterAndRender codeUnitCompare (fun _ => []) (flatten scenarioManifest)
                  "" ["acme"] [] ≠ []
  ∧ ∀ fa, fa ∈ filterAndRender codeUnitCompare (fun _ => [])
                 (flatten scenarioManifest) "" ["acme"] [] →
          fa_brandId fa = "acme" ∧ fa ∈ flatten scenarioManifest.
Proof.
  apply (X24_brand_chip_shows_assets codeUnitCompare (fun _ => [])
           epoch scenarioTree scenarioManifest generatedLog).
  - vm_compute. reflexivity.
  - vm_compute. left.
Defined.

(* ========================================================================= *)
(** * [escapeHtml] *)

Lemma replaceAll_append pattern replacement s t :
  replaceAll pattern replacement (s +:+ t)
  = replaceAll pattern replacement s +:+ replaceAll pattern replacement t.
Proof.
  induction s as [|c s IH]; [done|].
  change (replaceAll pattern replacement (String c (s +:+ t))
          = replaceAll pattern replacement (String c s)
            +:+ replaceAll pattern replacement t).
  cbn [replaceAll]. rewrite IH. destruct (Ascii.eqb c pattern).
  - by rewrite append_assoc.
  - done.
Qed.

Lemma escapeHtml_append s t : escapeHtml (s +:+ t) = escapeHtml s +:+ escapeHtml t.
Proof. unfold escapeHtml. by rewrite !replaceAll_append. Qed.

Lemma escapeHtml_plain c :
  c ≠ "&"%char → c ≠ "<"%char → c ≠ ">"%char → c ≠ "034"%char → c ≠ "'"%char →
  escapeHtml (String c "") = String c "".
Proof.
  intros H1 H2 H3 H4 H5. unfold escapeHtml. cbn [replaceAll].
  apply Ascii.eqb_neq in H1, H2, H3, H4, H5.
  rewrite H1. cbn [replaceAll]. rewrite H2. cbn [replaceAll].
  rewrite H3. cbn [replaceAll]. rewrite H4. cbn [replaceAll]. by rewrite H5.
Qed.

Lemma escapeHtml_one c : escapeHtml (String c "") = escaped c.
Proof.
  unfold escaped.
  destruct (Ascii.eqb c "&") eqn:H1; [by apply Ascii.eqb_eq in H1 as ->|].
  destruct (Ascii.eqb c "<") eqn:H2; [by apply Ascii.eqb_eq in H2 as ->|].
  destruct (Ascii.eqb c ">") eqn:H3; [by apply Ascii.eqb_eq in H3 as ->|].
  destruct (Ascii.eqb c "034") eqn:H4; [by apply Ascii.eqb_eq in H4 as ->|].
  destruct (Ascii.eqb c "'") eqn:H5; [by apply Ascii.eqb_eq in H5 as ->|].
  apply escapeHtml_plain; by apply Ascii.eqb_neq.
Qed.

Lemma escapeHtml_cons c s : escapeHtml (String c s) = escaped c +:+ escapeHtml s.
Proof.
  change (String c s) with (String c "" +:+ s).
  by rewrite escapeHtml_append, escapeHtml_one.
Qed.

Lemma escaped_no_markup c : forallb (fun d => negb (markup d)) (Js.to_list (escaped c)) = true.
Proof.
  unfold escaped.
  destruct (Ascii.eqb c "&") eqn:H1; [done|].
  destruct (Ascii.eqb c "<") eqn:H2; [done|].
  destruct (Ascii.eqb c ">") eqn:H3; [done|].
  destruct (Ascii.eqb c "034") eqn:H4; [done|].
  destruct (Ascii.eqb c "'") eqn:H5; [done|].
  cbn. unfold markup. by rewrite H2, H3, H4, H5.
Qed.

Lemma escaped_inj c d s t :
  escaped c +:+ s = escaped d +:+ t → c = d ∧ s = t.
Proof.
  unfold escaped.
  destruct (Ascii.eqb c "&") eqn:C1;
    [apply Ascii.eqb_eq in C1 as ->|
     destruct (Ascii.eqb c "<") eqn:C2;
       [apply Ascii.eqb_eq in C2 as ->|
        destruct (Ascii.eqb c ">") eqn:C3;
          [apply Ascii.eqb_eq in C3 as ->|
           destruct (Ascii.eqb c "034") eqn:C4;
             [apply Ascii.eqb_eq in C4 as ->|
              destruct (Ascii.eqb c "'") eqn:C5;
                [apply Ascii.eqb_eq in C5 as ->|]]]]];
  (destruct (Ascii.eqb d "&") eqn:D1;
    [apply Ascii.eqb_eq in D1 as ->|
     destruct (Ascii.eqb d "<") eqn:D2;
       [apply Ascii.eqb_eq in D2 as ->|
        destruct (Ascii.eqb d ">") eqn:D3;
          [apply Ascii.eqb_eq in D3 as ->|
           destruct (Ascii.eqb d "034") eqn:D4;
             [apply Ascii.eqb_eq in D4 as ->|
              destruct (Ascii.eqb d "'") eqn:D5;
                [apply Ascii.eqb_eq in D5 as ->|]]]]]);
  intros Heq; try (by inversion Heq).
  all: try (injection Heq as Hc _; subst; (by rewrite Ascii.eqb_refl in C1)
                                          || (by rewrite Ascii.eqb_refl in D1)).
Qed.

(** X25: [escapeHtml] escapes character by character: it distributes over
    concatenation, puts the five entities for [&], [<], [>], the double
    quote and the apostrophe, and leaves every other character as it is
    (the ampersand is replaced first, so that no entity is escaped twice).
    Its result holds none of [<], [>], the double quote and the apostrophe,
    and it is injective: two texts with the same escaped form are equal. *)
Theorem X25_escapeHtml_characterwise :
  (∀ s t, escapeHtml (s +:+ t) = escapeHtml s +:+ escapeHtml t)
  ∧ escapeHtml "&<>'" = "&amp;&lt;&gt;&#39;"
  ∧ escapeHtml (String "034" "") = "&quot;"
  ∧ (∀ c, c ≠ "&"%char → markup c = false → escapeHtml (String c "") = String c "")
  ∧ (∀ s, forallb (fun d => negb (markup d)) (Js.to_list (escapeHtml s)) = true)
  ∧ (∀ s t, escapeHtml s = escapeHtml t → s = t).
Proof.
  split_and!.
  - apply escapeHtml_append.
  - reflexivity.
  - reflexivity.
  - intros c Hamp Hc. unfold markup in Hc.
    apply orb_false_iff in Hc as [Hc H4]. apply orb_false_iff in Hc as [Hc H3].
    apply orb_false_iff in Hc as [H1 H2].
    apply escapeHtml_plain; [done|by apply Ascii.eqb_neq..].
  - induction s as [|c s IH]; [done|].
    rewrite escapeHtml_cons, to_list_app, forallb_app, IH, escaped_no_markup. done.
  - induction s as [|c s IH]; intros [|d t] Heq.
    + done.
    + rewrite escapeHtml_cons in Heq. exfalso. revert Heq. unfold escaped.
      change (escapeHtml "") with "".
      by repeat (destruct (Ascii.eqb d _)).
    + rewrite escapeHtml_cons in Heq. exfalso. revert Heq. unfold escaped.
      change (escapeHtml "") with "".
      by repeat (destruct (Ascii.eqb c _)).
    + rewrite !escapeHtml_cons in Heq. apply escaped_inj in Heq as [-> Heq].
      f_equal. by apply IH.
Qed.

(* ========================================================================= *)
(** * The preview background and the download *)

Lemma indexOf_absent (l : list string) (x : string) :
  x ∉ l → indexOf l x = (-1)%Z.
Proof.
  induction l as [|y l IH]; [done|]. intros Hx. cbn.
  apply not_elem_of_cons in Hx as [Hne Hx].
  assert (String.eqb y x = false) as -> by (by apply String.eqb_neq).
  by rewrite IH.
Qed.

(** X26: [cyclePreviewBg] walks through the three backgrounds in the order
    checkerboard, light, dark and back to checkerboard: three steps restore
    the background, one or two steps never do, and the class of the
    preview changes with every step.  From any other value of [previewBg]
    one step leads to checkerboard. *)
Theorem X26_preview_background_cycle (previewBg : string) :
  cyclePreviewBg previewBg ∈ previewOrder
  ∧ (previewBg ∉ previewOrder → cyclePreviewBg previewBg = "checkerboard")
  ∧ (previewBg ∈ previewOrder →
     cyclePreviewBg (cyclePreviewBg (cyclePreviewBg previewBg)) = previewBg
     ∧ cyclePreviewBg previewBg ≠ previewBg
     ∧ cyclePreviewBg (cyclePreviewBg previewBg) ≠ previewBg
     ∧ getPreviewBgClass (cyclePreviewBg previewBg) ≠ getPreviewBgClass previewBg).
Proof.
  destruct (decide (previewBg ∈ previewOrder)) as [Hin|Hout].
  - assert (previewBg = "checkerboard" ∨ previewBg = "light" ∨ previewBg = "dark")
      as [->|[->| ->]].
    { unfold previewOrder in Hin.
      repeat (apply elem_of_cons in Hin as [->|Hin]; [by auto|]).
      by apply elem_of_nil in Hin. }
    + split_and!; [vm_compute; by repeat constructor|done|].
      intros _. by vm_compute.
    + split_and!; [vm_compute; by repeat constructor|done|].
      intros _. by vm_compute.
    + split_and!; [vm_compute; by repeat constructor|done|].
      intros _. by vm_compute.
  - assert (cyclePreviewBg previewBg = "checkerboard") as Hc.
    { unfold cyclePreviewBg. by rewrite (indexOf_absent _ _ Hout). }
    split_and!; [|done|done]. rewrite Hc. left.
Qed.

Lemma split_nonempty (sep : ascii) (s : string) : Js.split sep s ≠ [].
Proof.
  induction s as [|c s IH]; [done|]. cbn.
  destruct (Ascii.eqb c sep); [done|]. by destruct (Js.split sep s).
Qed.

Lemma split_append (sep : ascii) (s t : string) :
  Js.split sep (s +:+ String sep t) = Js.split sep s ++ Js.split sep t.
Proof.
  induction s as [|c s IH].
  - change ("" +:+ String sep t) with (String sep t). cbn [Js.split].
    by rewrite Ascii.eqb_refl.
  - change (String c s +:+ String sep t) with (String c (s +:+ String sep t)).
    cbn [Js.split]. rewrite IH. destruct (Ascii.eqb c sep); [done|].
    pose proof (split_nonempty sep s) as Hne.
    by destruct (Js.split sep s).
Qed.

Lemma split_no_separator (sep : ascii) (s : string) :
  sep ∉ Js.to_list s → Js.split sep s = [s].
Proof.
  induction s as [|c s IH]; [done|]. cbn. intros [Hc Hs]%not_elem_of_cons.
  assert (Ascii.eqb c sep = false) as -> by (apply Ascii.eqb_neq; congruence).
  by rewrite IH.
Qed.

(** X27: the download is named after the file.  For a file record of an
    emitted manifest whose name holds no slash, as the name of a directory
    entry does, the name [downloadAsset] gives the download, the last
    segment of the URL that [updateModalUrls] wrote for the record, is the
    [file] of the record. *)
Theorem X27_download_named_after_file now brandDirs m logs f :
  generateManifest now brandDirs = Ok (m, logs) → f ∈ filesOf m →
  "/"%char ∉ Js.to_list (file f) →
  downloadName (githubUrl f) = file f.
Proof.
  intros Hgen Hf Hname.
  destruct (filesOf_inv _ _ _ _ _ Hgen Hf) as (be & te & p & _ & _ & _ & _ & ->).
  cbn [file fileRecord] in Hname.
  unfold downloadName, githubUrl. cbn [path fileRecord]. unfold dirPath.
  assert (∀ prefix, last (Js.split "/" (prefix +:+ "/" +:+ p_file p))
                    = Some (p_file p)) as Hlast.
  { intros prefix. change ("/" +:+ p_file p) with (String "/" (p_file p)).
    rewrite split_append, (split_no_separator _ _ Hname). apply last_snoc. }
  rewrite !append_assoc, <- !append_assoc, (append_assoc _ "/" (p_file p)).
  by rewrite Hlast.
Qed.

Lemma X27_download_named_after_file_witness :
  downloadName (githubUrl {| file := "logo.svg"; format := "svg"; size := None;
                             path := "v1/brands/acme/logos/logo.svg" |})
  = "logo.svg".
Proof.
  apply (X27_download_named_after_file epoch scenarioTree scenarioManifest
           generatedLog
           {| file := "logo.svg"; format := "svg"; size := None;
              path := "v1/brands/acme/logos/logo.svg" |}).
  - vm_compute. reflexivity.
  - vm_compute. left.
  - vm_compute. intros Hin.
    repeat (apply elem_of_cons in Hin as [Hin|Hin]; [done|]).
    by apply elem_of_nil in Hin.
Defined.

(* ========================================================================= *)
(** * The brand filter of the command line *)

Lemma brandFilter_absent args : "--brand" ∉ args → brandFilter args = None.
Proof.
  induction args as [|a args IH]; [done|]. intros [Ha Hargs]%not_elem_of_cons.
  cbn. assert (String.eqb a "--brand" = false) as ->
    by (apply String.eqb_neq; congruence).
  by apply IH.
Qed.

Lemma brandFilter_app args rest :
  "--brand" ∉ args → brandFilter (args ++ rest) = brandFilter rest.
Proof.
  induction args as [|a args IH]; [done|]. intros [Ha Hargs]%not_elem_of_cons.
  cbn. assert (String.eqb a "--brand" = false) as ->
    by (apply String.eqb_neq; congruence).
  by apply IH.
Qed.

Lemma run_unfiltered (w : World) args :
  Js.truthy (brandFilter args) = false → run w args = run w [].
Proof.
  intros Hfilter.
  assert (convertAll w args = convertAll w []) as Hconv.
  { unfold convertAll. rewrite Hfilter. done. }
  unfold run, main. by rewrite Hconv.
Qed.

(** X28: a brand filter without a value filters nothing.  When [--brand]
    is the last argument, or is followed by the empty string, or is not
    given at all, [main] processes every brand of the configuration: the
    run is the run without arguments. *)
Theorem X28_brand_flag_without_value (w : World) (args : list string) :
  "--brand" ∉ args →
  run w args = run w []
  ∧ run w (args ++ ["--brand"]) = run w []
  ∧ ∀ rest, run w (args ++ "--brand" :: "" :: rest) = run w [].
Proof.
  intros Hargs. split_and!.
  - apply run_unfiltered. by rewrite brandFilter_absent.
  - apply run_unfiltered. rewrite brandFilter_app by done. done.
  - intros rest. apply run_unfiltered. rewrite brandFilter_app by done. done.
Qed.

Lemma X28_brand_flag_without_value_witness :
  run (demoWorld "") ["--verbose"] = run (demoWorld "") []
  ∧ run (demoWorld "") (["--verbose"] ++ ["--brand"]) = run (demoWorld "") []
  ∧ ∀ rest, run (demoWorld "") (["--verbose"] ++ "--brand" :: "" :: rest)
            = run (demoWorld "") [].
Proof.
  apply (X28_brand_flag_without_value (demoWorld "") ["--verbose"]).
  intros Hin. apply list_elem_of_singleton in Hin. discriminate Hin.
Defined.



(* ========================================================================= *)
(** * The sizes named on a card *)

Lemma default_last_cons {A} (d d' k : A) (l : list A) :
  default d (last (k :: l)) = default d' (last (k :: l)).
Proof.
  revert k. induction l as [|k' l IH]; intros k; [done|].
  change (last (k :: k' :: l)) with (last (k' :: l)). apply IH.
Qed.

Lemma Sorted_head_last (l : list N) (first : N) :
  Sorted N.le (first :: l) →
  ∀ n, n ∈ first :: l → first <= n ∧ n <= default first (last (first :: l)).
Proof.
  intros Hs%Sorted_StronglySorted; [|intros x y z; apply N.le_trans].
  revert first Hs. induction l as [|k l IH]; intros first Hs n Hn.
  - apply list_elem_of_singleton in Hn as ->. cbn. lia.
  - apply StronglySorted_inv in Hs as [Hs Hall].
    rewrite Forall_forall in Hall.
    change (last (first :: k :: l)) with (last (k :: l)).
    assert (default first (last (k :: l)) = default k (last (k :: l))) as ->.
    { apply default_last_cons. }
    apply elem_of_cons in Hn as [->|Hn].
    + split; [lia|].
      destruct (IH k Hs k (list_elem_of_here k l)) as [_ Hk].
      specialize (Hall k (list_elem_of_here k l)). lia.
    + destruct (IH k Hs n Hn) as [Hlo Hhi]. split; [|done].
      specialize (Hall k (list_elem_of_here k l)). lia.
Qed.


